(** * The rgw manager module (src/pybind/mgr/rgw/module.py)

    A shallow embedding of the command handlers of the rgw manager module and
    of the token encoding they use, with the properties of the module's
    specification stated and proved over it.

    Layout: Python text, bytes, base64, UTF-8 and JSON first; then the
    collaborators of the module (orchestrator, RGWAM engine, YAML loader) as an
    environment record; then the handlers of [Module]; then the theorems. *)

From Stdlib Require Import ZArith NArith List String Ascii Bool Lia.
From Stdlib Require Import DecimalString.
Import ListNotations.

Local Open Scope N_scope.

(** ** Python values *)

(** A Python [str] is a sequence of code points; [bytes] a sequence of
    8-bit characters. *)
Definition str := list N.
Definition bytes := list ascii.

(** An ASCII literal of the source, as a [str]. *)
Definition u (s : string) : str := map N_of_ascii (list_ascii_of_string s).

Fixpoint str_eqb (a b : str) : bool :=
  match a, b with
  | [], [] => true
  | x :: a', y :: b' => (x =? y) && str_eqb a' b'
  | _, _ => false
  end.

(** The values that the engine hands to the module in a realm description and
    that a [RealmToken] stores (None, a boolean or a text): Python is
    dynamically typed, so a field holds any of them. *)
Inductive pyval :=
| PyNone
| PyBool (b : bool)
| PyStr (s : str).

(** Python truth value, as [if x:] and [not x] test it. *)
Definition truthy (v : pyval) : bool :=
  match v with
  | PyNone => false
  | PyBool b => b
  | PyStr s => match s with [] => false | _ :: _ => true end
  end.

(** An [Optional[str]] argument of a command. *)
Definition opt_truthy (o : option str) : bool :=
  match o with
  | Some (_ :: _) => true
  | _ => false
  end.

(** A small option monad for the decoders. *)
Definition obind {A B} (o : option A) (f : A -> option B) : option B :=
  match o with
  | Some a => f a
  | None => None
  end.

Notation "x <-? c ;; k" := (obind c (fun x => k))
  (at level 61, c at next level, right associativity).
Notation "' p <-? c ;; k" := (obind c (fun x => match x with p => k end))
  (at level 61, p pattern, c at next level, right associativity).

(** ** base64 (standard alphabet, with padding), as [base64.b64encode] *)

Definition b64_alphabet : list ascii :=
  list_ascii_of_string
    "ABCDEFGHIJKLMNOPQRSTUVWXYZabcdefghijklmnopqrstuvwxyz0123456789+/".

Definition b64_pad : ascii := "="%char.

(** The value of six bits, most significant first. *)
Definition bit (b : bool) : N := if b then 1 else 0.

Definition sextet (b5 b4 b3 b2 b1 b0 : bool) : N :=
  32 * bit b5 + 16 * bit b4 + 8 * bit b3 + 4 * bit b2 + 2 * bit b1 + bit b0.

Definition b64_chr (n : N) : ascii := nth (N.to_nat n) b64_alphabet b64_pad.

Fixpoint index_of (c : ascii) (l : list ascii) (i : N) : option N :=
  match l with
  | [] => None
  | x :: l' => if Ascii.eqb c x then Some i else index_of c l' (N.succ i)
  end.

Definition b64_val (c : ascii) : option N := index_of c b64_alphabet 0.

(** Three input bytes give four characters; a final group of one or two bytes
    is completed with zero bits and padded with [=]. *)
Fixpoint b64encode (bs : bytes) : bytes :=
  match bs with
  | [] => []
  | [Ascii a0 a1 a2 a3 a4 a5 a6 a7] =>
      [b64_chr (sextet a7 a6 a5 a4 a3 a2);
       b64_chr (sextet a1 a0 false false false false);
       b64_pad; b64_pad]
  | [Ascii a0 a1 a2 a3 a4 a5 a6 a7; Ascii b0 b1 b2 b3 b4 b5 b6 b7] =>
      [b64_chr (sextet a7 a6 a5 a4 a3 a2);
       b64_chr (sextet a1 a0 b7 b6 b5 b4);
       b64_chr (sextet b3 b2 b1 b0 false false);
       b64_pad]
  | Ascii a0 a1 a2 a3 a4 a5 a6 a7 :: Ascii b0 b1 b2 b3 b4 b5 b6 b7
      :: Ascii c0 c1 c2 c3 c4 c5 c6 c7 :: rest =>
      b64_chr (sextet a7 a6 a5 a4 a3 a2)
      :: b64_chr (sextet a1 a0 b7 b6 b5 b4)
      :: b64_chr (sextet b3 b2 b1 b0 c7 c6)
      :: b64_chr (sextet c5 c4 c3 c2 c1 c0)
      :: b64encode rest
  end.

(** The six bits of a sextet value, most significant first. *)
Definition sextet_bits (n : N) : bool * bool * bool * bool * bool * bool :=
  (N.testbit n 5, N.testbit n 4, N.testbit n 3,
   N.testbit n 2, N.testbit n 1, N.testbit n 0).

Definition b64_group3 (p q r s : N) : bytes :=
  let '(p5, p4, p3, p2, p1, p0) := sextet_bits p in
  let '(q5, q4, q3, q2, q1, q0) := sextet_bits q in
  let '(r5, r4, r3, r2, r1, r0) := sextet_bits r in
  let '(s5, s4, s3, s2, s1, s0) := sextet_bits s in
  [Ascii q4 q5 p0 p1 p2 p3 p4 p5;
   Ascii r2 r3 r4 r5 q0 q1 q2 q3;
   Ascii s0 s1 s2 s3 s4 s5 r0 r1].

Definition b64_group2 (p q r : N) : bytes :=
  let '(p5, p4, p3, p2, p1, p0) := sextet_bits p in
  let '(q5, q4, q3, q2, q1, q0) := sextet_bits q in
  let '(r5, r4, r3, r2, r1, r0) := sextet_bits r in
  [Ascii q4 q5 p0 p1 p2 p3 p4 p5;
   Ascii r2 r3 r4 r5 q0 q1 q2 q3].

Definition b64_group1 (p q : N) : bytes :=
  let '(p5, p4, p3, p2, p1, p0) := sextet_bits p in
  let '(q5, q4, q3, q2, q1, q0) := sextet_bits q in
  [Ascii q4 q5 p0 p1 p2 p3 p4 p5].

(** Decoding of a padded base64 text: groups of four characters of the
    alphabet, padding only at the end of the last group; anything else is
    rejected. *)
Fixpoint b64decode (cs : bytes) : option bytes :=
  match cs with
  | [] => Some []
  | [c1; c2; c3; c4] =>
      p <-? b64_val c1 ;;
      q <-? b64_val c2 ;;
      if Ascii.eqb c3 b64_pad then
        if Ascii.eqb c4 b64_pad then Some (b64_group1 p q) else None
      else
        r <-? b64_val c3 ;;
        if Ascii.eqb c4 b64_pad then Some (b64_group2 p q r)
        else s <-? b64_val c4 ;; Some (b64_group3 p q r s)
  | c1 :: c2 :: c3 :: c4 :: rest =>
      p <-? b64_val c1 ;;
      q <-? b64_val c2 ;;
      r <-? b64_val c3 ;;
      s <-? b64_val c4 ;;
      tl <-? b64decode rest ;;
      Some (b64_group3 p q r s ++ tl)
  | _ => None
  end.

(** ** UTF-8, as [str.encode('utf-8')] and [bytes.decode('utf-8')] *)

Definition is_surrogate (c : N) : bool := (0xD800 <=? c) && (c <=? 0xDFFF).

(** A continuation byte carrying six bits of [c], starting at bit [sh]. *)
Definition utf8_cont (c sh : N) : ascii :=
  ascii_of_N (N.lor 0x80 (N.land (N.shiftr c sh) 0x3F)).

Definition utf8_encode_char (c : N) : option bytes :=
  if c <? 0x80 then Some [ascii_of_N c]
  else if c <? 0x800 then
    Some [ascii_of_N (N.lor 0xC0 (N.shiftr c 6)); utf8_cont c 0]
  else if c <? 0x10000 then
    if is_surrogate c then None
    else Some [ascii_of_N (N.lor 0xE0 (N.shiftr c 12)); utf8_cont c 6; utf8_cont c 0]
  else if c <? 0x110000 then
    Some [ascii_of_N (N.lor 0xF0 (N.shiftr c 18));
          utf8_cont c 12; utf8_cont c 6; utf8_cont c 0]
  else None.

Fixpoint utf8_encode (s : str) : option bytes :=
  match s with
  | [] => Some []
  | c :: s' =>
      b <-? utf8_encode_char c ;;
      tl <-? utf8_encode s' ;;
      Some (b ++ tl)
  end.

(** The six payload bits of a continuation byte [10xxxxxx]. *)
Definition utf8_tail (b : ascii) : option N :=
  let n := N_of_ascii b in
  if (0x80 <=? n) && (n <? 0xC0) then Some (N.land n 0x3F) else None.

Fixpoint utf8_decode (bs : bytes) : option str :=
  match bs with
  | [] => Some []
  | b :: rest =>
      let n := N_of_ascii b in
      if n <? 0x80 then
        tl <-? utf8_decode rest ;; Some (n :: tl)
      else if (0xC2 <=? n) && (n <? 0xE0) then
        match rest with
        | b1 :: rest1 =>
            x1 <-? utf8_tail b1 ;;
            tl <-? utf8_decode rest1 ;;
            Some (N.lor (N.shiftl (N.land n 0x1F) 6) x1 :: tl)
        | _ => None
        end
      else if (0xE0 <=? n) && (n <? 0xF0) then
        match rest with
        | b1 :: b2 :: rest2 =>
            x1 <-? utf8_tail b1 ;;
            x2 <-? utf8_tail b2 ;;
            let c := N.lor (N.shiftl (N.land n 0x0F) 12) (N.lor (N.shiftl x1 6) x2) in
            if (c <? 0x800) || is_surrogate c then None
            else tl <-? utf8_decode rest2 ;; Some (c :: tl)
        | _ => None
        end
      else if (0xF0 <=? n) && (n <? 0xF5) then
        match rest with
        | b1 :: b2 :: b3 :: rest3 =>
            x1 <-? utf8_tail b1 ;;
            x2 <-? utf8_tail b2 ;;
            x3 <-? utf8_tail b3 ;;
            let c := N.lor (N.shiftl (N.land n 0x07) 18)
                       (N.lor (N.shiftl x1 12) (N.lor (N.shiftl x2 6) x3)) in
            if (c <? 0x10000) || (0x110000 <=? c) then None
            else tl <-? utf8_decode rest3 ;; Some (c :: tl)
        | _ => None
        end
      else None
  end.

Definition is_ascii (s : str) : bool := forallb (fun c => c <? 0x80) s.

(** [base64.b64decode] and [bytes(s, 'ascii')] take text made of ASCII
    characters only. *)
Fixpoint ascii_bytes (s : str) : option bytes :=
  match s with
  | [] => Some []
  | c :: s' =>
      if c <? 0x80 then tl <-? ascii_bytes s' ;; Some (ascii_of_N c :: tl)
      else None
  end.

(** ** JSON, as [json.dumps] and [json.loads] with their default options *)

(** A dict keeps its keys in insertion order; assigning to a key that is
    present replaces the value in place. *)
Fixpoint dict_set {V} (d : list (str * V)) (k : str) (v : V) : list (str * V) :=
  match d with
  | [] => [(k, v)]
  | (k', v') :: d' =>
      if str_eqb k' k then (k', v) :: d' else (k', v') :: dict_set d' k v
  end.

Fixpoint dict_get {V} (d : list (str * V)) (k : str) : option V :=
  match d with
  | [] => None
  | (k', v') :: d' => if str_eqb k' k then Some v' else dict_get d' k
  end.

#[local] Set Warnings "-register-all".

(** JSON documents.  A number with a fraction or an exponent (and the
    constants NaN, Infinity, -Infinity that Python accepts) is kept as its
    lexeme: no field of this module holds a float. *)
Inductive json :=
| JNull
| JBool (b : bool)
| JInt (z : Z)
| JFloat (lexeme : str)
| JStr (s : str)
| JArr (items : list json)
| JObj (members : list (str * json)).

(** *** Serialization *)

(** A hexadecimal digit of ['{0:04x}'.format(n)]. *)
Definition hexchr (d : N) : N := if d <? 10 then 48 + d else 87 + d.

Definition hex4 (n : N) : str :=
  [hexchr (n / 4096 mod 16); hexchr (n / 256 mod 16);
   hexchr (n / 16 mod 16); hexchr (n mod 16)].

(** The replacement of one character in [encode_basestring_ascii]: the short
    escapes of ESCAPE_DCT, the printable ASCII characters unchanged, and
    [\uXXXX] for the rest, as a surrogate pair above the basic plane. *)
Definition escape_char (c : N) : str :=
  if c =? 34 then [92; 34]
  else if c =? 92 then [92; 92]
  else if c =? 8 then [92; 98]
  else if c =? 12 then [92; 102]
  else if c =? 10 then [92; 110]
  else if c =? 13 then [92; 114]
  else if c =? 9 then [92; 116]
  else if (32 <=? c) && (c <=? 126) then [c]
  else if c <? 0x10000 then 92 :: 117 :: hex4 c
  else
    let n := c - 0x10000 in
    let s1 := N.lor 0xd800 (N.land (N.shiftr n 10) 0x3ff) in
    let s2 := N.lor 0xdc00 (N.land n 0x3ff) in
    92 :: 117 :: hex4 s1 ++ 92 :: 117 :: hex4 s2.

Definition escape (s : str) : str := flat_map escape_char s.

Definition encode_basestring_ascii (s : str) : str :=
  34 :: escape s ++ [34].

(** The items of a list and the members of a dict, joined by [', ']; a key
    and its value are joined by [': ']. *)
Definition dump_items (dump : json -> str) : list json -> str :=
  fix go (l : list json) : str :=
    match l with
    | [] => []
    | x :: l' =>
        match l' with
        | [] => dump x
        | _ :: _ => dump x ++ u ", " ++ go l'
        end
    end.

Definition dump_members (dump : json -> str) : list (str * json) -> str :=
  fix go (l : list (str * json)) : str :=
    match l with
    | [] => []
    | (k, v) :: l' =>
        match l' with
        | [] => encode_basestring_ascii k ++ u ": " ++ dump v
        | _ :: _ => encode_basestring_ascii k ++ u ": " ++ dump v ++ u ", " ++ go l'
        end
    end.

(** [json.dumps(obj)] with the default separators. *)
Fixpoint json_dumps (j : json) : str :=
  match j with
  | JNull => u "null"
  | JBool true => u "true"
  | JBool false => u "false"
  | JInt z => u (NilZero.string_of_int (Z.to_int z))
  | JFloat lexeme => lexeme
  | JStr s => encode_basestring_ascii s
  | JArr items => 91 :: dump_items json_dumps items ++ [93]
  | JObj members => 123 :: dump_members json_dumps members ++ [125]
  end.

(** *** Parsing *)

Definition is_ws (c : N) : bool :=
  (c =? 32) || (c =? 9) || (c =? 10) || (c =? 13).

Fixpoint skip_ws (s : str) : str :=
  match s with
  | c :: s' => if is_ws c then skip_ws s' else s
  | [] => []
  end.

Definition hexval (c : N) : option N :=
  if (48 <=? c) && (c <=? 57) then Some (c - 48)
  else if (97 <=? c) && (c <=? 102) then Some (c - 87)
  else if (65 <=? c) && (c <=? 70) then Some (c - 55)
  else None.

(** [_decode_uXXXX]: exactly four hexadecimal digits. *)
Definition decode_uXXXX (h1 h2 h3 h4 : N) : option N :=
  d1 <-? hexval h1 ;;
  d2 <-? hexval h2 ;;
  d3 <-? hexval h3 ;;
  d4 <-? hexval h4 ;;
  Some (((d1 * 16 + d2) * 16 + d3) * 16 + d4).

(** The character of a one-letter escape (the table BACKSLASH). *)
Definition backslash_char (esc : N) : option N :=
  if esc =? 34 then Some 34
  else if esc =? 92 then Some 92
  else if esc =? 47 then Some 47
  else if esc =? 98 then Some 8
  else if esc =? 102 then Some 12
  else if esc =? 110 then Some 10
  else if esc =? 114 then Some 13
  else if esc =? 116 then Some 9
  else None.

Definition cons_fst (c : N) (r : str * str) : str * str := (c :: fst r, snd r).

(** [scanstring] in strict mode, started after the opening quote: the text of
    the string and what follows its closing quote.  A high surrogate escape
    directly followed by a low surrogate escape is one character. *)
Fixpoint scanstring (s : str) : option (str * str) :=
  match s with
  | [] => None
  | c :: rest =>
      if c =? 34 then Some ([], rest)
      else if c =? 92 then
        match rest with
        | [] => None
        | esc :: rest1 =>
            if esc =? 117 then
              match rest1 with
              | h1 :: h2 :: h3 :: h4 :: rest2 =>
                  uni <-? decode_uXXXX h1 h2 h3 h4 ;;
                  if (0xd800 <=? uni) && (uni <=? 0xdbff) then
                    match rest2 with
                    | b :: v :: rest3 =>
                        if (b =? 92) && (v =? 117) then
                          match rest3 with
                          | g1 :: g2 :: g3 :: g4 :: rest4 =>
                              uni2 <-? decode_uXXXX g1 g2 g3 g4 ;;
                              if (0xdc00 <=? uni2) && (uni2 <=? 0xdfff) then
                                option_map
                                  (cons_fst
                                     (0x10000 + N.lor (N.shiftl (uni - 0xd800) 10)
                                                      (uni2 - 0xdc00)))
                                  (scanstring rest4)
                              else option_map (cons_fst uni) (scanstring rest2)
                          | _ => None
                          end
                        else option_map (cons_fst uni) (scanstring rest2)
                    | _ => option_map (cons_fst uni) (scanstring rest2)
                    end
                  else option_map (cons_fst uni) (scanstring rest2)
              | _ => None
              end
            else
              ch <-? backslash_char esc ;;
              option_map (cons_fst ch) (scanstring rest1)
        end
      else if c <? 32 then None
      else option_map (cons_fst c) (scanstring rest)
  end.

Fixpoint strip_prefix (lit s : str) : option str :=
  match lit, s with
  | [], _ => Some s
  | x :: lit', y :: s' => if x =? y then strip_prefix lit' s' else None
  | _ :: _, [] => None
  end.

Definition is_digit (c : N) : bool := (48 <=? c) && (c <=? 57).

Fixpoint span_digits (s : str) : str * str :=
  match s with
  | c :: s' =>
      if is_digit c then let (ds, r) := span_digits s' in (c :: ds, r)
      else ([], s)
  | [] => ([], [])
  end.

Definition digits_value (ds : str) : Z :=
  fold_left (fun acc d => (acc * 10 + Z.of_N (d - 48))%Z) ds 0%Z.

(** The integer part of NUMBER_RE: an optional minus sign, then a single 0
    or a non-zero digit followed by digits. *)
Definition match_integer (s : str) : option (str * str) :=
  let '(sign, s1) :=
    match s with
    | c :: r => if c =? 45 then ([45], r) else ([], s)
    | [] => ([], s)
    end in
  match s1 with
  | d :: r =>
      if d =? 48 then Some (sign ++ [48], r)
      else if is_digit d then
        let (ds, r') := span_digits r in Some (sign ++ d :: ds, r')
      else None
  | [] => None
  end.

(** The optional fraction: a dot and at least one digit. *)
Definition match_frac (s : str) : str * str :=
  match s with
  | dot :: d :: r =>
      if (dot =? 46) && is_digit d then
        let (ds, r') := span_digits r in (dot :: d :: ds, r')
      else ([], s)
  | _ => ([], s)
  end.

(** The optional exponent: e or E, an optional sign, at least one digit. *)
Definition match_exp (s : str) : str * str :=
  match s with
  | e :: r =>
      if (e =? 101) || (e =? 69) then
        match r with
        | c :: r1 =>
            if (c =? 45) || (c =? 43) then
              match r1 with
              | d :: r2 =>
                  if is_digit d then
                    let (ds, r') := span_digits r2 in (e :: c :: d :: ds, r')
                  else ([], s)
              | [] => ([], s)
              end
            else if is_digit c then
              let (ds, r') := span_digits r1 in (e :: c :: ds, r')
            else ([], s)
        | [] => ([], s)
        end
      else ([], s)
  | [] => ([], s)
  end.

Definition match_number (s : str) : option (json * str) :=
  '(int, r) <-? match_integer s ;;
  let (frac, r1) := match_frac r in
  let (exp, r2) := match_exp r1 in
  match frac ++ exp with
  | [] =>
      Some (JInt (match int with
                  | c :: ds => if c =? 45 then (- digits_value ds)%Z
                               else digits_value int
                  | [] => 0%Z
                  end), r2)
  | _ :: _ => Some (JFloat (int ++ frac ++ exp), r2)
  end.

(** The scanner of [json.loads]: [scan_once] reads one value, [JSONObject]
    the members of an object after the opening quote of a key, [JSONArray]
    the items of an array.  [fuel] bounds the number of nested calls; every
    call consumes a character, so the length of the text is enough. *)
Fixpoint scan_once (fuel : nat) (s : str) : option (json * str) :=
  match fuel with
  | O => None
  | S fuel' =>
      match s with
      | [] => None
      | c :: rest =>
          if c =? 34 then
            '(t, r) <-? scanstring rest ;; Some (JStr t, r)
          else if c =? 123 then
            match skip_ws rest with
            | c1 :: r1 =>
                if c1 =? 125 then Some (JObj [], r1)
                else if c1 =? 34 then JSONObject fuel' r1 []
                else None
            | [] => None
            end
          else if c =? 91 then
            match skip_ws rest with
            | c1 :: r1 =>
                if c1 =? 93 then Some (JArr [], r1)
                else JSONArray fuel' (c1 :: r1) []
            | [] => None
            end
          else
            match strip_prefix (u "null") s with
            | Some r => Some (JNull, r)
            | None =>
            match strip_prefix (u "true") s with
            | Some r => Some (JBool true, r)
            | None =>
            match strip_prefix (u "false") s with
            | Some r => Some (JBool false, r)
            | None =>
            match match_number s with
            | Some res => Some res
            | None =>
            match strip_prefix (u "NaN") s with
            | Some r => Some (JFloat (u "NaN"), r)
            | None =>
            match strip_prefix (u "Infinity") s with
            | Some r => Some (JFloat (u "Infinity"), r)
            | None =>
            match strip_prefix (u "-Infinity") s with
            | Some r => Some (JFloat (u "-Infinity"), r)
            | None => None
            end end end end end end end
      end
  end

with JSONObject (fuel : nat) (s : str) (pairs : list (str * json))
  : option (json * str) :=
  match fuel with
  | O => None
  | S fuel' =>
      '(key, r) <-? scanstring s ;;
      match skip_ws r with
      | colon :: r1 =>
          if colon =? 58 then
            '(value, r2) <-? scan_once fuel' (skip_ws r1) ;;
            let pairs' := dict_set pairs key value in
            match skip_ws r2 with
            | c :: r3 =>
                if c =? 125 then Some (JObj pairs', r3)
                else if c =? 44 then
                  match skip_ws r3 with
                  | q :: r4 => if q =? 34 then JSONObject fuel' r4 pairs' else None
                  | [] => None
                  end
                else None
            | [] => None
            end
          else None
      | [] => None
      end
  end

with JSONArray (fuel : nat) (s : str) (values : list json)
  : option (json * str) :=
  match fuel with
  | O => None
  | S fuel' =>
      '(value, r) <-? scan_once fuel' s ;;
      let values' := values ++ [value] in
      match skip_ws r with
      | c :: r1 =>
          if c =? 93 then Some (JArr values', r1)
          else if c =? 44 then JSONArray fuel' (skip_ws r1) values'
          else None
      | [] => None
      end
  end.

(** [json.loads(s)]: one value between optional white space, and nothing
    after it.  A value nested in a list costs two units of fuel for each
    character in front of it, so twice the length of the text is enough
    (lemma [json_loads_fuel]). *)
Definition loads_with (fuel : nat) (s : str) : option json :=
  '(v, r) <-? scan_once fuel (skip_ws s) ;;
  match skip_ws r with
  | [] => Some v
  | _ :: _ => None
  end.

Definition json_loads (s : str) : option json :=
  loads_with (S (2 * List.length s)) s.

(** ** The realm token *)

(** Modelled from the spec: the class [RealmToken] of [ceph.rgw.types] is not
    part of the module's file.  Its six fields are those of the data model
    (section 3) and of the keyword arguments built in [list_realm_tokens]. *)
Record RealmToken := {
  realm_name : pyval;
  realm_id : pyval;
  is_primary : pyval;
  endpoint : pyval;
  access_key : pyval;
  secret : pyval
}.

Definition json_of_pyval (v : pyval) : json :=
  match v with
  | PyNone => JNull
  | PyBool b => JBool b
  | PyStr s => JStr s
  end.

(** Modelled from the spec: [RealmToken.to_json] is not part of the module's
    file; section 4.4 has it as the structured-data serialization of exactly
    the six fields. *)
Definition to_json (t : RealmToken) : str :=
  json_dumps
    (JObj [(u "realm_name", json_of_pyval (realm_name t));
           (u "realm_id", json_of_pyval (realm_id t));
           (u "is_primary", json_of_pyval (is_primary t));
           (u "endpoint", json_of_pyval (endpoint t));
           (u "access_key", json_of_pyval (access_key t));
           (u "secret", json_of_pyval (secret t))]).

(** The envelope of [list_realm_tokens]:
    [base64.b64encode(realm_token.to_json().encode('utf-8')).decode('utf-8')].
    [None] stands for the UnicodeError of one of the two conversions. *)
Definition encode (t : RealmToken) : option str :=
  realm_token_b <-? utf8_encode (to_json t) ;;
  utf8_decode (b64encode realm_token_b).

Definition token_keys : list str :=
  [u "realm_name"; u "realm_id"; u "is_primary"; u "endpoint";
   u "access_key"; u "secret"].

Definition get_str (d : list (str * json)) (k : str) : option pyval :=
  match dict_get d k with
  | Some (JStr s) => Some (PyStr s)
  | _ => None
  end.

Definition get_bool (d : list (str * json)) (k : str) : option pyval :=
  match dict_get d k with
  | Some (JBool b) => Some (PyBool b)
  | _ => None
  end.

(** The fields of a decoded document: an object with the six fields, each of
    its type, and no other field. *)
Definition token_of_json (j : json) : option RealmToken :=
  match j with
  | JObj d =>
      if forallb (fun kv => existsb (str_eqb (fst kv)) token_keys) d then
        n <-? get_str d (u "realm_name") ;;
        i <-? get_str d (u "realm_id") ;;
        p <-? get_bool d (u "is_primary") ;;
        e <-? get_str d (u "endpoint") ;;
        a <-? get_str d (u "access_key") ;;
        s <-? get_str d (u "secret") ;;
        Some {| realm_name := n; realm_id := i; is_primary := p;
                endpoint := e; access_key := a; secret := s |}
      else None
  | _ => None
  end.

(** Modelled from the spec: the decoder of the token is not part of the
    module's file.  Section 4.4: decode fails with TokenDecodeError (here
    [None]) if the envelope is not validly wrapped, if the inner structure is
    not valid structured data, or if one of the six fields is absent or of the
    wrong type; section 6: no additional field is permitted.  [unwrap] opens
    the envelope that [encode] closes. *)
Definition unwrap (s : str) : option str :=
  envelope <-? ascii_bytes s ;;
  payload <-? b64decode envelope ;;
  utf8_decode payload.

Definition decode (s : str) : option RealmToken :=
  text <-? unwrap s ;;
  j <-? json_loads text ;;
  token_of_json j.

(** What section 4.4 and section 6 ask of a decoded document, stated on the
    dict: the five text fields and the boolean field are present with their
    types, and every key is one of the six. *)
Definition text_keys : list str :=
  [u "realm_name"; u "realm_id"; u "endpoint"; u "access_key"; u "secret"].

Definition has_token_fields (j : json) : Prop :=
  exists d, j = JObj d
    /\ (forall k, In k text_keys -> exists s, dict_get d k = Some (JStr s))
    /\ (exists b, dict_get d (u "is_primary") = Some (JBool b))
    /\ (forall kv, In kv d -> In (fst kv) token_keys).

(** A well-formed token: five texts of Unicode scalar values and a boolean. *)
Definition is_scalar (c : N) : bool := (c <? 0x110000) && negb (is_surrogate c).

Definition wf_text (v : pyval) : Prop :=
  exists s, v = PyStr s /\ forallb is_scalar s = true.

Definition wf_token (t : RealmToken) : Prop :=
  wf_text (realm_name t) /\ wf_text (realm_id t) /\
  (exists b, is_primary t = PyBool b) /\
  wf_text (endpoint t) /\ wf_text (access_key t) /\ wf_text (secret t).

(** The values of a token as JSON: a text of scalar values, or a boolean. *)
Definition plain_value (v : json) : Prop :=
  (exists s, v = JStr s /\ forallb is_scalar s = true) \/ (exists b, v = JBool b).

(** The text of the members of an object after the opening quote of the
    first key, as [dump_members] writes it, followed by the closing brace and
    by [rest]. *)
Fixpoint members_text (ms : list (str * json)) (rest : str) : str :=
  match ms with
  | [] => rest
  | (k, v) :: ms' =>
      escape k ++ 34 :: 58 :: 32 :: json_dumps v
        ++ match ms' with
           | [] => 125 :: rest
           | _ :: _ => 44 :: 32 :: 34 :: members_text ms' rest
           end
  end.

(** The dict built from the members of an object, in reading order. *)
Definition dict_of (ms pairs : list (str * json)) : list (str * json) :=
  fold_left (fun d kv => dict_set d (fst kv) (snd kv)) ms pairs.

(** ** What the decoder of a token accepts

    The conditions of section 4.4 of the specification, stated on the text
    alone and without the decoder: a validly wrapped envelope and valid
    structured data (the condition on the six fields is [has_token_fields]
    above).  The theorems compare them with [decode]. *)

(** *** The envelope

    A base64 text (RFC 4648, section 4) is a sequence of groups of four
    characters.  A character of the alphabet stands for its position, a
    number below 64; a group stands for the 24-bit number written by its
    four characters in base 64, which is also the number written by three
    bytes in base 256.  Only the last group may be padded: with one [=] it
    gives two bytes and with two [=] one byte, the bits left over being
    dropped. *)
Inductive b64_text : bytes -> bytes -> Prop :=
| b64_text_nil : b64_text [] []
| b64_text_group p q r s x y z cs bs :
    p < 64 -> q < 64 -> r < 64 -> s < 64 ->
    x < 256 -> y < 256 -> z < 256 ->
    64 * (64 * (64 * p + q) + r) + s = 256 * (256 * x + y) + z ->
    b64_text cs bs ->
    b64_text (b64_chr p :: b64_chr q :: b64_chr r :: b64_chr s :: cs)
             (ascii_of_N x :: ascii_of_N y :: ascii_of_N z :: bs)
| b64_text_pad1 p q r x y :
    p < 64 -> q < 64 -> r < 64 -> x < 256 -> y < 256 ->
    (64 * (64 * p + q) + r) / 4 = 256 * x + y ->
    b64_text [b64_chr p; b64_chr q; b64_chr r; b64_pad]
             [ascii_of_N x; ascii_of_N y]
| b64_text_pad2 p q x :
    p < 64 -> q < 64 -> x < 256 ->
    (64 * p + q) / 16 = x ->
    b64_text [b64_chr p; b64_chr q; b64_pad; b64_pad] [ascii_of_N x].

(** [s] is a validly wrapped envelope around [text]: its characters are a
    base64 text of the UTF-8 bytes of [text]. *)
Definition envelope_of (s text : str) : Prop :=
  exists cs payload,
    s = map N_of_ascii cs
    /\ b64_text cs payload
    /\ utf8_encode text = Some payload.

(** *** The grammar of JSON (RFC 8259, with the constants that Python adds) *)

Definition ws_char (c : N) : Prop := c = 32 \/ c = 9 \/ c = 10 \/ c = 13.

Definition ws (w : str) : Prop := Forall ws_char w.

Definition digit (c : N) : Prop := 48 <= c <= 57.

Definition digits (ds : str) : Prop := Forall digit ds.

(** The number that decimal digits write, by the weight of each position. *)
Fixpoint decimal_value (ds : str) : Z :=
  match ds with
  | [] => 0%Z
  | d :: ds' =>
      (Z.of_N (d - 48) * 10 ^ Z.of_nat (List.length ds') + decimal_value ds')%Z
  end.

(** A hexadecimal digit, of either case, and its value. *)
Definition hex_digit (c d : N) : Prop :=
  (48 <= c <= 57 /\ d = c - 48)
  \/ (97 <= c <= 102 /\ d = c - 87)
  \/ (65 <= c <= 70 /\ d = c - 55).

Definition hex4_value (h1 h2 h3 h4 n : N) : Prop :=
  exists d1 d2 d3 d4,
    hex_digit h1 d1 /\ hex_digit h2 d2 /\ hex_digit h3 d3 /\ hex_digit h4 d4
    /\ n = 4096 * d1 + 256 * d2 + 16 * d3 + d4.

(** The letter of a two-character escape and the character it stands for. *)
Definition short_escape (e c : N) : Prop :=
  In (e, c) [(34, 34); (92, 92); (47, 47); (98, 8); (102, 12); (110, 10);
             (114, 13); (116, 9)].

Definition high_unit (n : N) : Prop := 0xD800 <= n <= 0xDBFF.

Definition low_unit (n : N) : Prop := 0xDC00 <= n <= 0xDFFF.

(** [l] begins with the [\u] escape of a low surrogate. *)
Definition low_escape_first (l : str) : Prop :=
  exists g1 g2 g3 g4 n l',
    l = 92 :: 117 :: g1 :: g2 :: g3 :: g4 :: l'
    /\ hex4_value g1 g2 g3 g4 n /\ low_unit n.

(** [jchars l t]: the characters [l] between the quotes of a JSON string
    write the text [t].  A [\u] escape gives its code unit, except that the
    escape of a high surrogate directly followed by the escape of a low
    surrogate gives the one character of the pair. *)
Inductive jchars : str -> str -> Prop :=
| jchars_nil : jchars [] []
| jchars_plain c l t :
    32 <= c -> c <> 34 -> c <> 92 ->
    jchars l t -> jchars (c :: l) (c :: t)
| jchars_short e c l t :
    short_escape e c ->
    jchars l t -> jchars (92 :: e :: l) (c :: t)
| jchars_unit h1 h2 h3 h4 n l t :
    hex4_value h1 h2 h3 h4 n ->
    ~ (high_unit n /\ low_escape_first l) ->
    jchars l t ->
    jchars (92 :: 117 :: h1 :: h2 :: h3 :: h4 :: l) (n :: t)
| jchars_pair h1 h2 h3 h4 g1 g2 g3 g4 hi lo l t :
    hex4_value h1 h2 h3 h4 hi -> high_unit hi ->
    hex4_value g1 g2 g3 g4 lo -> low_unit lo ->
    jchars l t ->
    jchars (92 :: 117 :: h1 :: h2 :: h3 :: h4
              :: 92 :: 117 :: g1 :: g2 :: g3 :: g4 :: l)
           (0x10000 + 1024 * (hi - 0xD800) + (lo - 0xDC00) :: t).

(** The parts of a number: an integer part without leading zero, an
    optional fraction, an optional exponent. *)
Definition int_part (i : str) : Prop :=
  i = [48] \/ exists d ds, i = d :: ds /\ 49 <= d <= 57 /\ digits ds.

Definition frac_part (f : str) : Prop :=
  exists d ds, f = 46 :: d :: ds /\ digits (d :: ds).

Definition exp_part (e : str) : Prop :=
  exists c sg d ds,
    e = c :: sg ++ d :: ds
    /\ (c = 101 \/ c = 69)
    /\ (sg = [] \/ sg = [43] \/ sg = [45])
    /\ digits (d :: ds).

(** A number without fraction and exponent is an integer; any other number
    is kept as it is written. *)
Inductive jnumber : str -> json -> Prop :=
| jnumber_int i :
    int_part i -> jnumber i (JInt (decimal_value i))
| jnumber_neg i :
    int_part i -> jnumber (45 :: i) (JInt (- decimal_value i))
| jnumber_float sg i f e :
    sg = [] \/ sg = [45] ->
    int_part i ->
    f = [] \/ frac_part f ->
    e = [] \/ exp_part e ->
    f ++ e <> [] ->
    jnumber (sg ++ i ++ f ++ e) (JFloat (sg ++ i ++ f ++ e)).

(** [jvalue l j]: the text [l] is exactly one JSON value and reads as [j].
    White space is allowed around the brackets, braces, commas and colons;
    the members of an object fill a dict in their order, a repeated key
    keeping its place and taking the last value. *)
Inductive jvalue : str -> json -> Prop :=
| jvalue_null : jvalue (u "null") JNull
| jvalue_true : jvalue (u "true") (JBool true)
| jvalue_false : jvalue (u "false") (JBool false)
| jvalue_nan : jvalue (u "NaN") (JFloat (u "NaN"))
| jvalue_inf : jvalue (u "Infinity") (JFloat (u "Infinity"))
| jvalue_neg_inf : jvalue (u "-Infinity") (JFloat (u "-Infinity"))
| jvalue_number l j : jnumber l j -> jvalue l j
| jvalue_string l t : jchars l t -> jvalue (34 :: l ++ [34]) (JStr t)
| jvalue_empty_array w : ws w -> jvalue (91 :: w ++ [93]) (JArr [])
| jvalue_array w l items :
    ws w -> jitems l items -> jvalue (91 :: w ++ l ++ [93]) (JArr items)
| jvalue_empty_object w : ws w -> jvalue (123 :: w ++ [125]) (JObj [])
| jvalue_object w l ms :
    ws w -> jmembers l ms ->
    jvalue (123 :: w ++ l ++ [125]) (JObj (dict_of ms []))

with jitems : str -> list json -> Prop :=
| jitems_last l v w :
    jvalue l v -> ws w -> jitems (l ++ w) [v]
| jitems_more l v w w' l' vs :
    jvalue l v -> ws w -> ws w' -> jitems l' vs ->
    jitems (l ++ w ++ 44 :: w' ++ l') (v :: vs)

with jmembers : str -> list (str * json) -> Prop :=
| jmembers_last k key w1 w2 l v w3 :
    jchars k key -> ws w1 -> ws w2 -> jvalue l v -> ws w3 ->
    jmembers (34 :: k ++ 34 :: w1 ++ 58 :: w2 ++ l ++ w3) [(key, v)]
| jmembers_more k key w1 w2 l v w3 w4 l' ms :
    jchars k key -> ws w1 -> ws w2 -> jvalue l v -> ws w3 -> ws w4 ->
    jmembers l' ms ->
    jmembers (34 :: k ++ 34 :: w1 ++ 58 :: w2 ++ l ++ w3 ++ 44 :: w4 ++ l')
             ((key, v) :: ms).

Scheme jvalue_mind := Minimality for jvalue Sort Prop
  with jitems_mind := Minimality for jitems Sort Prop
  with jmembers_mind := Minimality for jmembers Sort Prop.

Combined Scheme json_grammar_ind from jvalue_mind, jitems_mind, jmembers_mind.

(** A JSON document: one value, with white space allowed around it. *)
Definition json_document (text : str) (j : json) : Prop :=
  exists w l w', text = w ++ l ++ w' /\ ws w /\ jvalue l j /\ ws w'.

(** *** Notions used to compare the scanner with the grammar *)

(** A text at which [skip_ws] stops. *)
Definition ws_stop (r : str) : Prop :=
  match r with
  | [] => True
  | c :: _ => ~ ws_char c
  end.

(** A text at which a value ends: the end of the document, white space, a
    comma, or a closing bracket or brace. *)
Definition value_stop (r : str) : Prop :=
  match r with
  | [] => True
  | c :: _ => ws_char c \/ c = 44 \/ c = 93 \/ c = 125
  end.

(** A text that does not go on with a digit. *)
Definition digits_stop (r : str) : Prop :=
  match r with
  | [] => True
  | c :: _ => ~ digit c
  end.

(** The integer part after the sign, as [match_integer] reads it. *)
Definition unsigned_integer (sign s1 : str) : option (str * str) :=
  match s1 with
  | d :: r =>
      if d =? 48 then Some (sign ++ [48], r)
      else if is_digit d then
        let (ds, r') := span_digits r in Some (sign ++ d :: ds, r')
      else None
  | [] => None
  end.

(** The first character of a value. *)
Definition value_start (c : N) : Prop :=
  c = 34 \/ c = 123 \/ c = 91 \/ c = 110 \/ c = 116 \/ c = 102 \/ c = 78
  \/ c = 73 \/ c = 45 \/ digit c.

(** ** Exceptions, results and the command monad *)

Local Open Scope Z_scope.

Definition EINVAL : Z := 22.

(** The exceptions the module meets.  [RGWAMException] carries [retcode],
    [message] and [stderr]; the others carry the text of [str(e)].  An
    [except] clause is modelled as a match on the constructor: the subclass
    relation of Python is not part of the model, so an instance of a subclass
    of a named class is to be given by the constructor of that class, and
    [OtherError cls msg] stands for an instance of none of the named
    classes. *)
Inductive exn :=
| RGWAMException (retcode : Z) (message stderr : str)
| RuntimeError (msg : str)
| OrchestratorError (msg : str)
| ImportError (msg : str)
| UnboundLocalError (name : str)
| UnicodeError (msg : str)
| OtherError (cls msg : str).

Inductive res (A : Type) :=
| Ret (a : A)
| Raise (e : exn).

Arguments Ret {A} a.
Arguments Raise {A} e.

(** [HandleCommandResult] is a named triple; the handlers also return plain
    triples [(retcode, message, stderr)], which are the same value. *)
Record HandleCommandResult := {
  retval : Z;
  stdout : str;
  stderr : str
}.

(** What [get_realms_info] reports about one realm. *)
Module RealmInfo.
Record t := {
  realm_name : pyval;
  realm_id : pyval;
  is_primary : pyval;
  master_zone_id : pyval;
  endpoint : pyval;
  access_key : pyval;
  secret : pyval
}.
End RealmInfo.

Section Commands.

(** The state of the cluster and of its services, which only the
    collaborators of the module read and change. *)
Variable World : Type.
(** A document loaded by [yaml.safe_load_all]. *)
Variable YamlObj : Type.
Variable PlacementSpec : Type.

(** A computation of a handler: it may change the world, and returns a value
    or raises. *)
Definition M (A : Type) : Type := World -> World * res A.

Definition ret {A} (a : A) : M A := fun w => (w, Ret a).
Definition raise {A} (e : exn) : M A := fun w => (w, Raise e).

Definition bind {A B} (m : M A) (k : A -> M B) : M B :=
  fun w =>
    match m w with
    | (w', Ret a) => k a w'
    | (w', Raise e) => (w', Raise e)
    end.

(** A call that does not change the world. *)
Definition pure_call {A} (r : res A) : M A := fun w => (w, r).

(** [try: body except RGWAMException as e: handler]. *)
Definition try_RGWAM {A} (body : M A) (handler : Z -> str -> str -> M A) : M A :=
  fun w =>
    match body w with
    | (w', Raise (RGWAMException retcode message err)) =>
        handler retcode message err w'
    | r => r
    end.

Notation "x <- c ;; k" := (bind c (fun x => k))
  (at level 61, c at next level, right associativity).
Notation "c ;;; k" := (bind c (fun _ => k))
  (at level 61, right associativity).

(** [for x in xs: body(x)]. *)
Fixpoint for_each {A} (xs : list A) (body : A -> M unit) : M unit :=
  match xs with
  | [] => ret tt
  | x :: xs' => body x ;;; for_each xs' body
  end.

(** The fields of [RGWSpec] that the module sets. *)
Record RGWSpec := {
  rgw_realm : option str;
  rgw_zonegroup : option str;
  rgw_zone : option str;
  rgw_realm_token : option str;
  rgw_frontend_port : option Z;
  placement : option PlacementSpec
}.

Definition triple : Type := Z * str * str.

(** The collaborators of the module, none of which is part of its file: the
    orchestrator's availability query, the YAML loader, the constructors of
    the service specs, the admin tool, and the operations of the engine
    [RGWAM(self.env)].  The lines that the handlers write to the log are left
    out. *)
Record Env := {
  (* OrchestratorClientMixin.available(): (status, message), a query *)
  available : World -> res (bool * str);
  (* yaml.safe_load_all(inbuf), a null document being None *)
  yaml_safe_load_all : str -> res (list (option YamlObj));
  RGWSpec_from_json : YamlObj -> res RGWSpec;
  RGWSpec_validate : RGWSpec -> res unit;
  PlacementSpec_from_string : str -> res PlacementSpec;
  (* self.env.mgr.tool_exec(prog, args): (cmd, rc, stdout, stderr) *)
  tool_exec : str -> list str -> M (list str * Z * str * str);
  realm_bootstrap : RGWSpec -> option bool -> M triple;
  realm_new_zone_creds : option str -> option str -> option str -> M triple;
  realm_rm_zone_creds : option str -> M triple;
  get_realms_info : M (list RealmInfo.t);
  zone_modify : str -> str -> str -> list str -> str -> M triple;
  zone_create : RGWSpec -> option bool -> M triple;
  zonegroup_create : option str -> option str -> option str -> option bool -> M triple;
  realm_reconcile : option str -> option str -> option str -> option bool -> M triple
}.

Variable env : Env.

(** ** OrchestratorAPI *)

(** [OrchestratorAPI.status]: the dict [(available, message)]. *)
Definition status : M (bool * str) :=
  fun w =>
    match available env w with
    | Ret (st, message) => (w, Ret (st, message))
    | Raise (RuntimeError e) | Raise (OrchestratorError e) | Raise (ImportError e) =>
        (w, Ret (false, u "Orchestrator is unavailable: " ++ e))
    | Raise e => (w, Raise e)
    end.

(** ** Module *)

Definition mkresult (rv : Z) (out err : str) : HandleCommandResult :=
  {| retval := rv; stdout := out; stderr := err |}.

Definition of_triple (r : triple) : HandleCommandResult :=
  let '(rv, out, err) := r in mkresult rv out err.

(** The decorator [check_orchestrator]. *)
Definition check_orchestrator (func : M HandleCommandResult) : M HandleCommandResult :=
  st <- status ;;
  if fst st then func
  else
    let err_msg :=
      u "Cephadm is not available. Please enable cephadm by 'ceph mgr module enable cephadm'." in
    ret (mkresult (- EINVAL) (u "") err_msg).

Definition _cmd_rgw_admin (params : list str) : M HandleCommandResult :=
  r <- tool_exec env (u "radosgw-admin") params ;;
  let '(cmd, returncode, out, err) := r in
  ret (mkresult returncode out err).

(** The loop of [_parse_rgw_specs] over the non-null documents. *)
Fixpoint parse_loop (specs : list YamlObj) (rgw_specs : list RGWSpec)
  : res (list RGWSpec) :=
  match specs with
  | [] => Ret rgw_specs
  | spec :: specs' =>
      match RGWSpec_from_json env spec with
      | Raise e => Raise e
      | Ret rgw_spec =>
          match RGWSpec_validate env rgw_spec with
          | Raise e => Raise e
          | Ret _ => parse_loop specs' (rgw_specs ++ [rgw_spec])
          end
      end
  end.

(** [o for o in yaml_objs if o is not None]. *)
Fixpoint not_none {A} (l : list (option A)) : list A :=
  match l with
  | [] => []
  | Some o :: l' => o :: not_none l'
  | None :: l' => not_none l'
  end.

Definition _parse_rgw_specs (inbuf : str) : M (list RGWSpec) :=
  yaml_objs <- pure_call (yaml_safe_load_all env inbuf) ;;
  let specs := not_none yaml_objs in
  pure_call (parse_loop specs []).

Definition placement_of (pl : option str) : M (option PlacementSpec) :=
  match pl with
  | Some ((_ :: _) as p) =>
      ps <- pure_call (PlacementSpec_from_string env p) ;; ret (Some ps)
  | _ => ret None
  end.

Definition invalid_arguments : HandleCommandResult :=
  mkresult (- EINVAL) (u "") (u "Invalid arguments: -h or --help for usage").

Definition realm_created : HandleCommandResult :=
  mkresult 0
    (u "Realm(s) created correctly. Please, use 'ceph rgw realm tokens' to get the token.")
    (u "").

(** The body of [_cmd_rgw_realm_bootstrap]; the [try] block gives [Some r]
    when it returns [r] itself and [None] when control reaches its end. *)
Definition realm_bootstrap_func
    (realm_name zonegroup_name zone_name : option str) (port : option Z)
    (placement : option str) (start_radosgw : option bool) (inbuf : option str)
  : M HandleCommandResult :=
  returned <-
    try_RGWAM
      (sel <-
         match inbuf with
         | Some ((_ :: _) as buf) =>
             rgw_specs <- _parse_rgw_specs buf ;; ret (Some rgw_specs)
         | _ =>
             if opt_truthy realm_name && opt_truthy zonegroup_name
                && opt_truthy zone_name then
               placement_spec <- placement_of placement ;;
               ret (Some [{| rgw_realm := realm_name;
                             rgw_zonegroup := zonegroup_name;
                             rgw_zone := zone_name;
                             rgw_realm_token := None;
                             rgw_frontend_port := port;
                             placement := placement_spec |}])
             else ret None
         end ;;
       match sel with
       | None => ret (Some invalid_arguments)
       | Some rgw_specs =>
           for_each rgw_specs
             (fun spec => realm_bootstrap env spec start_radosgw ;;; ret tt) ;;;
           ret None
       end)
      (fun retcode message err => ret (Some (mkresult retcode message err))) ;;
  match returned with
  | Some r => ret r
  | None => ret realm_created
  end.

Definition _cmd_rgw_realm_bootstrap
    (realm_name zonegroup_name zone_name : option str) (port : option Z)
    (placement : option str) (start_radosgw : option bool) (inbuf : option str)
  : M HandleCommandResult :=
  check_orchestrator
    (realm_bootstrap_func realm_name zonegroup_name zone_name port placement
       start_radosgw inbuf).

(** The handlers that pass the engine's triple on. *)
Definition passthrough (op : M triple) : M HandleCommandResult :=
  returned <-
    try_RGWAM
      (r <- op ;; ret (inr r))
      (fun retcode message err => ret (inl (mkresult retcode message err))) ;;
  match returned with
  | inl r => ret r
  | inr r => ret (of_triple r)
  end.

Definition _cmd_rgw_realm_new_zone_creds (realm_name endpoints sys_uid : option str)
  : M HandleCommandResult :=
  passthrough (realm_new_zone_creds env realm_name endpoints sys_uid).

Definition _cmd_rgw_realm_rm_zone_creds (realm_token : option str)
  : M HandleCommandResult :=
  passthrough (realm_rm_zone_creds env realm_token).

Definition no_master_zone : str := u "realm has no master zone".
Definition no_endpoint : str := u "master zone has no endpoint".
Definition no_keys : str := u "master zone has no access/secret keys".

Definition realm_entry (name : pyval) (token : str) : json :=
  JObj [(u "realm", json_of_pyval name); (u "token", JStr token)].

(** The token built from the six keys of [realm_info]. *)
Definition realm_token_of (realm_info : RealmInfo.t) : RealmToken :=
  {| realm_name := RealmInfo.realm_name realm_info;
     realm_id := RealmInfo.realm_id realm_info;
     is_primary := RealmInfo.is_primary realm_info;
     endpoint := RealmInfo.endpoint realm_info;
     access_key := RealmInfo.access_key realm_info;
     secret := RealmInfo.secret realm_info |}.

(** One round of the loop of [list_realm_tokens]: the entry appended for
    [realm_info]. *)
Definition realm_token_entry (realm_info : RealmInfo.t) : res json :=
  let name := RealmInfo.realm_name realm_info in
  if negb (truthy (RealmInfo.master_zone_id realm_info)) then
    Ret (realm_entry name no_master_zone)
  else if negb (truthy (RealmInfo.endpoint realm_info)) then
    Ret (realm_entry name no_endpoint)
  else if negb (truthy (RealmInfo.access_key realm_info)
                && truthy (RealmInfo.secret realm_info)) then
    Ret (realm_entry name no_keys)
  else
    let realm_token := realm_token_of realm_info in
    match encode realm_token with
    | Some realm_token_s => Ret (realm_entry name realm_token_s)
    | None => Raise (UnicodeError (u "utf-8"))
    end.

Fixpoint realm_token_entries (infos : list RealmInfo.t) (realms_info : list json)
  : res (list json) :=
  match infos with
  | [] => Ret realms_info
  | realm_info :: infos' =>
      match realm_token_entry realm_info with
      | Ret entry => realm_token_entries infos' (realms_info ++ [entry])
      | Raise e => Raise e
      end
  end.

Definition list_realm_tokens : M HandleCommandResult :=
  infos <- get_realms_info env ;;
  realms_info <- pure_call (realm_token_entries infos []) ;;
  ret (mkresult 0 (json_dumps (JArr realms_info)) (u "")).

Definition update_zone_info
    (realm_name zonegroup_name zone_name realm_token : str) (endpoints : list str)
  : M HandleCommandResult :=
  try_RGWAM
    (r <- zone_modify env realm_name zonegroup_name zone_name endpoints realm_token ;;
     let '(rv, out, err) := r in
     ret (mkresult rv (u "Zone updated successfully") (u "")))
    (fun retcode message err => ret (mkresult retcode message err)).

(** The loop of [_cmd_rgw_zone_create].  [last] holds the local variables
    [retval, out, err], which are unbound until the first round assigns
    them; a non-zero [retval] leaves the loop. *)
Fixpoint zone_create_loop (rgw_specs : list RGWSpec) (start_radosgw : option bool)
    (last : option triple) : M (option triple) :=
  match rgw_specs with
  | [] => ret last
  | rgw_spec :: rest =>
      r <- zone_create env rgw_spec start_radosgw ;;
      if negb (fst (fst r) =? 0) then ret (Some r)
      else zone_create_loop rest start_radosgw (Some r)
  end.

(** The body of [_cmd_rgw_zone_create].  The [try] block gives [inl r] when
    it returns [r] itself, and otherwise the local variables at its end; the
    final [return] reads them, which raises UnboundLocalError when they were
    never assigned. *)
Definition zone_create_func
    (zone_name realm_token : option str) (port : option Z)
    (placement : option str) (start_radosgw : option bool) (inbuf : option str)
  : M HandleCommandResult :=
  returned <-
    try_RGWAM
      (sel <-
         match inbuf with
         | Some ((_ :: _) as buf) =>
             rgw_specs <- _parse_rgw_specs buf ;; ret (Some rgw_specs)
         | _ =>
             if opt_truthy zone_name && opt_truthy realm_token then
               placement_spec <- placement_of placement ;;
               ret (Some [{| rgw_realm := None;
                             rgw_zonegroup := None;
                             rgw_zone := zone_name;
                             rgw_realm_token := realm_token;
                             rgw_frontend_port := port;
                             placement := placement_spec |}])
             else ret None
         end ;;
       match sel with
       | None => ret (inl invalid_arguments)
       | Some rgw_specs =>
           last <- zone_create_loop rgw_specs start_radosgw None ;;
           ret (inr last)
       end)
      (fun retcode message err => ret (inl (mkresult retcode message err))) ;;
  match returned with
  | inl r => ret r
  | inr (Some r) => ret (of_triple r)
  | inr None => raise (UnboundLocalError (u "retval"))
  end.

Definition _cmd_rgw_zone_create
    (zone_name realm_token : option str) (port : option Z)
    (placement : option str) (start_radosgw : option bool) (inbuf : option str)
  : M HandleCommandResult :=
  check_orchestrator
    (zone_create_func zone_name realm_token port placement start_radosgw inbuf).

Definition _cmd_rgw_zonegroup_create
    (realm_token zonegroup_name endpoints : option str)
    (zonegroup_is_master : option bool) : M HandleCommandResult :=
  passthrough (zonegroup_create env realm_token zonegroup_name endpoints
                 zonegroup_is_master).

Definition _cmd_rgw_realm_reconcile
    (realm_name zonegroup_name zone_name : option str) (update : option bool)
  : M HandleCommandResult :=
  passthrough (realm_reconcile env realm_name zonegroup_name zone_name update).

(** ** Notions used to state the properties of the handlers *)

(** [completes op ok specs w w']: calling [op] on the specs in order, starting
    in [w], returns for each of them a result accepted by [ok] and ends in
    [w']. *)
Inductive completes (op : RGWSpec -> M triple) (ok : triple -> bool)
  : list RGWSpec -> World -> World -> Prop :=
| completes_nil w : completes op ok [] w w
| completes_cons spec specs w w1 w2 r :
    op spec w = (w1, Ret r) ->
    ok r = true ->
    completes op ok specs w1 w2 ->
    completes op ok (spec :: specs) w w2.

(** The three classes that the [except] clause of [OrchestratorAPI.status]
    names. *)
Definition caught_by_status (e : exn) : option str :=
  match e with
  | RuntimeError m | OrchestratorError m | ImportError m => Some m
  | _ => None
  end.

Definition cephadm_unavailable : HandleCommandResult :=
  mkresult (- EINVAL) (u "")
    (u "Cephadm is not available. Please enable cephadm by 'ceph mgr module enable cephadm'.").

(** The entry that the listing owes to a realm: its name, and as token the
    marker of the first missing piece, or the envelope of its token when
    nothing is missing. *)
Definition entry_spec (realm_info : RealmInfo.t) (entry : json) : Prop :=
  let master := truthy (RealmInfo.master_zone_id realm_info) in
  let ep := truthy (RealmInfo.endpoint realm_info) in
  let ak := truthy (RealmInfo.access_key realm_info) in
  let sk := truthy (RealmInfo.secret realm_info) in
  exists token,
    entry = realm_entry (RealmInfo.realm_name realm_info) token
    /\ (master = false -> token = no_master_zone)
    /\ (master = true -> ep = false -> token = no_endpoint)
    /\ (master = true -> ep = true -> ak = false \/ sk = false ->
        token = no_keys)
    /\ (master = true -> ep = true -> ak = true -> sk = true ->
        encode (realm_token_of realm_info) = Some token).

(** A realm with everything a token needs: a master zone, an endpoint, and
    both keys. *)
Definition fully_populated (realm_info : RealmInfo.t) : bool :=
  truthy (RealmInfo.master_zone_id realm_info)
  && truthy (RealmInfo.endpoint realm_info)
  && truthy (RealmInfo.access_key realm_info)
  && truthy (RealmInfo.secret realm_info).

(** The entry of a realm as the listing prints it, written out in full: a
    dict with the two keys [realm] and [token], the first holding the name of
    the realm.  The token is the text that names the first missing piece; for
    a fully populated realm it is the base64 text of the UTF-8 bytes of the
    JSON of the six fields.  A marker is no envelope: it cannot be opened. *)
Definition listed_entry (realm_info : RealmInfo.t) (entry : json) : Prop :=
  exists name token,
    entry = JObj [(u "realm", name); (u "token", JStr token)]
    /\ match RealmInfo.realm_name realm_info with
       | PyNone => name = JNull
       | PyBool b => name = JBool b
       | PyStr s => name = JStr s
       end
    /\ (truthy (RealmInfo.master_zone_id realm_info) = false ->
        token = u "realm has no master zone")
    /\ (truthy (RealmInfo.master_zone_id realm_info) = true ->
        truthy (RealmInfo.endpoint realm_info) = false ->
        token = u "master zone has no endpoint")
    /\ (truthy (RealmInfo.master_zone_id realm_info) = true ->
        truthy (RealmInfo.endpoint realm_info) = true ->
        truthy (RealmInfo.access_key realm_info) = false
        \/ truthy (RealmInfo.secret realm_info) = false ->
        token = u "master zone has no access/secret keys")
    /\ (fully_populated realm_info = true ->
        exists realm_token_b,
          utf8_encode
            (to_json {| realm_name := RealmInfo.realm_name realm_info;
                        realm_id := RealmInfo.realm_id realm_info;
                        is_primary := RealmInfo.is_primary realm_info;
                        endpoint := RealmInfo.endpoint realm_info;
                        access_key := RealmInfo.access_key realm_info;
                        secret := RealmInfo.secret realm_info |})
          = Some realm_token_b
          /\ token = map N_of_ascii (b64encode realm_token_b))
    /\ (fully_populated realm_info = false -> unwrap token = None).

End Commands.

Arguments ret {World A} a w.
Arguments raise {World A} e w.
Arguments bind {World A B} m k w.
Arguments pure_call {World A} r w.
Arguments try_RGWAM {World A} body handler w.
Arguments for_each {World A} xs body.
Arguments Build_RGWSpec {PlacementSpec}.
Arguments rgw_realm {PlacementSpec}.
Arguments rgw_zonegroup {PlacementSpec}.
Arguments rgw_zone {PlacementSpec}.
Arguments rgw_realm_token {PlacementSpec}.
Arguments rgw_frontend_port {PlacementSpec}.
Arguments placement {PlacementSpec}.
Arguments available {World YamlObj PlacementSpec}.
Arguments yaml_safe_load_all {World YamlObj PlacementSpec}.
Arguments RGWSpec_from_json {World YamlObj PlacementSpec}.
Arguments RGWSpec_validate {World YamlObj PlacementSpec}.
Arguments PlacementSpec_from_string {World YamlObj PlacementSpec}.
Arguments tool_exec {World YamlObj PlacementSpec}.
Arguments realm_bootstrap {World YamlObj PlacementSpec}.
Arguments realm_new_zone_creds {World YamlObj PlacementSpec}.
Arguments realm_rm_zone_creds {World YamlObj PlacementSpec}.
Arguments get_realms_info {World YamlObj PlacementSpec}.
Arguments zone_modify {World YamlObj PlacementSpec}.
Arguments zone_create {World YamlObj PlacementSpec}.
Arguments zonegroup_create {World YamlObj PlacementSpec}.
Arguments realm_reconcile {World YamlObj PlacementSpec}.
Arguments status {World YamlObj PlacementSpec} env w.
Arguments check_orchestrator {World YamlObj PlacementSpec} env func w.
Arguments _cmd_rgw_admin {World YamlObj PlacementSpec} env params w.
Arguments parse_loop {World YamlObj PlacementSpec} env specs rgw_specs.
Arguments not_none {A} l.
Arguments _parse_rgw_specs {World YamlObj PlacementSpec} env inbuf w.
Arguments placement_of {World YamlObj PlacementSpec} env pl w.
Arguments realm_bootstrap_func {World YamlObj PlacementSpec} env.
Arguments _cmd_rgw_realm_bootstrap {World YamlObj PlacementSpec} env.
Arguments passthrough {World} op w.
Arguments _cmd_rgw_realm_new_zone_creds {World YamlObj PlacementSpec} env.
Arguments _cmd_rgw_realm_rm_zone_creds {World YamlObj PlacementSpec} env.
Arguments list_realm_tokens {World YamlObj PlacementSpec} env w.
Arguments update_zone_info {World YamlObj PlacementSpec} env.
Arguments zone_create_loop {World YamlObj PlacementSpec} env.
Arguments zone_create_func {World YamlObj PlacementSpec} env.
Arguments _cmd_rgw_zone_create {World YamlObj PlacementSpec} env.
Arguments _cmd_rgw_zonegroup_create {World YamlObj PlacementSpec} env.
Arguments _cmd_rgw_realm_reconcile {World YamlObj PlacementSpec} env.
Arguments completes {World PlacementSpec} op ok _ _ _.
Arguments completes_nil {World PlacementSpec} op ok w.
Arguments completes_cons {World PlacementSpec} op ok spec specs w w1 w2 r _ _ _.

(** ** A small cluster to run the handlers on

    The world is the list of the engine and tool calls made so far, each
    recorded by the zone (or program) it was made for.  The engine raises
    for the zone [bad], returns a non-zero code for the zone [nz], and
    succeeds otherwise. *)
Module Cluster.

Definition zone_of (spec : RGWSpec str) : str :=
  match rgw_zone spec with
  | Some z => z
  | None => u ""
  end.

Definition engine_call (z : str) : M (list str) triple :=
  fun w =>
    let w' := w ++ [z] in
    if str_eqb z (u "bad") then
      (w', Raise (RGWAMException 5 (u "zone failed") (u "tool stderr")))
    else if str_eqb z (u "nz") then
      (w', Ret (1, u "", u "non-zero exit"))
    else (w', Ret (0, u "done", u "")).

Definition spec_of_doc (z : str) : RGWSpec str :=
  {| rgw_realm := None; rgw_zonegroup := None; rgw_zone := Some z;
     rgw_realm_token := None; rgw_frontend_port := None; placement := None |}.

Definition env (avail : res (bool * str)) (docs : list (option str))
    (infos : list RealmInfo.t) : Env (list str) str str :=
  {| available := fun _ => avail;
     yaml_safe_load_all := fun _ => Ret docs;
     RGWSpec_from_json := fun z => Ret (spec_of_doc z);
     RGWSpec_validate := fun _ => Ret tt;
     PlacementSpec_from_string := fun p => Ret p;
     tool_exec := fun prog args w =>
                    (w ++ [prog], Ret (prog :: args, 0, u "", u ""));
     realm_bootstrap := fun spec _ => engine_call (zone_of spec);
     realm_new_zone_creds := fun _ _ _ => engine_call (u "creds");
     realm_rm_zone_creds := fun _ => engine_call (u "creds");
     get_realms_info := fun w => (w, Ret infos);
     zone_modify := fun _ _ z _ _ => engine_call z;
     zone_create := fun spec _ => engine_call (zone_of spec);
     zonegroup_create := fun _ _ _ _ => engine_call (u "zonegroup");
     realm_reconcile := fun _ _ _ _ => engine_call (u "reconcile") |}.

Definition up : res (bool * str) := Ret (true, u "").
Definition down : res (bool * str) := Ret (false, u "no orchestrator configured").

(** A realm with all its pieces, and the same realm without an endpoint. *)
Definition realm_r1 : RealmInfo.t :=
  {| RealmInfo.realm_name := PyStr (u "r1");
     RealmInfo.realm_id := PyStr (u "0a1b");
     RealmInfo.is_primary := PyBool true;
     RealmInfo.master_zone_id := PyStr (u "z1");
     RealmInfo.endpoint := PyStr (u "http://host1:80");
     RealmInfo.access_key := PyStr (u "AK");
     RealmInfo.secret := PyStr (u "SK") |}.

Definition realm_r2 : RealmInfo.t :=
  {| RealmInfo.realm_name := PyStr (u "r2");
     RealmInfo.realm_id := PyStr (u "2c3d");
     RealmInfo.is_primary := PyBool true;
     RealmInfo.master_zone_id := PyStr (u "z2");
     RealmInfo.endpoint := PyNone;
     RealmInfo.access_key := PyStr (u "AK");
     RealmInfo.secret := PyStr (u "SK") |}.

End Cluster.

(** ** The admin tool of the engine environment *)

(** [RGWAMOrchMgr.tool_exec]: the program is put in front of its arguments,
    the manager runs the command line, and the command line is returned with
    what the tool gave back. *)
Definition RGWAMOrchMgr_tool_exec {World : Type}
    (mgr_tool_exec : list str -> M World triple) (prog : str) (args : list str)
  : M World (list str * Z * str * str) :=
  let cmd := prog :: args in
  bind (mgr_tool_exec cmd)
       (fun r => let '(rc, out, err) := r in ret (cmd, rc, out, err)).

(** What a handler with [except RGWAMException] makes of an exception raised
    inside its [try] block. *)
Definition handled (e : exn) : res HandleCommandResult :=
  match e with
  | RGWAMException retcode message err => Ret (mkresult retcode message err)
  | _ => Raise e
  end.

(** A manager whose tool records the program it ran and exits with 0. *)
Definition recording_tool (cmd : list str) : M (list str) triple :=
  fun w => (w ++ [match cmd with prog :: _ => prog | [] => u "" end],
            Ret (0, u "", u "")).

(** ** A cluster whose collaborators fail

    The loader gives four documents, one of them null; the document [bad]
    cannot be converted, no placement can be parsed, the realms cannot be
    listed, and the admin tool is the manager's recording tool behind
    [RGWAMOrchMgr.tool_exec]. *)
Module Faulty.

Definition base : Env (list str) str str :=
  Cluster.env Cluster.up [Some (u "z1"); None; Some (u "bad"); Some (u "z3")] [].

Definition env : Env (list str) str str :=
  {| available := available base;
     yaml_safe_load_all := yaml_safe_load_all base;
     RGWSpec_from_json :=
       fun z => if str_eqb z (u "bad")
                then Raise (OtherError (u "SpecValidationError") z)
                else RGWSpec_from_json base z;
     RGWSpec_validate := RGWSpec_validate base;
     PlacementSpec_from_string :=
       fun p => Raise (OtherError (u "SpecValidationError") p);
     tool_exec := RGWAMOrchMgr_tool_exec recording_tool;
     realm_bootstrap := realm_bootstrap base;
     realm_new_zone_creds := realm_new_zone_creds base;
     realm_rm_zone_creds := realm_rm_zone_creds base;
     get_realms_info :=
       fun w => (w ++ [u "realms"],
                 Raise (RGWAMException 2 (u "no realm") (u "ENOENT")));
     zone_modify := zone_modify base;
     zone_create := zone_create base;
     zonegroup_create := zonegroup_create base;
     realm_reconcile := realm_reconcile base |}.

End Faulty.

(** ** The text of a JSON list *)

(** The text of the items of a list as [dump_items] writes it, followed by
    the closing bracket and by [rest]. *)
Fixpoint items_text (items : list json) (rest : str) : str :=
  match items with
  | [] => rest
  | x :: l =>
      json_dumps x
        ++ match l with
           | [] => 93%N :: rest
           | _ :: _ => 44%N :: 32%N :: items_text l rest
           end
  end.

(** An object without nesting: at least one member and at most [S bound],
    the keys texts of scalar values, the values texts or booleans. *)
Definition flat_object (bound : nat) (j : json) : Prop :=
  exists k v ms,
    j = JObj ((k, v) :: ms)
    /\ (List.length ms <= bound)%nat
    /\ Forall (fun kv => forallb is_scalar (fst kv) = true /\ plain_value (snd kv))
              ((k, v) :: ms).

(** What [json.loads] makes of a document: the members of an object become a
    dict. *)
Definition as_loaded (j : json) : json :=
  match j with
  | JObj ms => JObj (dict_of ms [])
  | _ => j
  end.

(** The characters of a base64 text. *)
Definition b64_chars : list N := map N_of_ascii (b64_alphabet ++ [b64_pad]).

(** ** Module options *)

(** [Module.config_notify]: every module option and then every native option
    is copied onto the instance, whose attributes are a dict.  A module
    option is itself a dict, read at its key [name]: a dict without that key
    raises KeyError, whose text is the key between quotes, and [setattr]
    refuses a name that is not a text with TypeError. *)
Section Config.

Variable get_module_option : str -> pyval.
Variable get_ceph_option : str -> pyval.

Definition setattr (self : list (str * pyval)) (name : str) (value : pyval)
  : list (str * pyval) :=
  dict_set self name value.

Fixpoint mirror_module_options (opts : list (list (str * pyval)))
    (self : list (str * pyval)) : list (str * pyval) * res unit :=
  match opts with
  | [] => (self, Ret tt)
  | opt :: opts' =>
      match dict_get opt (u "name") with
      | None => (self, Raise (OtherError (u "KeyError") (u "'name'")))
      | Some (PyStr name) =>
          mirror_module_options opts' (setattr self name (get_module_option name))
      | Some PyNone =>
          (self, Raise (OtherError (u "TypeError")
                          (u "attribute name must be string, not 'NoneType'")))
      | Some (PyBool _) =>
          (self, Raise (OtherError (u "TypeError")
                          (u "attribute name must be string, not 'bool'")))
      end
  end.

Fixpoint mirror_native_options (opts : list str) (self : list (str * pyval))
  : list (str * pyval) :=
  match opts with
  | [] => self
  | opt :: opts' => mirror_native_options opts' (setattr self opt (get_ceph_option opt))
  end.

Definition config_notify (MODULE_OPTIONS : list (list (str * pyval)))
    (NATIVE_OPTIONS : list str) (self : list (str * pyval))
  : list (str * pyval) * res unit :=
  match mirror_module_options MODULE_OPTIONS self with
  | (self', Ret _) => (mirror_native_options NATIVE_OPTIONS self', Ret tt)
  | (self', Raise e) => (self', Raise e)
  end.

End Config.

(** The options that this module declares. *)
Definition MODULE_OPTIONS : list (list (str * pyval)) := [].
Definition NATIVE_OPTIONS : list str := [].


(** ** Sample tokens and options *)

Definition token_r1 : RealmToken := realm_token_of Cluster.realm_r1.

(** The same token after its secret was changed. *)
Definition token_r1_rotated : RealmToken :=
  {| realm_name := realm_name token_r1; realm_id := realm_id token_r1;
     is_primary := is_primary token_r1; endpoint := endpoint token_r1;
     access_key := access_key token_r1; secret := PyStr (u "SK2") |}.

(** The text that [rgw realm tokens] prints for the realms [r1] and [r2] of
    the small cluster, character by character; [dq] is the double quote. *)
Definition dq : str := [34%N].

Definition listing_r1_r2 : str :=
  u "[{" ++ dq ++ u "realm" ++ dq ++ u ": " ++ dq ++ u "r1" ++ dq ++ u ", "
    ++ dq ++ u "token" ++ dq ++ u ": " ++ dq
    ++ u "eyJyZWFsbV9uYW1lIjogInIxIiwgInJlYWxtX2lkIjogIjBhMWIiLCAiaXNfcHJpbWFyeSI6IHRydWUsICJlbmRwb2ludCI6ICJodHRwOi8vaG9zdDE6ODAiLCAiYWNjZXNzX2tleSI6ICJBSyIsICJzZWNyZXQiOiAiU0sifQ=="
    ++ dq ++ u "}, {" ++ dq ++ u "realm" ++ dq ++ u ": " ++ dq ++ u "r2" ++ dq
    ++ u ", " ++ dq ++ u "token" ++ dq ++ u ": " ++ dq
    ++ u "master zone has no endpoint" ++ dq ++ u "}]".



Definition sample_module_option (name : str) : pyval :=
  if str_eqb name (u "emphatic") then PyBool true else PyNone.

Definition sample_ceph_option (name : str) : pyval := PyStr (u "default").

(** * Properties of the encodings *)

Arguments u : simpl never.

Ltac below64 n H :=
  destruct n as [|p]; [vm_compute; reflexivity|];
  repeat (destruct p as [p|p|]; try (vm_compute; reflexivity);
          try (exfalso; lia)).

Lemma b64_val_chr (n : N) : (n < 64)%N -> b64_val (b64_chr n) = Some n.
Proof. intros H. below64 n H. Qed.

Lemma b64_chr_not_pad (n : N) :
  (n < 64)%N -> Ascii.eqb (b64_chr n) b64_pad = false.
Proof. intros H. below64 n H. Qed.

Lemma b64_chr_ascii (n : N) : (N_of_ascii (b64_chr n) < 128)%N.
Proof.
  destruct (N.ltb_spec n 64) as [H|H].
  - below64 n H.
  - unfold b64_chr. rewrite nth_overflow; [vm_compute; reflexivity|].
    change (List.length b64_alphabet) with 64%nat. lia.
Qed.

Lemma sextet_lt (b5 b4 b3 b2 b1 b0 : bool) : (sextet b5 b4 b3 b2 b1 b0 < 64)%N.
Proof. destruct b5, b4, b3, b2, b1, b0; reflexivity. Qed.

Lemma sextet_bits_sextet (b5 b4 b3 b2 b1 b0 : bool) :
  sextet_bits (sextet b5 b4 b3 b2 b1 b0) = (b5, b4, b3, b2, b1, b0).
Proof. destruct b5, b4, b3, b2, b1, b0; reflexivity. Qed.


Lemma list_ind3 {A} (P : list A -> Prop) :
  P [] -> (forall a, P [a]) -> (forall a b, P [a; b]) ->
  (forall a b c l, P l -> P (a :: b :: c :: l)) ->
  forall l, P l.
Proof.
  intros H0 H1 H2 H3. fix IH 1.
  intros [|a [|b [|c l]]]; [exact H0|apply H1|apply H2|apply H3, IH].
Qed.

Lemma b64encode_nil (bs : bytes) : b64encode bs = [] -> bs = [].
Proof.
  destruct bs as [|[] [|[] [|[] l]]]; simpl; intros H;
    [reflexivity|discriminate..].
Qed.

Lemma b64encode_shape (bs : bytes) :
  b64encode bs = []
  \/ exists c1 c2 c3 c4 tl, b64encode bs = c1 :: c2 :: c3 :: c4 :: tl.
Proof.
  destruct bs as [|[] [|[] [|[] l]]]; simpl; [now left|right..];
    do 5 eexists; reflexivity.
Qed.

Arguments b64_chr : simpl never.
Arguments b64_val : simpl never.
Arguments sextet : simpl never.
Arguments sextet_bits : simpl never.

Lemma b64decode_cons (c1 c2 c3 c4 x : ascii) (tl : bytes) :
  b64decode (c1 :: c2 :: c3 :: c4 :: x :: tl)
  = (p <-? b64_val c1 ;; q <-? b64_val c2 ;; r <-? b64_val c3 ;;
     s <-? b64_val c4 ;; t <-? b64decode (x :: tl) ;;
     Some (b64_group3 p q r s ++ t)).
Proof. reflexivity. Qed.

Ltac b64_simpl :=
  repeat first
    [ rewrite b64_val_chr by apply sextet_lt
    | rewrite b64_chr_not_pad by apply sextet_lt
    | rewrite Ascii.eqb_refl
    | progress cbv beta iota delta [obind] ].

(** base64 decoding undoes base64 encoding. *)
Lemma b64decode_b64encode (bs : bytes) : b64decode (b64encode bs) = Some bs.
Proof.
  induction bs as [|a|a b|a b c l IH] using list_ind3.
  - reflexivity.
  - destruct a. simpl. b64_simpl.
    unfold b64_group1. now rewrite !sextet_bits_sextet.
  - destruct a, b. simpl. b64_simpl.
    unfold b64_group2. now rewrite !sextet_bits_sextet.
  - destruct a, b, c. simpl b64encode.
    destruct (b64encode_shape l) as [E|(c1 & c2 & c3 & c4 & tl & E)].
    + rewrite E. apply b64encode_nil in E. subst l.
      simpl. b64_simpl. unfold b64_group3. now rewrite !sextet_bits_sextet.
    + rewrite E, b64decode_cons, <- E, IH. b64_simpl.
      unfold b64_group3. now rewrite !sextet_bits_sextet.
Qed.

Lemma b64encode_ascii (bs : bytes) :
  Forall (fun c => (N_of_ascii c < 128)%N) (b64encode bs).
Proof.
  induction bs as [|a|a b|a b c l IH] using list_ind3.
  - constructor.
  - destruct a. simpl. repeat constructor; try apply b64_chr_ascii.
  - destruct a, b. simpl. repeat constructor; try apply b64_chr_ascii.
  - destruct a, b, c. simpl. repeat (constructor; [apply b64_chr_ascii|]).
    exact IH.
Qed.

(** ** ASCII text through UTF-8 *)

Local Open Scope N_scope.

Lemma is_ascii_app (a b : str) :
  is_ascii (a ++ b) = is_ascii a && is_ascii b.
Proof. apply forallb_app. Qed.

Lemma utf8_encode_ascii (s : str) :
  is_ascii s = true -> utf8_encode s = Some (map ascii_of_N s).
Proof.
  induction s as [|c s IH]; simpl; [reflexivity|].
  intros [Hc Hs]%andb_prop. rewrite (IH Hs).
  unfold utf8_encode_char. rewrite Hc. reflexivity.
Qed.

Lemma utf8_decode_ascii (bs : bytes) :
  Forall (fun b => N_of_ascii b < 128) bs ->
  utf8_decode bs = Some (map N_of_ascii bs).
Proof.
  induction 1 as [|b bs Hb _ IH]; [reflexivity|].
  cbn [utf8_decode map]. apply N.ltb_lt in Hb. rewrite Hb, IH. reflexivity.
Qed.

Lemma ascii_bytes_of_ascii (bs : bytes) :
  Forall (fun b => N_of_ascii b < 128) bs ->
  ascii_bytes (map N_of_ascii bs) = Some bs.
Proof.
  induction 1 as [|b bs Hb _ IH]; [reflexivity|].
  cbn [ascii_bytes map]. apply N.ltb_lt in Hb. rewrite Hb, IH.
  simpl. now rewrite ascii_N_embedding.
Qed.

Lemma map_N_of_ascii_of_N (s : str) :
  is_ascii s = true -> map N_of_ascii (map ascii_of_N s) = s.
Proof.
  induction s as [|c s IH]; simpl; [reflexivity|].
  intros [Hc Hs]%andb_prop. rewrite (IH Hs). apply N.ltb_lt in Hc.
  rewrite N_ascii_embedding by lia. reflexivity.
Qed.

Lemma map_ascii_of_N_ascii (s : str) :
  is_ascii s = true -> Forall (fun b => N_of_ascii b < 128) (map ascii_of_N s).
Proof.
  induction s as [|c s IH]; simpl; [constructor|].
  intros [Hc Hs]%andb_prop. apply N.ltb_lt in Hc. constructor; [|auto].
  rewrite N_ascii_embedding by lia. exact Hc.
Qed.

(** ** The escapes of JSON strings *)

Lemma hexchr_lt (d : N) : d < 16 -> hexchr d < 128.
Proof. unfold hexchr. destruct (d <? 10); lia. Qed.

Lemma hexval_hexchr (d : N) : d < 16 -> hexval (hexchr d) = Some d.
Proof.
  intros H. destruct d as [|p]; [reflexivity|].
  repeat (destruct p as [p|p|]; try reflexivity; try (exfalso; lia)).
Qed.

Lemma is_ascii_hex4 (n : N) : is_ascii (hex4 n) = true.
Proof.
  unfold hex4, is_ascii. simpl.
  rewrite !andb_true_iff. repeat split; try reflexivity;
    apply N.ltb_lt, hexchr_lt, N.mod_lt; discriminate.
Qed.

Lemma decode_hex4 (n : N) :
  n < 65536 ->
  decode_uXXXX (hexchr (n / 4096 mod 16)) (hexchr (n / 256 mod 16))
               (hexchr (n / 16 mod 16)) (hexchr (n mod 16)) = Some n.
Proof.
  intros H. unfold decode_uXXXX.
  rewrite !hexval_hexchr by (apply N.mod_lt; discriminate).
  cbv beta iota delta [obind]. f_equal.
  zify. Z.to_euclidean_division_equations. lia.
Qed.

Lemma is_ascii_escape_char (c : N) : is_ascii (escape_char c) = true.
Proof.
  unfold escape_char.
  destruct (c =? 34); [reflexivity|].
  destruct (c =? 92); [reflexivity|].
  destruct (c =? 8); [reflexivity|].
  destruct (c =? 12); [reflexivity|].
  destruct (c =? 10); [reflexivity|].
  destruct (c =? 13); [reflexivity|].
  destruct (c =? 9); [reflexivity|].
  destruct ((32 <=? c) && (c <=? 126)) eqn:Hp.
  - unfold is_ascii. cbn [forallb]. rewrite andb_true_r.
    apply andb_prop in Hp as [_ H]. apply N.leb_le in H. apply N.ltb_lt. lia.
  - destruct (c <? 0x10000).
    + change (is_ascii ([92; 117] ++ hex4 c) = true).
      now rewrite is_ascii_app, is_ascii_hex4.
    + cbv zeta.
      match goal with
      | |- is_ascii (92 :: 117 :: hex4 ?a ++ 92 :: 117 :: hex4 ?b) = true =>
          change (is_ascii ([92; 117] ++ hex4 a ++ [92; 117] ++ hex4 b) = true)
      end.
      now rewrite !is_ascii_app, !is_ascii_hex4.
Qed.

Lemma is_ascii_escape (s : str) : is_ascii (escape s) = true.
Proof.
  induction s as [|c s IH]; [reflexivity|].
  unfold escape in *. simpl. now rewrite is_ascii_app, is_ascii_escape_char.
Qed.

Lemma is_ascii_basestring (s : str) : is_ascii (encode_basestring_ascii s) = true.
Proof.
  unfold encode_basestring_ascii.
  change (is_ascii ([34] ++ escape s ++ [34]) = true).
  now rewrite !is_ascii_app, is_ascii_escape.
Qed.

Lemma is_ascii_pyval (v : pyval) : is_ascii (json_dumps (json_of_pyval v)) = true.
Proof.
  destruct v as [|[]|s]; try reflexivity. apply is_ascii_basestring.
Qed.

(** ** Surrogate pairs *)

Lemma lor_low_bits (h l k : N) : l < 2 ^ k -> N.lor (h * 2 ^ k) l = h * 2 ^ k + l.
Proof.
  intros Hl.
  assert (Hland : N.land (h * 2 ^ k) l = 0).
  { apply N.bits_inj. intros i. rewrite N.land_spec, N.bits_0.
    destruct (N.ltb_spec i k) as [Hi|Hi].
    - now rewrite N.mul_pow2_bits_low.
    - destruct (N.eq_dec l 0) as [->|Hnz]; [now rewrite N.bits_0, andb_false_r|].
      rewrite (N.bits_above_log2 l i), andb_false_r; [reflexivity|].
      apply N.lt_le_trans with k; [|exact Hi].
      apply N.log2_lt_pow2; [lia|exact Hl]. }
  now rewrite <- N.lxor_lor, <- N.add_nocarry_lxor.
Qed.

Lemma high_surrogate (n : N) :
  n < 0x100000 ->
  N.lor 0xd800 (N.land (N.shiftr n 10) 0x3ff) = 0xd800 + n / 1024.
Proof.
  intros H. change 0x3ff with (N.ones 10).
  rewrite N.land_ones, N.shiftr_div_pow2. change (2 ^ 10) with 1024.
  rewrite N.mod_small by (zify; Z.to_euclidean_division_equations; lia).
  change 0xd800 with (54 * 2 ^ 10). apply lor_low_bits.
  change (2 ^ 10) with 1024. zify; Z.to_euclidean_division_equations; lia.
Qed.

Lemma low_surrogate (n : N) :
  N.lor 0xdc00 (N.land n 0x3ff) = 0xdc00 + n mod 1024.
Proof.
  change 0x3ff with (N.ones 10). rewrite N.land_ones.
  change (2 ^ 10) with 1024.
  change 0xdc00 with (55 * 2 ^ 10). apply lor_low_bits.
  change (2 ^ 10) with 1024. apply N.mod_lt. discriminate.
Qed.

Lemma join_surrogates (n : N) :
  N.lor (N.shiftl (0xd800 + n / 1024 - 0xd800) 10) (0xdc00 + n mod 1024 - 0xdc00)
  = n.
Proof.
  replace (0xd800 + n / 1024 - 0xd800) with (n / 1024)
    by (generalize (n / 1024); intros; lia).
  replace (0xdc00 + n mod 1024 - 0xdc00) with (n mod 1024)
    by (generalize (n mod 1024); intros; lia).
  rewrite N.shiftl_mul_pow2, lor_low_bits.
  - change (2 ^ 10) with 1024. zify; Z.to_euclidean_division_equations; lia.
  - change (2 ^ 10) with 1024. apply N.mod_lt. discriminate.
Qed.

(** ** Reading back an escaped string *)

Lemma scanstring_plain (c : N) (X : str) :
  (c =? 34) = false -> (c =? 92) = false -> (c <? 32) = false ->
  scanstring (c :: X) = option_map (cons_fst c) (scanstring X).
Proof. intros H1 H2 H3. simpl. now rewrite H1, H2, H3. Qed.

Lemma scanstring_short (esc ch : N) (X : str) :
  (esc =? 117) = false -> backslash_char esc = Some ch ->
  scanstring (92 :: esc :: X) = option_map (cons_fst ch) (scanstring X).
Proof. intros H1 H2. simpl. now rewrite H1, H2. Qed.

Lemma scanstring_u_single (h1 h2 h3 h4 uni : N) (X : str) :
  decode_uXXXX h1 h2 h3 h4 = Some uni ->
  (0xd800 <=? uni) && (uni <=? 0xdbff) = false ->
  scanstring (92 :: 117 :: h1 :: h2 :: h3 :: h4 :: X)
  = option_map (cons_fst uni) (scanstring X).
Proof.
  intros H1 H2. cbn [scanstring]. change (92 =? 34) with false.
  change (92 =? 92) with true. change (117 =? 117) with true. cbv iota.
  rewrite H1. cbv beta iota delta [obind]. now rewrite H2.
Qed.

Lemma scanstring_u_pair (h1 h2 h3 h4 g1 g2 g3 g4 uni uni2 : N) (X : str) :
  decode_uXXXX h1 h2 h3 h4 = Some uni ->
  (0xd800 <=? uni) && (uni <=? 0xdbff) = true ->
  decode_uXXXX g1 g2 g3 g4 = Some uni2 ->
  (0xdc00 <=? uni2) && (uni2 <=? 0xdfff) = true ->
  scanstring (92 :: 117 :: h1 :: h2 :: h3 :: h4
              :: 92 :: 117 :: g1 :: g2 :: g3 :: g4 :: X)
  = option_map
      (cons_fst (0x10000 + N.lor (N.shiftl (uni - 0xd800) 10) (uni2 - 0xdc00)))
      (scanstring X).
Proof.
  intros H1 H2 H3 H4. cbn [scanstring]. change (92 =? 34) with false.
  change (92 =? 92) with true. change (117 =? 117) with true. cbv iota.
  rewrite H1. cbv beta iota delta [obind]. rewrite H2.
  change (92 =? 92) with true. change (117 =? 117) with true.
  change (true && true) with true. cbv iota. rewrite H3. cbv beta iota delta [obind].
  now rewrite H4.
Qed.

Lemma scanstring_escape_char (c : N) (X : str) :
  is_scalar c = true ->
  scanstring (escape_char c ++ X) = option_map (cons_fst c) (scanstring X).
Proof.
  intros Hc. unfold is_scalar, is_surrogate in Hc.
  apply andb_prop in Hc as [Hmax Hsur]. apply N.ltb_lt in Hmax.
  apply negb_true_iff in Hsur.
  unfold escape_char.
  destruct (N.eqb_spec c 34) as [->|N34]; [reflexivity|].
  destruct (N.eqb_spec c 92) as [->|N92]; [reflexivity|].
  destruct (N.eqb_spec c 8) as [->|N8]; [reflexivity|].
  destruct (N.eqb_spec c 12) as [->|N12]; [reflexivity|].
  destruct (N.eqb_spec c 10) as [->|N10]; [reflexivity|].
  destruct (N.eqb_spec c 13) as [->|N13]; [reflexivity|].
  destruct (N.eqb_spec c 9) as [->|N9]; [reflexivity|].
  destruct ((32 <=? c) && (c <=? 126)) eqn:Hp.
  - apply andb_prop in Hp as [Hlo _]. apply N.leb_le in Hlo.
    apply scanstring_plain.
    + now apply N.eqb_neq.
    + now apply N.eqb_neq.
    + apply N.ltb_ge. exact Hlo.
  - destruct (N.ltb_spec c 0x10000) as [Hb|Hb].
    + apply scanstring_u_single.
      * now apply decode_hex4.
      * apply andb_false_iff.
        apply andb_false_iff in Hsur as [H|H]; [now left|right].
        apply N.leb_gt in H. apply N.leb_gt. lia.
    + cbv zeta. rewrite high_surrogate by lia. rewrite low_surrogate.
      set (n := c - 0x10000).
      assert (Hn : n < 0x100000) by (subst n; lia).
      assert (H1 : 0xd800 + n / 1024 < 65536)
        by (zify; Z.to_euclidean_division_equations; lia).
      assert (H2 : 0xdc00 + n mod 1024 < 65536)
        by (zify; Z.to_euclidean_division_equations; lia).
      unfold hex4. cbn [app].
      rewrite (scanstring_u_pair _ _ _ _ _ _ _ _ _ _ X
                 (decode_hex4 _ H1)
                 ltac:(apply andb_true_iff; split; apply N.leb_le;
                       zify; Z.to_euclidean_division_equations; lia)
                 (decode_hex4 _ H2)
                 ltac:(apply andb_true_iff; split; apply N.leb_le;
                       zify; Z.to_euclidean_division_equations; lia)).
      rewrite join_surrogates. subst n. f_equal. f_equal. lia.
Qed.

Lemma scanstring_escape (s rest : str) :
  forallb is_scalar s = true ->
  scanstring (escape s ++ 34 :: rest) = Some (s, rest).
Proof.
  induction s as [|c s IH]; [reflexivity|].
  cbn [forallb]. intros [Hc Hs]%andb_prop.
  unfold escape in *. cbn [flat_map]. rewrite <- app_assoc.
  rewrite scanstring_escape_char by exact Hc. now rewrite IH.
Qed.

(** ** Reading back a flat object *)

Lemma dump_members_text (ms : list (str * json)) (k : str) (v : json) (rest : str) :
  dump_members json_dumps ((k, v) :: ms) ++ 125 :: rest
  = 34 :: members_text ((k, v) :: ms) rest.
Proof.
  revert k v. induction ms as [|[k' v'] ms IH]; intros k v.
  - cbn [dump_members members_text]. unfold encode_basestring_ascii.
    change (u ": ") with [58; 32].
    repeat first [rewrite <- app_assoc | progress cbn [app]].
    reflexivity.
  - change (dump_members json_dumps ((k, v) :: (k', v') :: ms))
      with (encode_basestring_ascii k ++ u ": " ++ json_dumps v ++ u ", "
              ++ dump_members json_dumps ((k', v') :: ms)).
    change (members_text ((k, v) :: (k', v') :: ms) rest)
      with (escape k ++ 34 :: 58 :: 32 :: json_dumps v
              ++ 44 :: 32 :: 34 :: members_text ((k', v') :: ms) rest).
    rewrite <- !app_assoc, IH. unfold encode_basestring_ascii.
    change (u ": ") with [58; 32]. change (u ", ") with [44; 32].
    repeat first [rewrite <- app_assoc | progress cbn [app]].
    reflexivity.
Qed.

Lemma members_text_length (ms : list (str * json)) (rest : str) :
  (List.length ms <= List.length (members_text ms rest))%nat.
Proof.
  induction ms as [|[k v] ms IH]; cbn [members_text List.length]; [lia|].
  rewrite length_app. cbn [List.length]. rewrite length_app.
  destruct ms as [|m ms]; cbn [List.length] in *; lia.
Qed.

Lemma skip_ws_plain (v : json) (rest : str) :
  plain_value v -> skip_ws (json_dumps v ++ rest) = json_dumps v ++ rest.
Proof. intros [(s & -> & _)|([] & ->)]; reflexivity. Qed.

Lemma scan_once_plain (fuel : nat) (v : json) (rest : str) :
  plain_value v ->
  scan_once (S fuel) (json_dumps v ++ rest) = Some (v, rest).
Proof.
  intros [(s & -> & Hs)|([] & ->)]; [|reflexivity..].
  cbn [json_dumps]. unfold encode_basestring_ascii.
  cbn [app]. rewrite <- app_assoc. cbn [app scan_once].
  change (34 =? 34) with true. cbv iota.
  rewrite scanstring_escape by exact Hs. reflexivity.
Qed.

Lemma JSONObject_eq (fuel : nat) (s : str) (pairs : list (str * json)) :
  JSONObject (S fuel) s pairs
  = ('(key, r) <-? scanstring s ;;
     match skip_ws r with
     | colon :: r1 =>
         if colon =? 58 then
           '(value, r2) <-? scan_once fuel (skip_ws r1) ;;
           let pairs' := dict_set pairs key value in
           match skip_ws r2 with
           | c :: r3 =>
               if c =? 125 then Some (JObj pairs', r3)
               else if c =? 44 then
                 match skip_ws r3 with
                 | q :: r4 => if q =? 34 then JSONObject fuel r4 pairs' else None
                 | [] => None
                 end
               else None
           | [] => None
           end
         else None
     | [] => None
     end).
Proof. reflexivity. Qed.

Lemma skip_ws_stop (c : N) (s : str) : is_ws c = false -> skip_ws (c :: s) = c :: s.
Proof. intros H. cbn [skip_ws]. now rewrite H. Qed.

Lemma skip_ws_space (s : str) : skip_ws (32 :: s) = skip_ws s.
Proof. reflexivity. Qed.

(** One member and the separator after it. *)
Lemma JSONObject_value (fuel : nat) (k : str) (v : json) (tail : str)
    (pairs : list (str * json)) :
  forallb is_scalar k = true -> plain_value v ->
  JSONObject (S (S fuel)) (escape k ++ 34 :: 58 :: 32 :: json_dumps v ++ tail) pairs
  = match skip_ws tail with
    | c :: r3 =>
        if c =? 125 then Some (JObj (dict_set pairs k v), r3)
        else if c =? 44 then
          match skip_ws r3 with
          | q :: r4 =>
              if q =? 34 then JSONObject (S fuel) r4 (dict_set pairs k v) else None
          | [] => None
          end
        else None
    | [] => None
    end.
Proof.
  intros Hk Hv. rewrite JSONObject_eq, scanstring_escape by exact Hk.
  cbv beta iota delta [obind].
  rewrite (skip_ws_stop 58) by reflexivity.
  change (58 =? 58) with true. cbv iota.
  rewrite skip_ws_space, skip_ws_plain, scan_once_plain by exact Hv.
  reflexivity.
Qed.

Lemma JSONObject_members (ms : list (str * json)) :
  forall (k : str) (v : json) (fuel : nat) (pairs : list (str * json)) (rest : str),
    Forall (fun kv => forallb is_scalar (fst kv) = true /\ plain_value (snd kv))
           ((k, v) :: ms) ->
    JSONObject (S (S (List.length ms + fuel))) (members_text ((k, v) :: ms) rest) pairs
    = Some (JObj (dict_of ((k, v) :: ms) pairs), rest).
Proof.
  induction ms as [|[k' v'] ms IH]; intros k v fuel pairs rest HF;
    inversion HF as [|? ? [Hk Hv] HF']; subst; cbn [fst snd] in *.
  - cbn [members_text]. now rewrite JSONObject_value.
  - change (members_text ((k, v) :: (k', v') :: ms) rest)
      with (escape k ++ 34 :: 58 :: 32 :: json_dumps v
              ++ 44 :: 32 :: 34 :: members_text ((k', v') :: ms) rest).
    rewrite JSONObject_value by assumption.
    rewrite (skip_ws_stop 44) by reflexivity.
    change (44 =? 125) with false. change (44 =? 44) with true. cbv iota.
    rewrite skip_ws_space, (skip_ws_stop 34) by reflexivity.
    change (34 =? 34) with true. cbv iota.
    apply (IH k' v' fuel (dict_set pairs k v) rest HF').
Qed.

Lemma scan_once_object (fuel : nat) (s : str) :
  scan_once (S fuel) (123 :: 34 :: s) = JSONObject fuel s [].
Proof. reflexivity. Qed.

(** [json.loads] reads back an object written by [json.dumps] whose keys are
    texts of scalar values and whose values are texts or booleans. *)
Lemma json_loads_flat_object (k : str) (v : json) (ms : list (str * json)) :
  Forall (fun kv => forallb is_scalar (fst kv) = true /\ plain_value (snd kv))
         ((k, v) :: ms) ->
  json_loads (json_dumps (JObj ((k, v) :: ms)))
  = Some (JObj (dict_of ((k, v) :: ms) [])).
Proof.
  intros HF. unfold json_loads.
  assert (Htext : json_dumps (JObj ((k, v) :: ms))
                  = 123 :: 34 :: members_text ((k, v) :: ms) []).
  { cbn [json_dumps]. f_equal. apply dump_members_text. }
  rewrite Htext.
  pose proof (members_text_length ((k, v) :: ms) []) as Hlen.
  cbn [List.length] in Hlen.
  set (L := List.length (members_text ((k, v) :: ms) [])) in *.
  unfold loads_with.
  replace (S (2 * List.length (123 :: 34 :: members_text ((k, v) :: ms) [])))
    with (S (S (S (List.length ms + (2 * L + 2 - List.length ms)))))%nat
    by (cbn [List.length]; fold L; lia).
  rewrite (skip_ws_stop 123) by reflexivity.
  rewrite scan_once_object.
  rewrite (JSONObject_members ms k v _ [] [] HF). reflexivity.
Qed.

(** ** The fuel of the scanner *)

Section Fuel.

Local Open Scope nat_scope.

Lemma skip_ws_length (s : str) : List.length (skip_ws s) <= List.length s.
Proof.
  induction s as [|c s IH]; cbn [skip_ws]; [lia|].
  destruct (is_ws c); cbn [List.length]; lia.
Qed.

Lemma option_map_cons_fst (c : N) (o : option (str * str)) (t r : str) :
  option_map (cons_fst c) o = Some (t, r) -> exists t', o = Some (t', r).
Proof.
  destruct o as [[t' r']|]; [|discriminate].
  unfold cons_fst. cbn. intros [= <- <-]. now exists t'.
Qed.

Lemma scanstring_length (n : nat) :
  forall s t r, List.length s <= n -> scanstring s = Some (t, r) ->
                List.length r <= List.length s.
Proof.
  induction n as [|n IH]; intros s t r Hn H.
  - destruct s; [discriminate|cbn in Hn; lia].
  - destruct s as [|c rest]; [discriminate|].
    cbn [List.length] in *. cbn [scanstring] in H.
    assert (Hrec : forall c' X t',
               List.length X <= List.length rest ->
               option_map (cons_fst c') (scanstring X) = Some (t', r) ->
               List.length r <= S (List.length rest)).
    { intros c' X t' HX HS. apply option_map_cons_fst in HS as (t'' & HS).
      apply IH in HS; lia. }
    destruct (N.eqb c 34); [injection H as <- <-; lia|].
    destruct (N.eqb c 92).
    + destruct rest as [|esc rest1]; [discriminate|]. cbn [List.length] in *.
      destruct (N.eqb esc 117).
      * destruct rest1 as [|h1 [|h2 [|h3 [|h4 rest2]]]]; try discriminate.
        cbn [List.length] in *.
        destruct (decode_uXXXX h1 h2 h3 h4) as [uni|]; [|discriminate].
        cbv beta iota delta [obind] in H.
        destruct ((0xd800 <=? uni)%N && (uni <=? 0xdbff)%N);
          [|eapply Hrec; [|exact H]; lia].
        destruct rest2 as [|b [|v rest3]];
          try (eapply Hrec; [|exact H]; cbn [List.length]; lia).
        destruct ((b =? 92)%N && (v =? 117)%N);
          [|eapply Hrec; [|exact H]; cbn [List.length]; lia].
        destruct rest3 as [|g1 [|g2 [|g3 [|g4 rest4]]]]; try discriminate.
        destruct (decode_uXXXX g1 g2 g3 g4) as [uni2|]; [|discriminate].
        cbv beta iota delta [obind] in H.
        destruct ((0xdc00 <=? uni2)%N && (uni2 <=? 0xdfff)%N);
          (eapply Hrec; [|exact H]; cbn [List.length]; lia).
      * destruct (backslash_char esc) as [ch|]; [|discriminate].
        cbv beta iota delta [obind] in H. eapply Hrec; [|exact H]. lia.
    + destruct (N.ltb c 32); [discriminate|]. eapply Hrec; [|exact H]. lia.
Qed.

Lemma strip_prefix_length (lit s r : str) :
  strip_prefix lit s = Some r -> List.length r <= List.length s.
Proof.
  revert s. induction lit as [|x lit IH]; intros s H; cbn [strip_prefix] in H.
  - injection H as <-. lia.
  - destruct s as [|y s]; [discriminate|].
    destruct (N.eqb x y); [|discriminate].
    apply IH in H. cbn [List.length]. lia.
Qed.

Lemma span_digits_length (s : str) :
  List.length (snd (span_digits s)) <= List.length s.
Proof.
  induction s as [|c s IH]; cbn [span_digits]; [cbn; lia|].
  destruct (is_digit c); [|cbn; lia].
  destruct (span_digits s) as [ds r]. cbn [snd List.length] in *. lia.
Qed.

Lemma match_integer_length (s int r : str) :
  match_integer s = Some (int, r) -> List.length r <= List.length s.
Proof.
  unfold match_integer. intros H.
  assert (Hd : forall sign s1, List.length s1 <= List.length s ->
             match s1 with
             | d :: r0 =>
                 if N.eqb d 48 then Some (sign ++ [48%N], r0)
                 else if is_digit d then
                   let (ds, r') := span_digits r0 in Some (sign ++ d :: ds, r')
                 else None
             | [] => None
             end = Some (int, r) -> List.length r <= List.length s).
  { intros sign s1 Hs1 H1. destruct s1 as [|d r0]; [discriminate|].
    cbn [List.length] in Hs1.
    destruct (N.eqb d 48); [injection H1 as _ <-; lia|].
    destruct (is_digit d); [|discriminate].
    pose proof (span_digits_length r0) as Hl.
    destruct (span_digits r0) as [ds r']. injection H1 as _ <-.
    cbn [snd] in Hl. lia. }
  destruct s as [|c s']; [discriminate|].
  destruct (N.eqb c 45).
  - apply (Hd [45%N] s'); [cbn [List.length]; lia|exact H].
  - apply (Hd [] (c :: s')); [lia|exact H].
Qed.

Lemma match_frac_length (s : str) :
  List.length (snd (match_frac s)) <= List.length s.
Proof.
  unfold match_frac. destruct s as [|dot [|d r]]; try (cbn; lia).
  destruct ((dot =? 46)%N && is_digit d); [|cbn; lia].
  pose proof (span_digits_length r) as Hl.
  destruct (span_digits r) as [ds r']. cbn [snd List.length] in *. lia.
Qed.

Lemma match_exp_length (s : str) :
  List.length (snd (match_exp s)) <= List.length s.
Proof.
  unfold match_exp. destruct s as [|e [|c r1]]; try (cbn; lia).
  - destruct ((e =? 101)%N || (e =? 69)%N); cbn; lia.
  - destruct ((e =? 101)%N || (e =? 69)%N); [|cbn; lia].
    destruct ((c =? 45)%N || (c =? 43)%N).
    + destruct r1 as [|d r2]; [cbn; lia|].
      destruct (is_digit d); [|cbn; lia].
      pose proof (span_digits_length r2) as Hl.
      destruct (span_digits r2) as [ds r']. cbn [snd List.length] in *. lia.
    + destruct (is_digit c); [|cbn; lia].
      pose proof (span_digits_length r1) as Hl.
      destruct (span_digits r1) as [ds r']. cbn [snd List.length] in *. lia.
Qed.

Lemma match_number_length (s : str) (v : json) (r : str) :
  match_number s = Some (v, r) -> List.length r <= List.length s.
Proof.
  unfold match_number. intros H.
  destruct (match_integer s) as [[int r0]|] eqn:Hi; [|discriminate].
  apply match_integer_length in Hi. cbv beta iota delta [obind] in H.
  pose proof (match_frac_length r0) as Hf.
  destruct (match_frac r0) as [frac r1]. cbn [snd] in Hf.
  pose proof (match_exp_length r1) as He.
  destruct (match_exp r1) as [exp r2]. cbn [snd] in He.
  destruct (frac ++ exp); injection H as _ <-; lia.
Qed.

(** The scanner never returns more text than it was given. *)
Lemma scanner_length (fuel : nat) :
  (forall s v r, scan_once fuel s = Some (v, r) ->
                 List.length r <= List.length s)
  /\ (forall s pairs v r, JSONObject fuel s pairs = Some (v, r) ->
                          List.length r <= List.length s)
  /\ (forall s values v r, JSONArray fuel s values = Some (v, r) ->
                           List.length r <= List.length s).
Proof.
  induction fuel as [|fuel (IHs & IHo & IHa)];
    [repeat split; intros; discriminate|].
  split; [|split].
  - intros s v r H. cbn [scan_once] in H.
    destruct s as [|c rest]; [discriminate|]. cbn [List.length].
    destruct (N.eqb c 34).
    { destruct (scanstring rest) as [[t r']|] eqn:Hs; [|discriminate].
      injection H as _ <-.
      apply (scanstring_length _ _ _ _ (le_n _)) in Hs. lia. }
    destruct (N.eqb c 123).
    { pose proof (skip_ws_length rest) as Hw.
      destruct (skip_ws rest) as [|c1 r1]; [discriminate|].
      cbn [List.length] in Hw.
      destruct (N.eqb c1 125); [injection H as _ <-; lia|].
      destruct (N.eqb c1 34); [|discriminate].
      apply IHo in H. lia. }
    destruct (N.eqb c 91).
    { pose proof (skip_ws_length rest) as Hw.
      destruct (skip_ws rest) as [|c1 r1]; [discriminate|].
      destruct (N.eqb c1 93); [injection H as _ <-; cbn [List.length] in Hw; lia|].
      apply IHa in H. lia. }
    change (S (List.length rest)) with (List.length (c :: rest)).
    destruct (strip_prefix (u "null") (c :: rest)) eqn:H1;
      [injection H as _ <-; now apply strip_prefix_length in H1|].
    destruct (strip_prefix (u "true") (c :: rest)) eqn:H2;
      [injection H as _ <-; now apply strip_prefix_length in H2|].
    destruct (strip_prefix (u "false") (c :: rest)) eqn:H3;
      [injection H as _ <-; now apply strip_prefix_length in H3|].
    destruct (match_number (c :: rest)) as [[v' r']|] eqn:H4;
      [injection H as _ <-; now apply match_number_length in H4|].
    destruct (strip_prefix (u "NaN") (c :: rest)) eqn:H5;
      [injection H as _ <-; now apply strip_prefix_length in H5|].
    destruct (strip_prefix (u "Infinity") (c :: rest)) eqn:H6;
      [injection H as _ <-; now apply strip_prefix_length in H6|].
    destruct (strip_prefix (u "-Infinity") (c :: rest)) eqn:H7;
      [injection H as _ <-; now apply strip_prefix_length in H7|].
    discriminate.
  - intros s pairs v r H. cbn [JSONObject] in H.
    destruct (scanstring s) as [[key r0]|] eqn:Hs; [|discriminate].
    apply (scanstring_length _ _ _ _ (le_n _)) in Hs.
    cbv beta iota delta [obind] in H.
    pose proof (skip_ws_length r0) as Hw0.
    destruct (skip_ws r0) as [|colon r1]; [discriminate|].
    cbn [List.length] in Hw0.
    destruct (N.eqb colon 58); [|discriminate].
    pose proof (skip_ws_length r1) as Hw1.
    destruct (scan_once fuel (skip_ws r1)) as [[value r2]|] eqn:Hv; [|discriminate].
    apply IHs in Hv. cbv beta iota zeta delta [obind] in H.
    pose proof (skip_ws_length r2) as Hw2.
    destruct (skip_ws r2) as [|c r3]; [discriminate|].
    cbn [List.length] in Hw2.
    destruct (N.eqb c 125); [injection H as _ <-; lia|].
    destruct (N.eqb c 44); [|discriminate].
    pose proof (skip_ws_length r3) as Hw3.
    destruct (skip_ws r3) as [|q r4]; [discriminate|].
    cbn [List.length] in Hw3.
    destruct (N.eqb q 34); [|discriminate].
    apply IHo in H. lia.
  - intros s values v r H. cbn [JSONArray] in H.
    destruct (scan_once fuel s) as [[value r0]|] eqn:Hv; [|discriminate].
    apply IHs in Hv. cbv beta iota zeta delta [obind] in H.
    pose proof (skip_ws_length r0) as Hw0.
    destruct (skip_ws r0) as [|c r1]; [discriminate|].
    cbn [List.length] in Hw0.
    destruct (N.eqb c 93); [injection H as _ <-; lia|].
    destruct (N.eqb c 44); [|discriminate].
    pose proof (skip_ws_length r1) as Hw1.
    apply IHa in H. lia.
Qed.

(** More fuel than twice the length of the text changes nothing. *)
Lemma scanner_fuel (fuel : nat) :
  (forall s more, 2 * List.length s < fuel ->
                  scan_once (fuel + more) s = scan_once fuel s)
  /\ (forall s pairs more, 2 * List.length s + 1 < fuel ->
        JSONObject (fuel + more) s pairs = JSONObject fuel s pairs)
  /\ (forall s values more, 2 * List.length s + 1 < fuel ->
        JSONArray (fuel + more) s values = JSONArray fuel s values).
Proof.
  induction fuel as [|fuel (IHs & IHo & IHa)];
    [repeat split; intros; lia|].
  split; [|split].
  - intros s more Hn. cbn [Nat.add scan_once].
    destruct s as [|c rest]; [reflexivity|]. cbn [List.length] in Hn.
    destruct (N.eqb c 34); [reflexivity|].
    pose proof (skip_ws_length rest) as Hw.
    destruct (N.eqb c 123).
    { destruct (skip_ws rest) as [|c1 r1]; [reflexivity|].
      cbn [List.length] in Hw.
      destruct (N.eqb c1 125); [reflexivity|].
      destruct (N.eqb c1 34); [|reflexivity].
      apply IHo. lia. }
    destruct (N.eqb c 91); [|reflexivity].
    destruct (skip_ws rest) as [|c1 r1]; [reflexivity|].
    destruct (N.eqb c1 93); [reflexivity|].
    apply IHa. lia.
  - intros s pairs more Hn. cbn [Nat.add JSONObject].
    destruct (scanstring s) as [[key r0]|] eqn:Hs; [|reflexivity].
    apply (scanstring_length _ _ _ _ (le_n _)) in Hs.
    cbv beta iota delta [obind].
    pose proof (skip_ws_length r0) as Hw0.
    destruct (skip_ws r0) as [|colon r1]; [reflexivity|].
    cbn [List.length] in Hw0.
    destruct (N.eqb colon 58); [|reflexivity].
    pose proof (skip_ws_length r1) as Hw1.
    rewrite IHs by lia.
    destruct (scan_once fuel (skip_ws r1)) as [[value r2]|] eqn:Hv; [|reflexivity].
    apply (proj1 (scanner_length fuel)) in Hv.
    cbv beta iota zeta delta [obind].
    pose proof (skip_ws_length r2) as Hw2.
    destruct (skip_ws r2) as [|c r3]; [reflexivity|].
    cbn [List.length] in Hw2.
    destruct (N.eqb c 125); [reflexivity|].
    destruct (N.eqb c 44); [|reflexivity].
    pose proof (skip_ws_length r3) as Hw3.
    destruct (skip_ws r3) as [|q r4]; [reflexivity|].
    cbn [List.length] in Hw3.
    destruct (N.eqb q 34); [|reflexivity].
    apply IHo. lia.
  - intros s values more Hn. cbn [Nat.add JSONArray].
    rewrite IHs by lia.
    destruct (scan_once fuel s) as [[value r0]|] eqn:Hv; [|reflexivity].
    apply (proj1 (scanner_length fuel)) in Hv.
    cbv beta iota zeta delta [obind].
    pose proof (skip_ws_length r0) as Hw0.
    destruct (skip_ws r0) as [|c r1]; [reflexivity|].
    cbn [List.length] in Hw0.
    destruct (N.eqb c 93); [reflexivity|].
    destruct (N.eqb c 44); [|reflexivity].
    pose proof (skip_ws_length r1) as Hw1.
    apply IHa. lia.
Qed.

(** The answer of [json.loads] does not depend on the bound: any larger
    amount of fuel gives the same document, or the same failure. *)
Lemma json_loads_fuel (s : str) (fuel : nat) :
  2 * List.length s < fuel -> loads_with fuel s = json_loads s.
Proof.
  intros Hf. unfold json_loads, loads_with.
  replace fuel with (S (2 * List.length s) + (fuel - S (2 * List.length s)))
    by lia.
  rewrite (proj1 (scanner_fuel _)); [reflexivity|].
  pose proof (skip_ws_length s). lia.
Qed.

End Fuel.

(** ** The token codec *)

Lemma is_ascii_dump_members (ms : list (str * json)) :
  Forall (fun kv => is_ascii (json_dumps (snd kv)) = true) ms ->
  is_ascii (dump_members json_dumps ms) = true.
Proof.
  induction 1 as [|[k v] ms Hv HF IH]; [reflexivity|].
  cbn [snd] in Hv. destruct ms as [|m ms].
  - cbn [dump_members]. now rewrite !is_ascii_app, is_ascii_basestring, Hv.
  - change (dump_members json_dumps ((k, v) :: m :: ms))
      with (encode_basestring_ascii k ++ u ": " ++ json_dumps v ++ u ", "
              ++ dump_members json_dumps (m :: ms)).
    now rewrite !is_ascii_app, is_ascii_basestring, Hv, IH.
Qed.

Lemma is_ascii_to_json (t : RealmToken) : is_ascii (to_json t) = true.
Proof.
  unfold to_json. cbn [json_dumps].
  change (is_ascii ([123] ++ dump_members json_dumps
            [(u "realm_name", json_of_pyval (realm_name t));
             (u "realm_id", json_of_pyval (realm_id t));
             (u "is_primary", json_of_pyval (is_primary t));
             (u "endpoint", json_of_pyval (endpoint t));
             (u "access_key", json_of_pyval (access_key t));
             (u "secret", json_of_pyval (secret t))] ++ [125]) = true).
  rewrite !is_ascii_app, is_ascii_dump_members; [reflexivity|].
  repeat constructor; apply is_ascii_pyval.
Qed.

(** The envelope of [list_realm_tokens] is always produced: the JSON text is
    ASCII, and so is its base64 form. *)
Lemma encode_total (t : RealmToken) :
  encode t
  = Some (map N_of_ascii (b64encode (map ascii_of_N (to_json t)))).
Proof.
  unfold encode. rewrite utf8_encode_ascii by apply is_ascii_to_json.
  cbv beta iota delta [obind]. apply utf8_decode_ascii, b64encode_ascii.
Qed.

(** Opening the envelope gives back the text that was wrapped. *)
Lemma unwrap_envelope (text : str) :
  is_ascii text = true ->
  unwrap (map N_of_ascii (b64encode (map ascii_of_N text))) = Some text.
Proof.
  intros Ha. unfold unwrap.
  rewrite ascii_bytes_of_ascii by apply b64encode_ascii.
  cbv beta iota delta [obind]. rewrite b64decode_b64encode.
  cbv beta iota delta [obind].
  rewrite utf8_decode_ascii by now apply map_ascii_of_N_ascii.
  now rewrite map_N_of_ascii_of_N.
Qed.

Lemma plain_of_wf_text (v : pyval) : wf_text v -> plain_value (json_of_pyval v).
Proof. intros (s & -> & Hs). left. now exists s. Qed.

(** C2. For every well-formed token (five texts of Unicode scalar values and
    a boolean), the envelope is produced and decoding it gives the token
    back. *)
Theorem decode_encode_roundtrip :
  forall t : RealmToken,
    wf_token t -> exists s, encode t = Some s /\ decode s = Some t.
Proof.
  intros t Hwf. eexists. split; [apply encode_total|].
  unfold decode. rewrite unwrap_envelope by apply is_ascii_to_json.
  cbv beta iota delta [obind].
  destruct Hwf as (Hn & Hi & (b & Hp) & He & Ha & Hs).
  unfold to_json. rewrite json_loads_flat_object.
  - destruct t as [n i p e a s]. cbn [realm_name realm_id is_primary endpoint
                                       access_key secret] in *.
    destruct Hn as (sn & -> & _), Hi as (si & -> & _), He as (se & -> & _),
             Ha as (sa & -> & _), Hs as (ss & -> & _). subst p.
    reflexivity.
  - repeat (apply Forall_cons; [split; [reflexivity|cbn [snd]]|]);
      try apply Forall_nil; try (apply plain_of_wf_text; assumption).
    right. rewrite Hp. now exists b.
Qed.

Lemma str_eqb_eq (a b : str) : str_eqb a b = true <-> a = b.
Proof.
  revert b. induction a as [|x a IH]; intros [|y b]; cbn [str_eqb];
    try (split; [discriminate|congruence]); [tauto|].
  rewrite andb_true_iff, N.eqb_eq, IH. split; [intros [-> ->]|intros [= -> ->]]; auto.
Qed.

Lemma in_token_keys (k : str) :
  existsb (str_eqb k) token_keys = true <-> In k token_keys.
Proof.
  rewrite existsb_exists. split.
  - intros (x & Hin & Heq). apply str_eqb_eq in Heq. now subst.
  - intros Hin. exists k. split; [exact Hin|now apply str_eqb_eq].
Qed.

Lemma get_str_some (d : list (str * json)) (k : str) (v : pyval) :
  get_str d k = Some v <-> exists s, dict_get d k = Some (JStr s) /\ v = PyStr s.
Proof.
  unfold get_str. destruct (dict_get d k) as [[]|]; split;
    try discriminate; try (intros (? & [=] & _); fail).
  - intros [= <-]. eauto.
  - intros (s' & [= ->] & ->). reflexivity.
Qed.

Lemma get_bool_some (d : list (str * json)) (k : str) (v : pyval) :
  get_bool d k = Some v <-> exists b, dict_get d k = Some (JBool b) /\ v = PyBool b.
Proof.
  unfold get_bool. destruct (dict_get d k) as [[]|]; split;
    try discriminate; try (intros (? & [=] & _); fail).
  - intros [= <-]. eauto.
  - intros (b' & [= ->] & ->). reflexivity.
Qed.

(** The check of [token_of_json] is the condition on the fields. *)
Lemma token_of_json_fields (j : json) :
  (exists t, token_of_json j = Some t) <-> has_token_fields j.
Proof.
  unfold has_token_fields. split.
  - intros (t & Ht). destruct j as [| | | | |items|d]; try discriminate.
    cbn [token_of_json] in Ht.
    destruct (forallb _ d) eqn:Hall; [|discriminate].
    destruct (get_str d (u "realm_name")) as [n|] eqn:Hn; [|discriminate].
    destruct (get_str d (u "realm_id")) as [i|] eqn:Hi; [|discriminate].
    destruct (get_bool d (u "is_primary")) as [p|] eqn:Hp; [|discriminate].
    destruct (get_str d (u "endpoint")) as [e|] eqn:He; [|discriminate].
    destruct (get_str d (u "access_key")) as [a|] eqn:Ha; [|discriminate].
    destruct (get_str d (u "secret")) as [s|] eqn:Hs; [|discriminate].
    apply get_str_some in Hn as (? & Hn & _), Hi as (? & Hi & _),
      He as (? & He & _), Ha as (? & Ha & _), Hs as (? & Hs & _).
    apply get_bool_some in Hp as (b & Hp & _).
    exists d. split; [reflexivity|]. split; [|split].
    + intros k [<-|[<-|[<-|[<-|[<-|[]]]]]]; eauto.
    + eauto.
    + intros kv Hin. rewrite forallb_forall in Hall.
      apply in_token_keys, Hall, Hin.
  - intros (d & -> & Htext & (b & Hb) & Hkeys).
    cbn [token_of_json].
    assert (Hall : forallb (fun kv => existsb (str_eqb (fst kv)) token_keys) d = true).
    { apply forallb_forall. intros kv Hin. apply in_token_keys, Hkeys, Hin. }
    rewrite Hall.
    destruct (Htext (u "realm_name")) as (sn & Hn); [cbn; tauto|].
    destruct (Htext (u "realm_id")) as (si & Hi); [cbn; tauto|].
    destruct (Htext (u "endpoint")) as (se & He); [cbn; tauto|].
    destruct (Htext (u "access_key")) as (sa & Ha); [cbn; tauto|].
    destruct (Htext (u "secret")) as (ss & Hs); [cbn; tauto|].
    unfold get_str, get_bool. rewrite Hn, Hi, Hb, He, Ha, Hs.
    cbv beta iota delta [obind]. eauto.
Qed.

(** ** The envelope against its grammar *)

Lemma index_of_some (c : ascii) (l : list ascii) :
  forall i n, index_of c l i = Some n ->
    exists k, (k < List.length l)%nat /\ n = i + N.of_nat k /\ nth k l b64_pad = c.
Proof.
  induction l as [|x l IH]; intros i n H; cbn [index_of] in H; [discriminate|].
  destruct (Ascii.eqb c x) eqn:E.
  - injection H as <-. apply Ascii.eqb_eq in E. subst x.
    exists 0%nat. cbn [List.length nth]. repeat split; lia.
  - apply IH in H as (k & Hk & -> & Hn).
    exists (S k). cbn [List.length nth]. repeat split; [lia|lia|exact Hn].
Qed.

Lemma b64_val_some (c : ascii) (p : N) :
  b64_val c = Some p -> p < 64 /\ c = b64_chr p.
Proof.
  unfold b64_val. intros H.
  apply index_of_some in H as (k & Hk & -> & Hn).
  change (List.length b64_alphabet) with 64%nat in Hk.
  split; [lia|]. unfold b64_chr. cbn [N.add]. now rewrite Nat2N.id.
Qed.

Lemma N_of_ascii_bits (a0 a1 a2 a3 a4 a5 a6 a7 : bool) :
  N_of_ascii (Ascii a0 a1 a2 a3 a4 a5 a6 a7)
  = bit a0 + 2 * bit a1 + 4 * bit a2 + 8 * bit a3 + 16 * bit a4
    + 32 * bit a5 + 64 * bit a6 + 128 * bit a7.
Proof. destruct a0, a1, a2, a3, a4, a5, a6, a7; reflexivity. Qed.

Lemma sextet_of_bits (p : N) (p5 p4 p3 p2 p1 p0 : bool) :
  p < 64 -> sextet_bits p = (p5, p4, p3, p2, p1, p0) ->
  p = 32 * bit p5 + 16 * bit p4 + 8 * bit p3 + 4 * bit p2 + 2 * bit p1 + bit p0.
Proof.
  intros H E.
  assert (Hp : sextet (N.testbit p 5) (N.testbit p 4) (N.testbit p 3)
                 (N.testbit p 2) (N.testbit p 1) (N.testbit p 0) = p)
    by below64 p H.
  unfold sextet_bits in E. injection E as <- <- <- <- <- <-.
  symmetry. exact Hp.
Qed.

Lemma bit_le (b : bool) : bit b <= 1.
Proof. destruct b; cbn; lia. Qed.

Ltac sextets :=
  repeat match goal with
         | H : ?p < 64 |- context [sextet_bits ?p] =>
             let E := fresh "E" in
             destruct (sextet_bits p) as [[[[[? ?] ?] ?] ?] ?] eqn:E;
             apply (sextet_of_bits _ _ _ _ _ _ _ H) in E
         end.

Ltac bits_bounded :=
  repeat match goal with
         | b : bool |- _ =>
             lazymatch goal with
             | _ : bit b <= 1 |- _ => fail
             | _ => pose proof (bit_le b)
             end
         end.

Lemma b64_group3_value (p q r s : N) :
  p < 64 -> q < 64 -> r < 64 -> s < 64 ->
  exists x y z,
    b64_group3 p q r s = [ascii_of_N x; ascii_of_N y; ascii_of_N z]
    /\ x < 256 /\ y < 256 /\ z < 256
    /\ 64 * (64 * (64 * p + q) + r) + s = 256 * (256 * x + y) + z.
Proof.
  intros Hp Hq Hr Hs. unfold b64_group3. sextets.
  eexists (N_of_ascii _), (N_of_ascii _), (N_of_ascii _).
  rewrite !ascii_N_embedding. split; [reflexivity|].
  repeat (split; [apply N_ascii_bounded|]).
  rewrite !N_of_ascii_bits. subst p q r s. lia.
Qed.

Lemma b64_group2_value (p q r : N) :
  p < 64 -> q < 64 -> r < 64 ->
  exists x y,
    b64_group2 p q r = [ascii_of_N x; ascii_of_N y]
    /\ x < 256 /\ y < 256
    /\ (64 * (64 * p + q) + r) / 4 = 256 * x + y.
Proof.
  intros Hp Hq Hr. unfold b64_group2. sextets.
  eexists (N_of_ascii _), (N_of_ascii _).
  rewrite !ascii_N_embedding. split; [reflexivity|].
  repeat (split; [apply N_ascii_bounded|]).
  rewrite !N_of_ascii_bits. subst p q r. bits_bounded.
  zify; Z.to_euclidean_division_equations; lia.
Qed.

Lemma b64_group1_value (p q : N) :
  p < 64 -> q < 64 ->
  exists x,
    b64_group1 p q = [ascii_of_N x]
    /\ x < 256
    /\ (64 * p + q) / 16 = x.
Proof.
  intros Hp Hq. unfold b64_group1. sextets.
  eexists (N_of_ascii _).
  rewrite !ascii_N_embedding. split; [reflexivity|].
  split; [apply N_ascii_bounded|].
  rewrite !N_of_ascii_bits. subst p q. bits_bounded.
  zify; Z.to_euclidean_division_equations; lia.
Qed.

Lemma list_ind4 {A} (P : list A -> Prop) :
  P [] -> (forall a, P [a]) -> (forall a b, P [a; b]) ->
  (forall a b c, P [a; b; c]) ->
  (forall a b c d l, P l -> P (a :: b :: c :: d :: l)) ->
  forall l, P l.
Proof.
  intros H0 H1 H2 H3 H4. fix IH 1.
  intros [|a [|b [|c [|d l]]]];
    [exact H0|apply H1|apply H2|apply H3|apply H4, IH].
Qed.

(** What [b64decode] returns is what the text stands for. *)
Lemma b64decode_sound (cs : bytes) :
  forall bs, b64decode cs = Some bs -> b64_text cs bs.
Proof.
  induction cs as [|a|a b|a b c|c1 c2 c3 c4 l IH] using list_ind4;
    intros bs H; try discriminate.
  - injection H as <-. constructor.
  - destruct l as [|x tl].
    + cbn [b64decode] in H.
      destruct (b64_val c1) as [p|] eqn:E1; [|discriminate].
      destruct (b64_val c2) as [q|] eqn:E2; [|discriminate].
      apply b64_val_some in E1 as (Hp & ->), E2 as (Hq & ->).
      cbv beta iota delta [obind] in H.
      destruct (Ascii.eqb c3 b64_pad) eqn:P3.
      * destruct (Ascii.eqb c4 b64_pad) eqn:P4; [|discriminate].
        apply Ascii.eqb_eq in P3, P4. subst c3 c4.
        assert (bs = b64_group1 p q) as -> by congruence. clear H.
        destruct (b64_group1_value p q Hp Hq) as (x & -> & Hx & Hv).
        now apply b64_text_pad2.
      * destruct (b64_val c3) as [r|] eqn:E3; [|discriminate].
        apply b64_val_some in E3 as (Hr & ->).
        cbv beta iota delta [obind] in H.
        destruct (Ascii.eqb c4 b64_pad) eqn:P4.
        -- apply Ascii.eqb_eq in P4. subst c4.
           assert (bs = b64_group2 p q r) as -> by congruence. clear H.
           destruct (b64_group2_value p q r Hp Hq Hr) as (x & y & -> & Hx & Hy & Hv).
           now apply b64_text_pad1.
        -- destruct (b64_val c4) as [s|] eqn:E4; [|discriminate].
           apply b64_val_some in E4 as (Hs & ->).
           cbv beta iota delta [obind] in H.
           assert (bs = b64_group3 p q r s) as -> by congruence. clear H.
           destruct (b64_group3_value p q r s Hp Hq Hr Hs)
             as (x & y & z & -> & Hx & Hy & Hz & Hv).
           apply b64_text_group; try assumption. constructor.
    + rewrite b64decode_cons in H.
      destruct (b64_val c1) as [p|] eqn:E1; [|discriminate].
      destruct (b64_val c2) as [q|] eqn:E2; [|discriminate].
      destruct (b64_val c3) as [r|] eqn:E3; [|discriminate].
      destruct (b64_val c4) as [s|] eqn:E4; [|discriminate].
      apply b64_val_some in E1 as (Hp & ->), E2 as (Hq & ->),
          E3 as (Hr & ->), E4 as (Hs & ->).
      cbv beta iota delta [obind] in H.
      destruct (b64decode (x :: tl)) as [t|] eqn:Et; [|discriminate].
      assert (bs = b64_group3 p q r s ++ t) as -> by congruence. clear H.
      destruct (b64_group3_value p q r s Hp Hq Hr Hs)
        as (x' & y & z & -> & Hx & Hy & Hz & Hv).
      cbn [app]. apply b64_text_group; try assumption. now apply IH.
Qed.

(** Every base64 text is decoded, to the bytes it stands for. *)
Lemma b64decode_complete (cs bs : bytes) :
  b64_text cs bs -> b64decode cs = Some bs.
Proof.
  induction 1 as [|p q r s x y z cs bs Hp Hq Hr Hs Hx Hy Hz Hv Ht IH
                  |p q r x y Hp Hq Hr Hx Hy Hv|p q x Hp Hq Hx Hv].
  - reflexivity.
  - destruct (b64_group3_value p q r s Hp Hq Hr Hs)
      as (x' & y' & z' & Hg & Hx' & Hy' & Hz' & Hv').
    assert (x' = x /\ y' = y /\ z' = z) as (-> & -> & ->) by lia.
    destruct cs as [|c tl].
    + inversion Ht; subst. cbn [b64decode].
      rewrite !b64_val_chr, !b64_chr_not_pad by assumption.
      cbv beta iota delta [obind]. now rewrite Hg.
    + rewrite b64decode_cons, IH, !b64_val_chr by assumption.
      cbv beta iota delta [obind]. now rewrite Hg.
  - destruct (b64_group2_value p q r Hp Hq Hr) as (x' & y' & Hg & Hx' & Hy' & Hv').
    assert (x' = x /\ y' = y) as (-> & ->) by lia.
    cbn [b64decode].
    rewrite !b64_val_chr, !b64_chr_not_pad, Ascii.eqb_refl by assumption.
    cbv beta iota delta [obind]. now rewrite Hg.
  - destruct (b64_group1_value p q Hp Hq) as (x' & Hg & Hx' & Hv').
    assert (x' = x) as -> by lia.
    cbn [b64decode].
    rewrite !b64_val_chr, !Ascii.eqb_refl by assumption.
    cbv beta iota delta [obind]. now rewrite Hg.
Qed.

Lemma b64_text_ascii (cs bs : bytes) :
  b64_text cs bs -> Forall (fun c => N_of_ascii c < 128) cs.
Proof.
  induction 1; repeat (constructor; try apply b64_chr_ascii);
    try assumption; vm_compute; reflexivity.
Qed.

Lemma ascii_bytes_sound (s : str) :
  forall cs, ascii_bytes s = Some cs -> s = map N_of_ascii cs.
Proof.
  induction s as [|c s IH]; intros cs H; cbn [ascii_bytes] in H.
  - now injection H as <-.
  - destruct (N.ltb_spec c 0x80) as [Hc|Hc]; [|discriminate].
    destruct (ascii_bytes s) as [tl|]; [|discriminate].
    cbv beta iota delta [obind] in H. injection H as <-.
    cbn [map]. rewrite N_ascii_embedding by lia. now rewrite <- IH.
Qed.

Lemma ascii_bytes_complete (cs : bytes) :
  Forall (fun c => N_of_ascii c < 128) cs ->
  ascii_bytes (map N_of_ascii cs) = Some cs.
Proof. apply ascii_bytes_of_ascii. Qed.
(** ** UTF-8: the decoder against the encoder *)

Lemma land_low (x k : N) : N.land x (N.ones k) = x mod 2 ^ k.
Proof. apply N.land_ones. Qed.

Lemma utf8_cont_value (c sh : N) :
  utf8_cont c sh = ascii_of_N (128 + (c / 2 ^ sh) mod 64).
Proof.
  unfold utf8_cont. f_equal. change 0x3F with (N.ones 6).
  rewrite land_low, N.shiftr_div_pow2. change 0x80 with (2 * 2 ^ 6).
  rewrite lor_low_bits; [reflexivity|]. apply N.mod_lt. discriminate.
Qed.

Lemma lead2_value (c : N) :
  c < 0x800 -> N.lor 0xC0 (N.shiftr c 6) = 192 + c / 64.
Proof.
  intros H. rewrite N.shiftr_div_pow2. change 0xC0 with (3 * 2 ^ 6).
  rewrite lor_low_bits; [reflexivity|]. change (2 ^ 6) with 64.
  zify; Z.to_euclidean_division_equations; lia.
Qed.

Lemma lead3_value (c : N) :
  c < 0x10000 -> N.lor 0xE0 (N.shiftr c 12) = 224 + c / 4096.
Proof.
  intros H. rewrite N.shiftr_div_pow2. change 0xE0 with (7 * 2 ^ 5).
  rewrite lor_low_bits; [reflexivity|]. change (2 ^ 12) with 4096.
  change (2 ^ 5) with 32. zify; Z.to_euclidean_division_equations; lia.
Qed.

Lemma lead4_value (c : N) :
  c < 0x110000 -> N.lor 0xF0 (N.shiftr c 18) = 240 + c / 262144.
Proof.
  intros H. rewrite N.shiftr_div_pow2. change 0xF0 with (15 * 2 ^ 4).
  rewrite lor_low_bits; [reflexivity|]. change (2 ^ 18) with 262144.
  change (2 ^ 4) with 16. zify; Z.to_euclidean_division_equations; lia.
Qed.

(** The bytes of one character, by the range of its code point. *)
Lemma utf8_encode_char_value (c : N) :
  utf8_encode_char c
  = if c <? 0x80 then Some [ascii_of_N c]
    else if c <? 0x800 then
      Some [ascii_of_N (192 + c / 64); ascii_of_N (128 + c mod 64)]
    else if c <? 0x10000 then
      if is_surrogate c then None
      else Some [ascii_of_N (224 + c / 4096);
                 ascii_of_N (128 + (c / 64) mod 64);
                 ascii_of_N (128 + c mod 64)]
    else if c <? 0x110000 then
      Some [ascii_of_N (240 + c / 262144);
            ascii_of_N (128 + (c / 4096) mod 64);
            ascii_of_N (128 + (c / 64) mod 64);
            ascii_of_N (128 + c mod 64)]
    else None.
Proof.
  unfold utf8_encode_char. rewrite !utf8_cont_value.
  change (2 ^ 0) with 1. change (2 ^ 6) with 64. change (2 ^ 12) with 4096.
  rewrite N.div_1_r.
  destruct (N.ltb_spec c 0x80); [reflexivity|].
  destruct (N.ltb_spec c 0x800); [now rewrite lead2_value|].
  destruct (N.ltb_spec c 0x10000); [now rewrite lead3_value|].
  destruct (N.ltb_spec c 0x110000); [now rewrite lead4_value|reflexivity].
Qed.

Lemma utf8_tail_some (b : ascii) (x : N) :
  utf8_tail b = Some x <->
  128 <= N_of_ascii b < 192 /\ x = N_of_ascii b - 128.
Proof.
  unfold utf8_tail. cbv zeta. change 0x3F with (N.ones 6).
  rewrite land_low. change (2 ^ 6) with 64.
  generalize (N_of_ascii b). intros n.
  destruct (N.leb_spec 0x80 n); destruct (N.ltb_spec n 0xC0); cbn [andb];
    try (split; [discriminate|intros (Hr & _); lia]).
  split.
  - intros [= <-]. split; [lia|].
    zify; Z.to_euclidean_division_equations; lia.
  - intros (_ & ->). f_equal.
    zify; Z.to_euclidean_division_equations; lia.
Qed.

Lemma utf8_tail_value (n : N) :
  128 <= n < 192 -> utf8_tail (ascii_of_N n) = Some (n - 128).
Proof.
  intros H. apply utf8_tail_some. rewrite N_ascii_embedding by lia. now split.
Qed.

Lemma join2_value (n x1 : N) :
  192 <= n < 224 -> x1 < 64 ->
  N.lor (N.shiftl (N.land n 0x1F) 6) x1 = (n - 192) * 64 + x1.
Proof.
  intros Hn Hx. change 0x1F with (N.ones 5).
  rewrite land_low, N.shiftl_mul_pow2, lor_low_bits by exact Hx.
  change (2 ^ 5) with 32. change (2 ^ 6) with 64.
  zify; Z.to_euclidean_division_equations; lia.
Qed.

Lemma join3_value (n x1 x2 : N) :
  224 <= n < 240 -> x1 < 64 -> x2 < 64 ->
  N.lor (N.shiftl (N.land n 0x0F) 12) (N.lor (N.shiftl x1 6) x2)
  = (n - 224) * 4096 + x1 * 64 + x2.
Proof.
  intros Hn H1 H2. change 0x0F with (N.ones 4).
  rewrite land_low, !N.shiftl_mul_pow2, (lor_low_bits x1 x2 6) by exact H2.
  rewrite lor_low_bits by (change (2 ^ 6) with 64; change (2 ^ 12) with 4096; lia).
  change (2 ^ 4) with 16. change (2 ^ 6) with 64. change (2 ^ 12) with 4096.
  zify; Z.to_euclidean_division_equations; lia.
Qed.

Lemma join4_value (n x1 x2 x3 : N) :
  240 <= n < 248 -> x1 < 64 -> x2 < 64 -> x3 < 64 ->
  N.lor (N.shiftl (N.land n 0x07) 18)
    (N.lor (N.shiftl x1 12) (N.lor (N.shiftl x2 6) x3))
  = (n - 240) * 262144 + x1 * 4096 + x2 * 64 + x3.
Proof.
  intros Hn H1 H2 H3. change 0x07 with (N.ones 3).
  rewrite land_low, !N.shiftl_mul_pow2, (lor_low_bits x2 x3 6) by exact H3.
  rewrite (lor_low_bits x1 _ 12)
    by (change (2 ^ 6) with 64; change (2 ^ 12) with 4096; lia).
  rewrite lor_low_bits
    by (change (2 ^ 6) with 64; change (2 ^ 12) with 4096;
        change (2 ^ 18) with 262144; lia).
  change (2 ^ 3) with 8. change (2 ^ 6) with 64. change (2 ^ 12) with 4096.
  change (2 ^ 18) with 262144.
  zify; Z.to_euclidean_division_equations; lia.
Qed.
Ltac divmod := zify; Z.to_euclidean_division_equations; lia.

Lemma some_eq {A} (a b : A) : Some a = Some b -> a = b.
Proof. congruence. Qed.

(** Every text that has UTF-8 bytes is read back from them. *)
Lemma utf8_decode_complete (s : str) :
  forall bs, utf8_encode s = Some bs -> utf8_decode bs = Some s.
Proof.
  induction s as [|c s IH]; intros bs H; cbn [utf8_encode] in H.
  - now injection H as <-.
  - rewrite utf8_encode_char_value in H.
    destruct (utf8_encode s) as [tl|]; cbv beta iota delta [obind] in H.
    2:{ repeat match type of H with
               | (if ?b then _ else _) = _ => destruct b
               end; discriminate. }
    specialize (IH tl eq_refl).
    destruct (N.ltb_spec c 0x80) as [H1|H1].
    { apply some_eq in H. subst bs. cbn [app utf8_decode]. cbv zeta.
      rewrite N_ascii_embedding by lia.
      apply N.ltb_lt in H1. rewrite H1, IH. reflexivity. }
    destruct (N.ltb_spec c 0x800) as [H2|H2].
    { apply some_eq in H. subst bs. cbn [app utf8_decode]. cbv zeta.
      rewrite N_ascii_embedding by divmod.
      replace (192 + c / 64 <? 0x80) with false by (symmetry; apply N.ltb_ge; divmod).
      replace (0xC2 <=? 192 + c / 64) with true by (symmetry; apply N.leb_le; divmod).
      replace (192 + c / 64 <? 0xE0) with true by (symmetry; apply N.ltb_lt; divmod).
      cbn [andb]. rewrite utf8_tail_value by divmod.
      cbv beta iota delta [obind]. rewrite IH.
      rewrite join2_value by divmod. do 2 f_equal. divmod. }
    destruct (N.ltb_spec c 0x10000) as [H3|H3].
    { destruct (is_surrogate c) eqn:Hsur; [discriminate|].
      apply some_eq in H. subst bs. cbn [app utf8_decode]. cbv zeta.
      rewrite N_ascii_embedding by divmod.
      replace (224 + c / 4096 <? 0x80) with false by (symmetry; apply N.ltb_ge; divmod).
      replace (0xC2 <=? 224 + c / 4096) with true by (symmetry; apply N.leb_le; divmod).
      replace (224 + c / 4096 <? 0xE0) with false by (symmetry; apply N.ltb_ge; divmod).
      replace (0xE0 <=? 224 + c / 4096) with true by (symmetry; apply N.leb_le; divmod).
      replace (224 + c / 4096 <? 0xF0) with true by (symmetry; apply N.ltb_lt; divmod).
      cbn [andb]. rewrite !utf8_tail_value by divmod.
      cbv beta iota delta [obind]. rewrite join3_value by divmod.
      replace ((224 + c / 4096 - 224) * 4096 + (128 + (c / 64) mod 64 - 128) * 64
               + (128 + c mod 64 - 128)) with c by divmod.
      replace (c <? 0x800) with false by (symmetry; apply N.ltb_ge; lia).
      rewrite Hsur. cbn [orb]. now rewrite IH. }
    destruct (N.ltb_spec c 0x110000) as [H4|H4]; [|discriminate].
    apply some_eq in H. subst bs. cbn [app utf8_decode]. cbv zeta.
    rewrite N_ascii_embedding by divmod.
    replace (240 + c / 262144 <? 0x80) with false by (symmetry; apply N.ltb_ge; divmod).
    replace (0xC2 <=? 240 + c / 262144) with true by (symmetry; apply N.leb_le; divmod).
    replace (240 + c / 262144 <? 0xE0) with false by (symmetry; apply N.ltb_ge; divmod).
    replace (0xE0 <=? 240 + c / 262144) with true by (symmetry; apply N.leb_le; divmod).
    replace (240 + c / 262144 <? 0xF0) with false by (symmetry; apply N.ltb_ge; divmod).
    replace (0xF0 <=? 240 + c / 262144) with true by (symmetry; apply N.leb_le; divmod).
    replace (240 + c / 262144 <? 0xF5) with true by (symmetry; apply N.ltb_lt; divmod).
    cbn [andb]. rewrite !utf8_tail_value by divmod.
    cbv beta iota delta [obind]. rewrite join4_value by divmod.
    replace ((240 + c / 262144 - 240) * 262144
             + (128 + (c / 4096) mod 64 - 128) * 4096
             + (128 + (c / 64) mod 64 - 128) * 64
             + (128 + c mod 64 - 128)) with c by divmod.
    replace (c <? 0x10000) with false by (symmetry; apply N.ltb_ge; lia).
    replace (0x110000 <=? c) with false by (symmetry; apply N.leb_gt; lia).
    cbn [orb]. now rewrite IH.
Qed.

Lemma is_surrogate_false (c : N) :
  is_surrogate c = false -> c < 0xD800 \/ 0xDFFF < c.
Proof.
  unfold is_surrogate.
  destruct (N.leb_spec 0xD800 c); destruct (N.leb_spec c 0xDFFF); cbn [andb];
    try discriminate; lia.
Qed.

(** What [utf8_decode] returns is a text whose UTF-8 bytes are the input. *)
Lemma utf8_decode_sound (n : nat) :
  forall bs s, (List.length bs <= n)%nat ->
    utf8_decode bs = Some s -> utf8_encode s = Some bs.
Proof.
  induction n as [|n IH]; intros bs s Hn H.
  - destruct bs; [|cbn in Hn; lia]. now apply some_eq in H as <-.
  - destruct bs as [|b rest]; [now apply some_eq in H as <-|].
    cbn [List.length] in Hn. cbn [utf8_decode] in H. cbv zeta in H.
    rewrite <- (ascii_N_embedding b).
    pose proof (N_ascii_bounded b) as Hb.
    set (k := N_of_ascii b) in *. clearbody k.
    destruct (N.ltb_spec k 0x80) as [H1|H1].
    { destruct (utf8_decode rest) as [tl|] eqn:Et; [|discriminate].
      apply some_eq in H. subst s. apply IH in Et; [|lia].
      cbn [utf8_encode]. rewrite utf8_encode_char_value, Et.
      apply N.ltb_lt in H1. rewrite H1. reflexivity. }
    destruct (N.ltb_spec k 0xE0) as [H3|H3].
    { destruct (N.leb_spec 0xC2 k) as [H2|H2]; cbn [andb] in H.
      2:{ destruct (N.leb_spec 0xE0 k); [lia|]. destruct (N.leb_spec 0xF0 k); [lia|].
          cbn [andb] in H. discriminate. }
      destruct rest as [|b1 rest1]; [discriminate|].
      destruct (utf8_tail b1) as [x1|] eqn:E1; [|discriminate].
      apply utf8_tail_some in E1 as (R1 & ->).
      cbv beta iota delta [obind] in H.
      destruct (utf8_decode rest1) as [tl|] eqn:Et; [|discriminate].
      apply some_eq in H. subst s. apply IH in Et; [|cbn [List.length] in Hn; lia].
      rewrite join2_value by lia.
      pose proof (ascii_N_embedding b1) as Eb1.
      set (k1 := N_of_ascii b1) in *. clearbody k1. rewrite <- Eb1.
      cbn [utf8_encode]. rewrite utf8_encode_char_value, Et.
      replace (_ <? 0x80) with false by (symmetry; apply N.ltb_ge; lia).
      replace (_ <? 0x800) with true by (symmetry; apply N.ltb_lt; lia).
      cbv beta iota delta [obind]. cbn [app]. do 2 f_equal; [|f_equal]; f_equal; divmod. }
    rewrite andb_false_r in H.
    destruct (N.leb_spec 0xE0 k) as [H4|H4]; [|lia].
    destruct (N.ltb_spec k 0xF0) as [H5|H5]; cbn [andb] in H.
    { destruct rest as [|b1 [|b2 rest2]]; try discriminate.
      destruct (utf8_tail b1) as [x1|] eqn:E1; [|discriminate].
      destruct (utf8_tail b2) as [x2|] eqn:E2; [|discriminate].
      apply utf8_tail_some in E1 as (R1 & ->), E2 as (R2 & ->).
      cbv beta iota delta [obind] in H. rewrite join3_value in H by lia.
      pose proof (ascii_N_embedding b1) as Eb1.
      pose proof (ascii_N_embedding b2) as Eb2.
      set (k1 := N_of_ascii b1) in *. set (k2 := N_of_ascii b2) in *.
      clearbody k1 k2. rewrite <- Eb1, <- Eb2.
      set (c := (k - 224) * 4096 + (k1 - 128) * 64 + (k2 - 128)) in *.
      destruct (N.ltb_spec c 0x800) as [H6|H6]; [discriminate|].
      destruct (is_surrogate c) eqn:Hsur; [discriminate|]. cbn [orb] in H.
      destruct (utf8_decode rest2) as [tl|] eqn:Et; [|discriminate].
      apply some_eq in H. subst s.
      apply IH in Et; [|cbn [List.length] in Hn; lia].
      cbn [utf8_encode]. rewrite utf8_encode_char_value, Et, Hsur.
      replace (c <? 0x80) with false by (symmetry; apply N.ltb_ge; lia).
      replace (c <? 0x800) with false by (symmetry; apply N.ltb_ge; lia).
      replace (c <? 0x10000) with true by (symmetry; apply N.ltb_lt; subst c; lia).
      cbv beta iota delta [obind]. cbn [app]. subst c.
      do 2 f_equal; [|f_equal; [|f_equal]]; f_equal; divmod. }
    destruct (N.leb_spec 0xF0 k) as [H6|H6]; [|lia].
    destruct (N.ltb_spec k 0xF5) as [H7|H7]; cbn [andb] in H; [|discriminate].
    destruct rest as [|b1 [|b2 [|b3 rest3]]]; try discriminate.
    destruct (utf8_tail b1) as [x1|] eqn:E1; [|discriminate].
    destruct (utf8_tail b2) as [x2|] eqn:E2; [|discriminate].
    destruct (utf8_tail b3) as [x3|] eqn:E3; [|discriminate].
    apply utf8_tail_some in E1 as (R1 & ->), E2 as (R2 & ->), E3 as (R3 & ->).
    cbv beta iota delta [obind] in H. rewrite join4_value in H by lia.
    pose proof (ascii_N_embedding b1) as Eb1.
    pose proof (ascii_N_embedding b2) as Eb2.
    pose proof (ascii_N_embedding b3) as Eb3.
    set (k1 := N_of_ascii b1) in *. set (k2 := N_of_ascii b2) in *.
    set (k3 := N_of_ascii b3) in *. clearbody k1 k2 k3.
    rewrite <- Eb1, <- Eb2, <- Eb3.
    set (c := (k - 240) * 262144 + (k1 - 128) * 4096 + (k2 - 128) * 64
              + (k3 - 128)) in *.
    destruct (N.ltb_spec c 0x10000) as [H8|H8]; [discriminate|].
    destruct (N.leb_spec 0x110000 c) as [H9|H9]; [discriminate|]. cbn [orb] in H.
    destruct (utf8_decode rest3) as [tl|] eqn:Et; [|discriminate].
    apply some_eq in H. subst s.
    apply IH in Et; [|cbn [List.length] in Hn; lia].
    cbn [utf8_encode]. rewrite utf8_encode_char_value, Et.
    replace (c <? 0x80) with false by (symmetry; apply N.ltb_ge; lia).
    replace (c <? 0x800) with false by (symmetry; apply N.ltb_ge; lia).
    replace (c <? 0x10000) with false by (symmetry; apply N.ltb_ge; lia).
    replace (c <? 0x110000) with true by (symmetry; apply N.ltb_lt; lia).
    cbv beta iota delta [obind]. cbn [app]. subst c.
    do 2 f_equal; [|f_equal; [|f_equal; [|f_equal]]]; f_equal; divmod.
Qed.

(** The bytes that [utf8_decode] accepts are exactly the UTF-8 encodings. *)
Lemma utf8_decode_iff (bs : bytes) (s : str) :
  utf8_decode bs = Some s <-> utf8_encode s = Some bs.
Proof.
  split; [apply (utf8_decode_sound (List.length bs)); lia|apply utf8_decode_complete].
Qed.
(** Opening an envelope succeeds exactly on the valid envelopes, and gives
    the text that was wrapped. *)
Lemma unwrap_iff (s text : str) :
  unwrap s = Some text <-> envelope_of s text.
Proof.
  unfold unwrap, envelope_of. split.
  - intros H.
    destruct (ascii_bytes s) as [cs|] eqn:Ea;
      cbv beta iota delta [obind] in H; [|discriminate].
    destruct (b64decode cs) as [payload|] eqn:Eb;
      cbv beta iota delta [obind] in H; [|discriminate].
    exists cs, payload. split; [now apply ascii_bytes_sound|].
    split; [now apply b64decode_sound|now apply utf8_decode_iff].
  - intros (cs & payload & -> & Hb & Hu).
    rewrite ascii_bytes_of_ascii by (eapply b64_text_ascii; eassumption).
    cbv beta iota delta [obind]. rewrite (b64decode_complete _ _ Hb).
    cbv beta iota delta [obind]. now apply utf8_decode_iff.
Qed.

(** ** The scanner against the grammar: white space and strings *)

Lemma is_ws_iff (c : N) : is_ws c = true <-> ws_char c.
Proof.
  unfold is_ws, ws_char. rewrite !orb_true_iff, !N.eqb_eq. tauto.
Qed.

Lemma skip_ws_sound (s : str) :
  exists w, s = w ++ skip_ws s /\ ws w.
Proof.
  induction s as [|c s (w & Hs & Hw)]; [exists []; split; [reflexivity|constructor]|].
  cbn [skip_ws]. destruct (is_ws c) eqn:E.
  - exists (c :: w). cbn [app]. rewrite <- Hs. split; [reflexivity|].
    constructor; [now apply is_ws_iff|exact Hw].
  - exists []. split; [reflexivity|constructor].
Qed.

Lemma skip_ws_complete (w r : str) :
  ws w -> ws_stop r -> skip_ws (w ++ r) = r.
Proof.
  intros Hw Hr. induction Hw as [|c w Hc _ IH]; cbn [app skip_ws].
  - destruct r as [|c r]; [reflexivity|]. cbn [skip_ws].
    destruct (is_ws c) eqn:E; [|reflexivity].
    apply is_ws_iff in E. now elim Hr.
  - apply is_ws_iff in Hc. now rewrite Hc.
Qed.

Lemma hexval_iff (c d : N) : hexval c = Some d <-> hex_digit c d.
Proof.
  unfold hexval, hex_digit.
  destruct (N.leb_spec 48 c); destruct (N.leb_spec c 57); cbn [andb];
    try (split; [intros [= <-]; left; split; [lia|reflexivity]
                |intros [(_ & ->)|[(? & _)|(? & _)]]; [reflexivity|lia..]]);
    (destruct (N.leb_spec 97 c); destruct (N.leb_spec c 102); cbn [andb];
     try (split; [intros [= <-]; right; left; split; [lia|reflexivity]
                 |intros [(? & _)|[(_ & ->)|(? & _)]]; [lia|reflexivity|lia]]));
    (destruct (N.leb_spec 65 c); destruct (N.leb_spec c 70); cbn [andb];
     try (split; [intros [= <-]; right; right; split; [lia|reflexivity]
                 |intros [(? & _)|[(? & _)|(_ & ->)]]; [lia|lia|reflexivity]]));
    (split; [discriminate|intros [(? & _)|[(? & _)|(? & _)]]; lia]).
Qed.

Lemma decode_uXXXX_iff (h1 h2 h3 h4 n : N) :
  decode_uXXXX h1 h2 h3 h4 = Some n <-> hex4_value h1 h2 h3 h4 n.
Proof.
  unfold decode_uXXXX, hex4_value. split.
  - intros H.
    destruct (hexval h1) as [d1|] eqn:E1; [|discriminate].
    destruct (hexval h2) as [d2|] eqn:E2; [|discriminate].
    destruct (hexval h3) as [d3|] eqn:E3; [|discriminate].
    destruct (hexval h4) as [d4|] eqn:E4; [|discriminate].
    cbv beta iota delta [obind] in H. apply some_eq in H.
    exists d1, d2, d3, d4. rewrite <- !hexval_iff. repeat split; try assumption. lia.
  - intros (d1 & d2 & d3 & d4 & H1 & H2 & H3 & H4 & ->).
    apply hexval_iff in H1, H2, H3, H4. rewrite H1, H2, H3, H4.
    cbv beta iota delta [obind]. f_equal. lia.
Qed.

Lemma backslash_char_iff (e c : N) :
  backslash_char e = Some c <-> short_escape e c.
Proof.
  unfold backslash_char, short_escape. cbn [In].
  repeat match goal with
         | |- context [?x =? ?y] =>
             destruct (N.eqb_spec x y) as [->|?];
             [split; [intros [= <-]; tauto
                     |intros H; repeat (destruct H as [H|H]; try (inversion H; subst; try reflexivity; try lia; fail))]|]
         end.
  split; [discriminate|].
  intros H; repeat (destruct H as [H|H]; try (inversion H; subst; try lia; fail)).
Qed.
Lemma scanstring_u_eq (h1 h2 h3 h4 : N) (X : str) :
  scanstring (92 :: 117 :: h1 :: h2 :: h3 :: h4 :: X)
  = (uni <-? decode_uXXXX h1 h2 h3 h4 ;;
     if (0xd800 <=? uni) && (uni <=? 0xdbff) then
       match X with
       | b :: v :: rest3 =>
           if (b =? 92) && (v =? 117) then
             match rest3 with
             | g1 :: g2 :: g3 :: g4 :: rest4 =>
                 uni2 <-? decode_uXXXX g1 g2 g3 g4 ;;
                 if (0xdc00 <=? uni2) && (uni2 <=? 0xdfff) then
                   option_map
                     (cons_fst
                        (0x10000 + N.lor (N.shiftl (uni - 0xd800) 10)
                                         (uni2 - 0xdc00)))
                     (scanstring rest4)
                 else option_map (cons_fst uni) (scanstring X)
             | _ => None
             end
           else option_map (cons_fst uni) (scanstring X)
       | _ => option_map (cons_fst uni) (scanstring X)
       end
     else option_map (cons_fst uni) (scanstring X)).
Proof. reflexivity. Qed.

Lemma high_unit_iff (n : N) :
  (0xd800 <=? n) && (n <=? 0xdbff) = true <-> high_unit n.
Proof. unfold high_unit. rewrite andb_true_iff, !N.leb_le. tauto. Qed.

Lemma low_unit_iff (n : N) :
  (0xdc00 <=? n) && (n <=? 0xdfff) = true <-> low_unit n.
Proof. unfold low_unit. rewrite andb_true_iff, !N.leb_le. tauto. Qed.

Lemma pair_value (hi lo : N) :
  low_unit lo ->
  0x10000 + N.lor (N.shiftl (hi - 0xd800) 10) (lo - 0xdc00)
  = 0x10000 + 1024 * (hi - 0xD800) + (lo - 0xDC00).
Proof.
  intros (H1 & H2). rewrite N.shiftl_mul_pow2, lor_low_bits.
  - change (2 ^ 10) with 1024. lia.
  - change (2 ^ 10) with 1024. lia.
Qed.

Lemma option_map_cons_fst_some (c : N) (o : option (str * str)) (t r : str) :
  option_map (cons_fst c) o = Some (t, r) ->
  exists t', o = Some (t', r) /\ t = c :: t'.
Proof.
  destruct o as [[t' r']|]; [|discriminate].
  unfold cons_fst. cbn [option_map fst snd]. intros H. apply some_eq in H.
  exists t'. split; congruence.
Qed.

(** What begins with the escape of a low surrogate is read as such. *)
Lemma low_escape_first_app (l r : str) :
  low_escape_first l ->
  exists g1 g2 g3 g4 n rest4,
    l ++ r = 92 :: 117 :: g1 :: g2 :: g3 :: g4 :: rest4
    /\ decode_uXXXX g1 g2 g3 g4 = Some n /\ low_unit n.
Proof.
  intros (g1 & g2 & g3 & g4 & n & l' & -> & Hv & Hl).
  exists g1, g2, g3, g4, n, (l' ++ r). split; [reflexivity|].
  split; [now apply decode_uXXXX_iff|exact Hl].
Qed.

(** What [scanstring] reads is a string of the grammar, up to its closing
    quote. *)
Lemma scanstring_sound (n : nat) :
  forall s t r, (List.length s <= n)%nat -> scanstring s = Some (t, r) ->
    exists l, s = l ++ 34 :: r /\ jchars l t.
Proof.
  induction n as [|n IH]; intros s t r Hn H.
  - destruct s; [discriminate|cbn in Hn; lia].
  - destruct s as [|c rest]; [discriminate|].
    cbn [List.length] in Hn.
    assert (Hrec : forall X c' t',
               (List.length X <= n)%nat ->
               option_map (cons_fst c') (scanstring X) = Some (t', r) ->
               exists l t'', X = l ++ 34 :: r /\ jchars l t'' /\ t' = c' :: t'').
    { intros X c' t' HX HS.
      apply option_map_cons_fst_some in HS as (t'' & HS & ->).
      apply IH in HS as (l & -> & Hl); [|exact HX].
      exists l, t''. split; [reflexivity|]. split; [exact Hl|reflexivity]. }
    destruct (N.eqb_spec c 34) as [->|N34].
    { cbn [scanstring] in H. change (34 =? 34) with true in H. cbv iota in H.
      apply some_eq in H. injection H as <- <-.
      exists []. split; [reflexivity|constructor]. }
    destruct (N.eqb_spec c 92) as [->|N92].
    + destruct rest as [|esc rest1]; [discriminate|]. cbn [List.length] in Hn.
      destruct (N.eqb_spec esc 117) as [->|N117].
      * destruct rest1 as [|h1 [|h2 [|h3 [|h4 rest2]]]]; try discriminate.
        cbn [List.length] in Hn. rewrite scanstring_u_eq in H.
        destruct (decode_uXXXX h1 h2 h3 h4) as [uni|] eqn:Eu; [|discriminate].
        cbv beta iota delta [obind] in H.
        apply decode_uXXXX_iff in Eu.
        assert (Hsingle : forall X t',
                   X = rest2 ->
                   (high_unit uni -> forall l, X = l ++ 34 :: r -> ~ low_escape_first l) ->
                   option_map (cons_fst uni) (scanstring X) = Some (t', r) ->
                   exists l, 92 :: 117 :: h1 :: h2 :: h3 :: h4 :: X = l ++ 34 :: r
                             /\ jchars l t').
        { intros X t' -> Hno HS.
          apply Hrec in HS as (l & t'' & -> & Hl & ->); [|lia].
          exists (92 :: 117 :: h1 :: h2 :: h3 :: h4 :: l). split; [reflexivity|].
          apply jchars_unit; [exact Eu| |exact Hl].
          intros (Hh & Hlow). now apply (Hno Hh l). }
        destruct ((0xd800 <=? uni) && (uni <=? 0xdbff)) eqn:Eh.
        2:{ apply (Hsingle rest2 t eq_refl); [|exact H].
            intros Hh. apply high_unit_iff in Hh. congruence. }
        destruct rest2 as [|b [|v rest3]].
        { discriminate. }
        { apply (Hsingle [b] t eq_refl); [|exact H].
          intros _ l El Hlow.
          destruct (low_escape_first_app l (34 :: r) Hlow)
            as (g1 & g2 & g3 & g4 & m & rest4 & E & _).
          rewrite <- El in E. discriminate. }
        destruct ((b =? 92) && (v =? 117)) eqn:Ebv.
        2:{ apply (Hsingle (b :: v :: rest3) t eq_refl); [|exact H].
            intros _ l El Hlow.
            destruct (low_escape_first_app l (34 :: r) Hlow)
              as (g1 & g2 & g3 & g4 & m & rest4 & E & _).
            rewrite <- El in E. injection E as -> -> _.
            discriminate. }
        apply andb_prop in Ebv as (Eb & Ev).
        apply N.eqb_eq in Eb, Ev. subst b v.
        destruct rest3 as [|g1 [|g2 [|g3 [|g4 rest4]]]]; try discriminate.
        destruct (decode_uXXXX g1 g2 g3 g4) as [uni2|] eqn:Eu2; [|discriminate].
        cbv beta iota delta [obind] in H.
        destruct ((0xdc00 <=? uni2) && (uni2 <=? 0xdfff)) eqn:El.
        -- apply high_unit_iff in Eh. apply low_unit_iff in El.
           rewrite pair_value in H by exact El.
           apply Hrec in H as (l & t'' & -> & Hl & ->);
             [|cbn [List.length] in Hn; lia].
           exists (92 :: 117 :: h1 :: h2 :: h3 :: h4
                     :: 92 :: 117 :: g1 :: g2 :: g3 :: g4 :: l).
           split; [reflexivity|].
           apply jchars_pair; try assumption. now apply decode_uXXXX_iff.
        -- apply (Hsingle (92 :: 117 :: g1 :: g2 :: g3 :: g4 :: rest4) t eq_refl);
             [|exact H].
           intros _ l E Hlow.
           destruct (low_escape_first_app l (34 :: r) Hlow)
             as (k1 & k2 & k3 & k4 & m & rest4' & E' & Hm & Hlo).
           rewrite <- E in E'. injection E' as <- <- <- <- _.
           rewrite Hm in Eu2. apply some_eq in Eu2. subst m.
           apply low_unit_iff in Hlo. congruence.
      * cbn [scanstring] in H. change (92 =? 34) with false in H.
        change (92 =? 92) with true in H. cbv iota in H.
        apply N.eqb_neq in N117. rewrite N117 in H.
        destruct (backslash_char esc) as [ch|] eqn:Eb; [|discriminate].
        cbv beta iota delta [obind] in H.
        apply Hrec in H as (l & t'' & -> & Hl & ->); [|lia].
        exists (92 :: esc :: l). split; [reflexivity|].
        apply jchars_short; [now apply backslash_char_iff|exact Hl].
    + cbn [scanstring] in H.
      apply N.eqb_neq in N34, N92. rewrite N34, N92 in H.
      destruct (N.ltb_spec c 32) as [H32|H32]; [discriminate|].
      apply Hrec in H as (l & t'' & -> & Hl & ->); [|lia].
      exists (c :: l). split; [reflexivity|].
      apply N.eqb_neq in N34, N92. now apply jchars_plain.
Qed.

Lemma short_escape_not_u (e c : N) : short_escape e c -> (e =? 117) = false.
Proof.
  unfold short_escape. cbn [In]. intros H. apply N.eqb_neq.
  repeat (destruct H as [H|H]; [inversion H; subst; discriminate|]).
  destruct H.
Qed.

(** Every string of the grammar is read by [scanstring], whatever follows
    its closing quote. *)
Lemma scanstring_complete (l t : str) :
  jchars l t -> forall r, scanstring (l ++ 34 :: r) = Some (t, r).
Proof.
  induction 1 as [|c l t H32 N34 N92 _ IH|e c l t He _ IH
                  |h1 h2 h3 h4 n l t Hv Hno Hl IH
                  |h1 h2 h3 h4 g1 g2 g3 g4 hi lo l t Hh Hhi Hg Hlo _ IH];
    intros r.
  - reflexivity.
  - cbn [app]. rewrite scanstring_plain, IH; [reflexivity|..].
    all: first [now apply N.eqb_neq | apply N.ltb_ge; lia].
  - cbn [app].
    rewrite (scanstring_short e c), IH;
      [reflexivity|now apply (short_escape_not_u e c)|now apply backslash_char_iff].
  - cbn [app]. rewrite scanstring_u_eq.
    apply decode_uXXXX_iff in Hv. rewrite Hv. cbv beta iota delta [obind].
    specialize (IH r).
    destruct ((0xd800 <=? n) && (n <=? 0xdbff)) eqn:Eh;
      [|rewrite IH; reflexivity].
    apply high_unit_iff in Eh.
    destruct l as [|b [|v rest3]]; cbn [app];
      try (cbn [app] in IH; rewrite IH; reflexivity).
    + destruct r as [|v r]; cbn [app] in IH; rewrite ?IH; reflexivity.
    + destruct ((b =? 92) && (34 =? 117)) eqn:E;
        [apply andb_prop in E as (_ & E); discriminate|].
      cbn [app] in IH. rewrite IH. reflexivity.
    + cbn [app] in IH.
      destruct ((b =? 92) && (v =? 117)) eqn:Ebv; [|rewrite IH; reflexivity].
      apply andb_prop in Ebv as (Eb & Ev). apply N.eqb_eq in Eb, Ev. subst b v.
      inversion Hl as [|? ? ? ? ? ? ? E1 E2|e c l0 t0 He Hl0 E1 E2
                       |k1 k2 k3 k4 m l0 t0 Hm Hno' Hl0 E1 E2
                       |k1 k2 k3 k4 j1 j2 j3 j4 hi lo l0 t0 Hk Hhi Hj Hlo Hl0 E1 E2];
        subst; cbn [app] in IH.
      * congruence.
      * apply short_escape_not_u in He. discriminate.
      * cbn [app]. apply decode_uXXXX_iff in Hm as Hm'. rewrite Hm'.
        cbv beta iota delta [obind].
        destruct ((0xdc00 <=? m) && (m <=? 0xdfff)) eqn:El;
          [|rewrite IH; reflexivity].
        exfalso. apply Hno. split; [exact Eh|].
        apply low_unit_iff in El.
        exists k1, k2, k3, k4, m, l0.
        split; [reflexivity|]. split; assumption.
      * cbn [app]. apply decode_uXXXX_iff in Hk as Hk'. rewrite Hk'.
        cbv beta iota delta [obind].
        destruct ((0xdc00 <=? hi) && (hi <=? 0xdfff)) eqn:El;
          [|rewrite IH; reflexivity].
        apply low_unit_iff in El. unfold high_unit, low_unit in *. lia.
  - cbn [app].
    apply decode_uXXXX_iff in Hh, Hg.
    rewrite (scanstring_u_pair _ _ _ _ _ _ _ _ hi lo), IH;
      try assumption; try (now apply high_unit_iff); try (now apply low_unit_iff).
    cbn [option_map]. unfold cons_fst. cbn [fst snd].
    now rewrite pair_value.
Qed.
(** ** The scanner against the grammar: numbers *)

Lemma is_digit_iff (c : N) : is_digit c = true <-> digit c.
Proof. unfold is_digit, digit. rewrite andb_true_iff, !N.leb_le. tauto. Qed.

Lemma is_digit_false (c : N) : is_digit c = false <-> ~ digit c.
Proof. rewrite <- is_digit_iff. destruct (is_digit c); split; congruence. Qed.

Lemma span_digits_sound (s : str) :
  s = fst (span_digits s) ++ snd (span_digits s)
  /\ digits (fst (span_digits s)).
Proof.
  induction s as [|c s (IH1 & IH2)]; cbn [span_digits].
  - split; [reflexivity|constructor].
  - destruct (is_digit c) eqn:E; [|split; [reflexivity|constructor]].
    destruct (span_digits s) as [ds r]. cbn [fst snd] in *.
    split; [cbn [app]; congruence|].
    constructor; [now apply is_digit_iff|exact IH2].
Qed.

Lemma span_digits_complete (ds r : str) :
  digits ds -> digits_stop r -> span_digits (ds ++ r) = (ds, r).
Proof.
  intros Hd Hr. induction Hd as [|c ds Hc _ IH]; cbn [app].
  - destruct r as [|c r]; [reflexivity|]. cbn [span_digits].
    apply is_digit_false in Hr. now rewrite Hr.
  - cbn [span_digits]. apply is_digit_iff in Hc. now rewrite Hc, IH.
Qed.

Lemma digits_value_acc (ds : str) :
  forall acc : Z,
    fold_left (fun acc d => (acc * 10 + Z.of_N (d - 48))%Z) ds acc
    = (acc * 10 ^ Z.of_nat (List.length ds) + decimal_value ds)%Z.
Proof.
  induction ds as [|d ds IH]; intros acc; cbn [fold_left decimal_value List.length].
  - change (10 ^ Z.of_nat 0)%Z with 1%Z. lia.
  - rewrite IH, Nat2Z.inj_succ, Z.pow_succ_r by lia. ring.
Qed.

Lemma digits_value_decimal (ds : str) : digits_value ds = decimal_value ds.
Proof. unfold digits_value. rewrite digits_value_acc. lia. Qed.

Lemma match_integer_eq (s : str) :
  match_integer s
  = match s with
    | c :: r => if c =? 45 then unsigned_integer [45] r
                else unsigned_integer [] s
    | [] => None
    end.
Proof.
  unfold match_integer. destruct s as [|c r]; [reflexivity|].
  destruct (c =? 45); reflexivity.
Qed.

Lemma unsigned_integer_sound (sign s1 int r : str) :
  unsigned_integer sign s1 = Some (int, r) ->
  exists i, int = sign ++ i /\ s1 = i ++ r /\ int_part i.
Proof.
  unfold unsigned_integer. destruct s1 as [|d r0]; [discriminate|].
  destruct (N.eqb_spec d 48) as [->|N48].
  - intros H. apply some_eq in H. injection H as <- <-.
    exists [48]. repeat split. now left.
  - destruct (is_digit d) eqn:Ed; [|discriminate].
    destruct (span_digits_sound r0) as (E & Hd).
    destruct (span_digits r0) as [ds r']. cbn [fst snd] in *.
    intros H. apply some_eq in H. injection H as <- <-.
    exists (d :: ds). split; [reflexivity|]. split; [cbn [app]; congruence|].
    right. exists d, ds. split; [reflexivity|]. split; [|exact Hd].
    apply is_digit_iff in Ed. unfold digit in Ed. lia.
Qed.

Lemma unsigned_integer_complete (sign i r : str) :
  int_part i -> digits_stop r ->
  unsigned_integer sign (i ++ r) = Some (sign ++ i, r).
Proof.
  intros [->|(d & ds & -> & Hd & Hds)] Hr; [reflexivity|].
  cbn [app]. unfold unsigned_integer.
  destruct (N.eqb_spec d 48) as [->|_]; [lia|].
  assert (Ed : is_digit d = true) by (apply is_digit_iff; unfold digit; lia).
  now rewrite Ed, span_digits_complete.
Qed.

Lemma int_part_head (i : str) :
  int_part i -> exists d ds, i = d :: ds /\ digit d.
Proof.
  intros [->|(d & ds & -> & Hd & _)].
  - exists 48, []. split; [reflexivity|unfold digit; lia].
  - exists d, ds. split; [reflexivity|unfold digit; lia].
Qed.

Lemma match_frac_sound (s : str) :
  s = fst (match_frac s) ++ snd (match_frac s)
  /\ (fst (match_frac s) = [] \/ frac_part (fst (match_frac s))).
Proof.
  unfold match_frac. destruct s as [|dot [|d r]]; try (split; [reflexivity|now left]).
  destruct (N.eqb_spec dot 46) as [->|_]; cbn [andb];
    [|split; [reflexivity|now left]].
  destruct (is_digit d) eqn:Ed; [|split; [reflexivity|now left]].
  destruct (span_digits_sound r) as (E & Hd).
  destruct (span_digits r) as [ds r']. cbn [fst snd] in *.
  split; [cbn [app]; congruence|]. right. exists d, ds.
  split; [reflexivity|]. constructor; [now apply is_digit_iff|exact Hd].
Qed.

Lemma match_frac_complete (f r : str) :
  frac_part f -> digits_stop r -> match_frac (f ++ r) = (f, r).
Proof.
  intros (d & ds & -> & Hd) Hr. inversion Hd as [|? ? Hd1 Hds]; subst.
  cbn [app]. unfold match_frac. change (46 =? 46) with true. cbn [andb].
  apply is_digit_iff in Hd1. now rewrite Hd1, span_digits_complete.
Qed.

Lemma match_frac_none (r : str) :
  match r with [] => True | c :: _ => c <> 46 end -> match_frac r = ([], r).
Proof.
  unfold match_frac. destruct r as [|c [|d r]]; try reflexivity.
  intros Hc. apply N.eqb_neq in Hc. now rewrite Hc.
Qed.

Lemma match_exp_sound (s : str) :
  s = fst (match_exp s) ++ snd (match_exp s)
  /\ (fst (match_exp s) = [] \/ exp_part (fst (match_exp s))).
Proof.
  unfold match_exp. destruct s as [|e r]; [split; [reflexivity|now left]|].
  destruct ((e =? 101) || (e =? 69)) eqn:Ee; [|split; [reflexivity|now left]].
  assert (He : e = 101 \/ e = 69).
  { apply orb_prop in Ee as [E|E]; apply N.eqb_eq in E; tauto. }
  destruct r as [|c r1]; [split; [reflexivity|now left]|].
  destruct ((c =? 45) || (c =? 43)) eqn:Ec.
  - destruct r1 as [|d r2]; [split; [reflexivity|now left]|].
    destruct (is_digit d) eqn:Ed; [|split; [reflexivity|now left]].
    destruct (span_digits_sound r2) as (E & Hd).
    destruct (span_digits r2) as [ds r']. cbn [fst snd] in *.
    split; [cbn [app]; congruence|]. right. exists e, [c], d, ds.
    split; [reflexivity|]. split; [exact He|]. split.
    + apply orb_prop in Ec as [E'|E']; apply N.eqb_eq in E'; subst c; tauto.
    + constructor; [now apply is_digit_iff|exact Hd].
  - destruct (is_digit c) eqn:Ed; [|split; [reflexivity|now left]].
    destruct (span_digits_sound r1) as (E & Hd).
    destruct (span_digits r1) as [ds r']. cbn [fst snd] in *.
    split; [cbn [app]; congruence|]. right. exists e, [], c, ds.
    split; [reflexivity|]. split; [exact He|]. split; [now left|].
    constructor; [now apply is_digit_iff|exact Hd].
Qed.

Lemma match_exp_complete (e r : str) :
  exp_part e -> digits_stop r -> match_exp (e ++ r) = (e, r).
Proof.
  intros (c & sg & d & ds & -> & Hc & Hsg & Hd) Hr.
  inversion Hd as [|? ? Hd1 Hds]; subst.
  assert (Ec : (c =? 101) || (c =? 69) = true).
  { destruct Hc as [-> | ->]; reflexivity. }
  assert (Hd45 : (d =? 45) || (d =? 43) = false).
  { unfold digit in Hd1.
    destruct (N.eqb_spec d 45); [lia|]. destruct (N.eqb_spec d 43); [lia|reflexivity]. }
  apply is_digit_iff in Hd1.
  destruct Hsg as [->|[->| ->]]; cbn [app]; unfold match_exp; rewrite Ec.
  - now rewrite Hd45, Hd1, span_digits_complete.
  - change ((43 =? 45) || (43 =? 43)) with true. cbv iota.
    now rewrite Hd1, span_digits_complete.
  - change ((45 =? 45) || (45 =? 43)) with true. cbv iota.
    now rewrite Hd1, span_digits_complete.
Qed.

Lemma match_exp_none (r : str) :
  match r with [] => True | c :: _ => c <> 101 /\ c <> 69 end ->
  match_exp r = ([], r).
Proof.
  unfold match_exp. destruct r as [|c r]; [reflexivity|].
  intros (H1 & H2). apply N.eqb_neq in H1, H2. now rewrite H1, H2.
Qed.

Lemma match_integer_sound (s int r : str) :
  match_integer s = Some (int, r) ->
  exists sg i,
    (sg = [] \/ sg = [45]) /\ int = sg ++ i /\ s = sg ++ i ++ r /\ int_part i.
Proof.
  rewrite match_integer_eq. destruct s as [|c s']; [discriminate|].
  destruct (N.eqb_spec c 45) as [->|_]; intros H;
    apply unsigned_integer_sound in H as (i & -> & E & Hi).
  - exists [45], i. rewrite E. repeat split; tauto.
  - exists [], i. rewrite E. repeat split; tauto.
Qed.

Lemma match_integer_complete (sg i r : str) :
  sg = [] \/ sg = [45] -> int_part i -> digits_stop r ->
  match_integer (sg ++ i ++ r) = Some (sg ++ i, r).
Proof.
  intros Hsg Hi Hr. rewrite match_integer_eq.
  destruct Hsg as [-> | ->]; cbn [app].
  - destruct (int_part_head i Hi) as (d & ds & E & Hd).
    pose proof (unsigned_integer_complete [] i r Hi Hr) as Hu.
    subst i. cbn [app] in *. unfold digit in Hd.
    destruct (N.eqb_spec d 45); [lia|exact Hu].
  - change (45 =? 45) with true. cbv iota.
    now apply unsigned_integer_complete.
Qed.

Lemma value_stop_digits (r : str) : value_stop r -> digits_stop r.
Proof.
  destruct r as [|c r]; [trivial|]. unfold value_stop, digits_stop, ws_char, digit.
  lia.
Qed.

Lemma value_stop_frac (r : str) :
  value_stop r -> match r with [] => True | c :: _ => c <> 46 end.
Proof.
  destruct r as [|c r]; [trivial|]. unfold value_stop, ws_char. lia.
Qed.

Lemma value_stop_exp (r : str) :
  value_stop r -> match r with [] => True | c :: _ => c <> 101 /\ c <> 69 end.
Proof.
  destruct r as [|c r]; [trivial|]. unfold value_stop, ws_char. lia.
Qed.

(** What [match_number] reads is a number of the grammar. *)
Lemma match_number_sound (s : str) (j : json) (r : str) :
  match_number s = Some (j, r) -> exists l, s = l ++ r /\ jnumber l j.
Proof.
  unfold match_number. intros H.
  destruct (match_integer s) as [[int r0]|] eqn:Ei;
    cbv beta iota delta [obind] in H; [|discriminate].
  apply match_integer_sound in Ei as (sg & i & Hsg & -> & -> & Hi).
  destruct (match_frac_sound r0) as (Ef & Hf).
  destruct (match_frac r0) as [f r1]. cbn [fst snd] in *.
  destruct (match_exp_sound r1) as (Ee & He).
  destruct (match_exp r1) as [e r2]. cbn [fst snd] in *.
  subst r0 r1.
  destruct (f ++ e) as [|x fe] eqn:Efe.
  - apply app_eq_nil in Efe as (-> & ->). cbn [app].
    apply some_eq in H. injection H as <- <-.
    exists (sg ++ i). split; [now rewrite <- app_assoc|].
    destruct (int_part_head i Hi) as (d & ds & E & Hd).
    destruct Hsg as [-> | ->]; cbn [app].
    + rewrite E. unfold digit in Hd.
      destruct (N.eqb_spec d 45); [lia|].
      rewrite <- E, digits_value_decimal. now apply jnumber_int.
    + change (45 =? 45) with true. cbv iota.
      rewrite digits_value_decimal. now apply jnumber_neg.
  - rewrite <- Efe in H. apply some_eq in H. injection H as <- <-.
    exists (sg ++ i ++ f ++ e). split; [now rewrite <- !app_assoc|].
    rewrite <- app_assoc. apply jnumber_float; try assumption.
    rewrite Efe. discriminate.
Qed.

(** Every number of the grammar is read by [match_number] when a stop
    follows it. *)
Lemma match_number_complete (l : str) (j : json) :
  jnumber l j -> forall r, value_stop r -> match_number (l ++ r) = Some (j, r).
Proof.
  intros Hj r Hr.
  pose proof (value_stop_digits r Hr) as Hrd.
  pose proof (value_stop_frac r Hr) as Hrf.
  pose proof (value_stop_exp r Hr) as Hre.
  unfold match_number.
  destruct Hj as [i Hi|i Hi|sg i f e Hsg Hi Hf He Hfe].
  - pose proof (match_integer_complete [] i r (or_introl eq_refl) Hi Hrd) as Hm.
    cbn [app] in Hm. rewrite Hm.
    cbv beta iota delta [obind]. rewrite (match_frac_none r Hrf), (match_exp_none r Hre).
    cbn [app].
    destruct (int_part_head i Hi) as (d & ds & E & Hd).
    rewrite E. unfold digit in Hd. destruct (N.eqb_spec d 45); [lia|].
    now rewrite digits_value_decimal.
  - change (45 :: i) with ([45] ++ i). rewrite <- app_assoc.
    rewrite (match_integer_complete [45] i r (or_intror eq_refl) Hi Hrd).
    cbv beta iota delta [obind]. rewrite (match_frac_none r Hrf), (match_exp_none r Hre).
    cbn [app]. change (45 =? 45) with true. cbv iota.
    now rewrite digits_value_decimal.
  - assert (Her : digits_stop (e ++ r)).
    { destruct He as [->|(c & sg' & d & ds & -> & Hc & _)]; [exact Hrd|].
      cbn [app digits_stop]. unfold digit. lia. }
    assert (Hfer : digits_stop (f ++ e ++ r)).
    { destruct Hf as [->|(d & ds & -> & _)]; [exact Her|].
      cbn [app digits_stop]. unfold digit. lia. }
    rewrite <- !app_assoc.
    rewrite (match_integer_complete sg i (f ++ e ++ r) Hsg Hi Hfer).
    cbv beta iota delta [obind].
    assert (Ef : match_frac (f ++ e ++ r) = (f, e ++ r)).
    { destruct Hf as [->|Hf]; [|now apply match_frac_complete].
      cbn [app]. apply match_frac_none.
      destruct He as [->|(c & sg' & d & ds & -> & Hc & _)]; [now elim Hfe|].
      cbn [app]. lia. }
    assert (Ee : match_exp (e ++ r) = (e, r)).
    { destruct He as [->|He]; [|now apply match_exp_complete].
      now apply match_exp_none. }
    rewrite Ef, Ee.
    destruct (f ++ e) as [|x fe] eqn:Efe; [now elim Hfe|].
    rewrite <- Efe, <- app_assoc. reflexivity.
Qed.
(** ** The scanner against the grammar: values *)

Ltac norm_app := repeat (progress (cbn [app]; rewrite <- ?app_assoc)).

Ltac assoc := norm_app; try reflexivity.

Lemma strip_prefix_sound (lit : str) :
  forall s r, strip_prefix lit s = Some r -> s = lit ++ r.
Proof.
  induction lit as [|x lit IH]; intros s r H; cbn [strip_prefix] in H.
  - now apply some_eq in H.
  - destruct s as [|y s]; [discriminate|].
    destruct (N.eqb_spec x y) as [->|_]; [|discriminate].
    cbn [app]. f_equal. now apply IH.
Qed.

Lemma strip_prefix_complete (lit r : str) : strip_prefix lit (lit ++ r) = Some r.
Proof.
  induction lit as [|x lit IH]; [reflexivity|].
  cbn [app strip_prefix]. now rewrite N.eqb_refl.
Qed.

Lemma dict_of_cons (k : str) (v : json) (ms pairs : list (str * json)) :
  dict_of ((k, v) :: ms) pairs = dict_of ms (dict_set pairs k v).
Proof. reflexivity. Qed.

(** What the scanner reads is a value of the grammar. *)
Lemma scanner_sound (fuel : nat) :
  (forall s j r, scan_once fuel s = Some (j, r) ->
     exists l, s = l ++ r /\ jvalue l j)
  /\ (forall s pairs j r, JSONObject fuel s pairs = Some (j, r) ->
        exists l ms, 34 :: s = l ++ 125 :: r /\ jmembers l ms
                     /\ j = JObj (dict_of ms pairs))
  /\ (forall s values j r, JSONArray fuel s values = Some (j, r) ->
        exists l items, s = l ++ 93 :: r /\ jitems l items
                        /\ j = JArr (values ++ items)).
Proof.
  induction fuel as [|fuel (IHs & IHo & IHa)];
    [repeat split; intros; discriminate|].
  split; [|split].
  - intros s j r H. cbn [scan_once] in H.
    destruct s as [|c rest]; [discriminate|].
    destruct (N.eqb_spec c 34) as [->|N34].
    { destruct (scanstring rest) as [[t r']|] eqn:Es;
        cbv beta iota delta [obind] in H; [|discriminate].
      apply some_eq in H. injection H as <- <-.
      apply (scanstring_sound _ _ _ _ (le_n _)) in Es as (l & -> & Hl).
      exists (34 :: l ++ [34]). split; [assoc|now apply jvalue_string]. }
    destruct (N.eqb_spec c 123) as [->|N123].
    { destruct (skip_ws_sound rest) as (w & Ew & Hw).
      destruct (skip_ws rest) as [|c1 r1]; [discriminate|].
      destruct (N.eqb_spec c1 125) as [->|_].
      { apply some_eq in H. injection H as <- <-.
        exists (123 :: w ++ [125]). rewrite Ew.
        split; [assoc|now apply jvalue_empty_object]. }
      destruct (N.eqb_spec c1 34) as [->|_]; [|discriminate].
      apply IHo in H as (l & ms & El & Hms & ->).
      exists (123 :: w ++ l ++ [125]). rewrite Ew, El.
      split; [assoc|now apply jvalue_object]. }
    destruct (N.eqb_spec c 91) as [->|N91].
    { destruct (skip_ws_sound rest) as (w & Ew & Hw).
      destruct (skip_ws rest) as [|c1 r1]; [discriminate|].
      destruct (N.eqb_spec c1 93) as [->|_].
      { apply some_eq in H. injection H as <- <-.
        exists (91 :: w ++ [93]). rewrite Ew.
        split; [assoc|now apply jvalue_empty_array]. }
      apply IHa in H as (l & items & El & Hit & ->).
      exists (91 :: w ++ l ++ [93]). rewrite Ew, El.
      split; [assoc|now apply jvalue_array]. }
    destruct (strip_prefix (u "null") (c :: rest)) eqn:H1.
    { apply some_eq in H. injection H as <- <-.
      apply strip_prefix_sound in H1. eexists. split; [exact H1|constructor]. }
    destruct (strip_prefix (u "true") (c :: rest)) eqn:H2.
    { apply some_eq in H. injection H as <- <-.
      apply strip_prefix_sound in H2. eexists. split; [exact H2|constructor]. }
    destruct (strip_prefix (u "false") (c :: rest)) eqn:H3.
    { apply some_eq in H. injection H as <- <-.
      apply strip_prefix_sound in H3. eexists. split; [exact H3|constructor]. }
    destruct (match_number (c :: rest)) as [[v' r']|] eqn:H4.
    { apply some_eq in H. injection H as <- <-.
      apply match_number_sound in H4 as (l & E & Hl).
      exists l. split; [exact E|now apply jvalue_number]. }
    destruct (strip_prefix (u "NaN") (c :: rest)) eqn:H5.
    { apply some_eq in H. injection H as <- <-.
      apply strip_prefix_sound in H5. eexists. split; [exact H5|constructor]. }
    destruct (strip_prefix (u "Infinity") (c :: rest)) eqn:H6.
    { apply some_eq in H. injection H as <- <-.
      apply strip_prefix_sound in H6. eexists. split; [exact H6|constructor]. }
    destruct (strip_prefix (u "-Infinity") (c :: rest)) eqn:H7; [|discriminate].
    apply some_eq in H. injection H as <- <-.
    apply strip_prefix_sound in H7. eexists. split; [exact H7|constructor].
  - intros s pairs j r H. cbn [JSONObject] in H.
    destruct (scanstring s) as [[key r0]|] eqn:Es;
      cbv beta iota delta [obind] in H; [|discriminate].
    apply (scanstring_sound _ _ _ _ (le_n _)) in Es as (k & -> & Hk).
    destruct (skip_ws_sound r0) as (w1 & E1 & Hw1).
    destruct (skip_ws r0) as [|colon r1]; [discriminate|].
    destruct (N.eqb_spec colon 58) as [->|_]; [|discriminate].
    destruct (skip_ws_sound r1) as (w2 & E2 & Hw2).
    destruct (scan_once fuel (skip_ws r1)) as [[value r2]|] eqn:Ev;
      cbv beta iota zeta delta [obind] in H; [|discriminate].
    apply IHs in Ev as (lv & Elv & Hlv). rewrite Elv in E2.
    destruct (skip_ws_sound r2) as (w3 & E3 & Hw3).
    destruct (skip_ws r2) as [|c r3]; [discriminate|].
    destruct (N.eqb_spec c 125) as [->|_].
    { apply some_eq in H. injection H as <- <-.
      exists (34 :: k ++ 34 :: w1 ++ 58 :: w2 ++ lv ++ w3), [(key, value)].
      rewrite E1, E2, E3. split; [assoc|]. split; [|reflexivity].
      now apply jmembers_last. }
    destruct (N.eqb_spec c 44) as [->|_]; [|discriminate].
    destruct (skip_ws_sound r3) as (w4 & E4 & Hw4).
    destruct (skip_ws r3) as [|q r4]; [discriminate|].
    destruct (N.eqb_spec q 34) as [->|_]; [|discriminate].
    apply IHo in H as (l' & ms & El & Hms & ->).
    exists (34 :: k ++ 34 :: w1 ++ 58 :: w2 ++ lv ++ w3 ++ 44 :: w4 ++ l'),
      ((key, value) :: ms).
    rewrite E1, E2, E3, E4, El. split; [assoc|]. split; [|reflexivity].
    now apply jmembers_more.
  - intros s values j r H. cbn [JSONArray] in H.
    destruct (scan_once fuel s) as [[value r0]|] eqn:Ev;
      cbv beta iota zeta delta [obind] in H; [|discriminate].
    apply IHs in Ev as (lv & -> & Hlv).
    destruct (skip_ws_sound r0) as (w & Ew & Hw).
    destruct (skip_ws r0) as [|c r1]; [discriminate|].
    destruct (N.eqb_spec c 93) as [->|_].
    { apply some_eq in H. injection H as <- <-.
      exists (lv ++ w), [value]. rewrite Ew. split; [assoc|].
      split; [now apply jitems_last|reflexivity]. }
    destruct (N.eqb_spec c 44) as [->|_]; [|discriminate].
    destruct (skip_ws_sound r1) as (w' & Ew' & Hw').
    apply IHa in H as (l' & items & El & Hit & ->).
    exists (lv ++ w ++ 44 :: w' ++ l'), (value :: items).
    rewrite Ew, Ew', El. split; [assoc|].
    split; [now apply jitems_more|]. now rewrite <- app_assoc.
Qed.
Lemma value_start_not_ws (c : N) : value_start c -> ~ ws_char c.
Proof. unfold value_start, ws_char, digit. lia. Qed.

Lemma jnumber_start (l : str) (j : json) :
  jnumber l j -> exists c l', l = c :: l' /\ (c = 45 \/ digit c).
Proof.
  intros [i Hi|i Hi|sg i f e Hsg Hi _ _ _].
  - destruct (int_part_head i Hi) as (d & ds & -> & Hd). eauto.
  - eauto.
  - destruct (int_part_head i Hi) as (d & ds & -> & Hd).
    destruct Hsg as [-> | ->]; cbn [app]; eauto.
Qed.

Lemma jvalue_start (l : str) (j : json) :
  jvalue l j -> exists c l', l = c :: l' /\ value_start c.
Proof.
  unfold value_start.
  intros [| | | | | |l0 j0 Hn|l0 t _|w _|w l0 items _ _|w _|w l0 ms _ _];
    try (eexists; eexists; split; [reflexivity|]; tauto).
  apply jnumber_start in Hn as (c & l' & -> & Hc).
  exists c, l'. split; [reflexivity|]. tauto.
Qed.

Lemma jitems_start (l : str) (items : list json) :
  jitems l items -> exists c l', l = c :: l' /\ value_start c.
Proof.
  intros [l0 v w Hv _|l0 v w w' l' vs Hv _ _ _];
    apply jvalue_start in Hv as (c & l1 & -> & Hc);
    exists c; eexists; (split; [reflexivity|exact Hc]).
Qed.

Lemma jmembers_start (l : str) (ms : list (str * json)) :
  jmembers l ms -> exists l0, l = 34 :: l0.
Proof. intros []; eexists; reflexivity. Qed.

Lemma skip_ws_value (w l r : str) (c : N) (l' : str) :
  ws w -> l = c :: l' -> value_start c -> skip_ws (w ++ l ++ r) = l ++ r.
Proof.
  intros Hw -> Hc. apply skip_ws_complete; [exact Hw|].
  cbn [app ws_stop]. now apply value_start_not_ws.
Qed.

Lemma skip_ws_mark (w r : str) (c : N) :
  ws w -> ~ ws_char c -> skip_ws (w ++ c :: r) = c :: r.
Proof. intros Hw Hc. now apply skip_ws_complete. Qed.

Lemma value_stop_mark (w r : str) (c : N) :
  ws w -> c = 44 \/ c = 93 \/ c = 125 -> value_stop (w ++ c :: r).
Proof.
  intros Hw Hc. destruct Hw as [|x w Hx _]; cbn [app value_stop]; tauto.
Qed.

Lemma JSONArray_S (fuel : nat) (s : str) (values : list json) :
  JSONArray (S fuel) s values
  = ('(value, r) <-? scan_once fuel s ;;
     match skip_ws r with
     | c :: r1 =>
         if c =? 93 then Some (JArr (values ++ [value]), r1)
         else if c =? 44 then JSONArray fuel (skip_ws r1) (values ++ [value])
         else None
     | [] => None
     end).
Proof. reflexivity. Qed.

Lemma scan_once_S (fuel : nat) (c : N) (rest : str) :
  scan_once (S fuel) (c :: rest)
  = if c =? 34 then '(t, r) <-? scanstring rest ;; Some (JStr t, r)
    else if c =? 123 then
      match skip_ws rest with
      | c1 :: r1 =>
          if c1 =? 125 then Some (JObj [], r1)
          else if c1 =? 34 then JSONObject fuel r1 []
          else None
      | [] => None
      end
    else if c =? 91 then
      match skip_ws rest with
      | c1 :: r1 =>
          if c1 =? 93 then Some (JArr [], r1)
          else JSONArray fuel (c1 :: r1) []
      | [] => None
      end
    else
      match strip_prefix (u "null") (c :: rest) with
      | Some r => Some (JNull, r)
      | None =>
      match strip_prefix (u "true") (c :: rest) with
      | Some r => Some (JBool true, r)
      | None =>
      match strip_prefix (u "false") (c :: rest) with
      | Some r => Some (JBool false, r)
      | None =>
      match match_number (c :: rest) with
      | Some res => Some res
      | None =>
      match strip_prefix (u "NaN") (c :: rest) with
      | Some r => Some (JFloat (u "NaN"), r)
      | None =>
      match strip_prefix (u "Infinity") (c :: rest) with
      | Some r => Some (JFloat (u "Infinity"), r)
      | None =>
      match strip_prefix (u "-Infinity") (c :: rest) with
      | Some r => Some (JFloat (u "-Infinity"), r)
      | None => None
      end end end end end end end.
Proof. reflexivity. Qed.

(** A number is read as a number: it begins like no other value. *)
Lemma scan_once_number (fuel : nat) (l : str) (j : json) (r : str) :
  jnumber l j -> value_stop r -> scan_once (S fuel) (l ++ r) = Some (j, r).
Proof.
  intros Hj Hr. pose proof (match_number_complete l j Hj r Hr) as Hm.
  apply jnumber_start in Hj as (c & l' & -> & Hc). cbn [app] in *.
  rewrite scan_once_S, Hm.
  assert (E : forall x lit, x <> c -> strip_prefix (x :: lit) (c :: l' ++ r) = None).
  { intros x lit Hx. cbn [strip_prefix]. apply N.eqb_neq in Hx. now rewrite Hx. }
  unfold digit in Hc.
  destruct (N.eqb_spec c 34); [lia|]. destruct (N.eqb_spec c 123); [lia|].
  destruct (N.eqb_spec c 91); [lia|].
  change (u "null") with (110 :: u "ull"). change (u "true") with (116 :: u "rue").
  change (u "false") with (102 :: u "alse").
  rewrite !E by lia. reflexivity.
Qed.

(** Every value of the grammar is read by the scanner, given enough fuel,
    when a stop follows it. *)
Lemma scanner_complete :
  (forall l j, jvalue l j ->
     forall r, value_stop r ->
     exists n, forall fuel, (n <= fuel)%nat ->
       scan_once fuel (l ++ r) = Some (j, r))
  /\ (forall l items, jitems l items ->
        forall r values,
        exists n, forall fuel, (n <= fuel)%nat ->
          JSONArray fuel (l ++ 93 :: r) values = Some (JArr (values ++ items), r))
  /\ (forall l ms, jmembers l ms ->
        exists l0, l = 34 :: l0 /\
        forall r pairs,
        exists n, forall fuel, (n <= fuel)%nat ->
          JSONObject fuel (l0 ++ 125 :: r) pairs
          = Some (JObj (dict_of ms pairs), r)).
Proof.
  apply json_grammar_ind.
  - intros r _. exists 1%nat. intros [|fuel] Hf; [lia|reflexivity].
  - intros r _. exists 1%nat. intros [|fuel] Hf; [lia|reflexivity].
  - intros r _. exists 1%nat. intros [|fuel] Hf; [lia|reflexivity].
  - intros r _. exists 1%nat. intros [|fuel] Hf; [lia|reflexivity].
  - intros r _. exists 1%nat. intros [|fuel] Hf; [lia|reflexivity].
  - intros r _. exists 1%nat. intros [|fuel] Hf; [lia|reflexivity].
  - intros l j Hj r Hr. exists 1%nat. intros [|fuel] Hf; [lia|].
    now apply scan_once_number.
  - intros l t Hl r _. exists 1%nat. intros [|fuel] Hf; [lia|].
    norm_app.
    rewrite scan_once_S. change (34 =? 34) with true. cbv iota.
    now rewrite (scanstring_complete l t Hl).
  - intros w Hw r _. exists 1%nat. intros [|fuel] Hf; [lia|].
    norm_app.
    rewrite scan_once_S. change (91 =? 34) with false.
    change (91 =? 123) with false. change (91 =? 91) with true. cbv iota.
    rewrite skip_ws_mark; [reflexivity|exact Hw|unfold ws_char; lia].
  - intros w l items Hw Hit IH r _.
    destruct (IH r []) as (n & Hn). exists (S n). intros [|fuel] Hf; [lia|].
    destruct (jitems_start l items Hit) as (c & l' & E & Hc).
    norm_app.
    rewrite scan_once_S. change (91 =? 34) with false.
    change (91 =? 123) with false. change (91 =? 91) with true. cbv iota.
    rewrite (skip_ws_value w l (93 :: r) c l' Hw E Hc).
    assert (Hfuel : (n <= fuel)%nat) by lia.
    specialize (Hn fuel Hfuel). subst l. cbn [app] in *.
    unfold value_start, digit in Hc.
    destruct (N.eqb_spec c 93); [lia|exact Hn].
  - intros w Hw r _. exists 1%nat. intros [|fuel] Hf; [lia|].
    norm_app.
    rewrite scan_once_S. change (123 =? 34) with false.
    change (123 =? 123) with true. cbv iota.
    rewrite skip_ws_mark; [reflexivity|exact Hw|unfold ws_char; lia].
  - intros w l ms Hw Hms (l0 & -> & IH) r _.
    destruct (IH r []) as (n & Hn). exists (S n). intros [|fuel] Hf; [lia|].
    norm_app.
    rewrite scan_once_S. change (123 =? 34) with false.
    change (123 =? 123) with true. cbv iota.
    rewrite skip_ws_mark; [|exact Hw|unfold ws_char; lia].
    change (34 =? 125) with false. change (34 =? 34) with true. cbv iota.
    apply Hn. lia.
  - intros l v w Hv IH Hw r values.
    destruct (IH (w ++ 93 :: r)) as (n & Hn);
      [apply value_stop_mark; [exact Hw|tauto]|].
    exists (S n). intros [|fuel] Hf; [lia|].
    rewrite JSONArray_S, <- app_assoc, Hn by lia.
    cbv beta iota delta [obind].
    rewrite skip_ws_mark; [|exact Hw|unfold ws_char; lia].
    reflexivity.
  - intros l v w w' l' vs Hv IH Hw Hw' Hvs IH' r values.
    destruct (IH (w ++ 44 :: w' ++ l' ++ 93 :: r)) as (n & Hn);
      [apply value_stop_mark; [exact Hw|tauto]|].
    destruct (IH' r (values ++ [v])) as (n' & Hn').
    exists (S (n + n')). intros [|fuel] Hf; [lia|].
    rewrite JSONArray_S. replace ((l ++ w ++ 44 :: w' ++ l') ++ 93 :: r)
      with (l ++ w ++ 44 :: w' ++ l' ++ 93 :: r) by assoc.
    rewrite Hn by lia. cbv beta iota delta [obind].
    rewrite skip_ws_mark; [|exact Hw|unfold ws_char; lia].
    change (44 =? 93) with false. change (44 =? 44) with true. cbv iota.
    destruct (jitems_start l' vs Hvs) as (c & l1 & E & Hc).
    rewrite (skip_ws_value w' l' (93 :: r) c l1 Hw' E Hc).
    rewrite Hn' by lia. now rewrite <- app_assoc.
  - intros k key w1 w2 l v w3 Hk Hw1 Hw2 Hv IH Hw3.
    eexists. split; [reflexivity|]. intros r pairs.
    destruct (IH (w3 ++ 125 :: r)) as (n & Hn);
      [apply value_stop_mark; [exact Hw3|tauto]|].
    exists (S n). intros [|fuel] Hf; [lia|].
    rewrite JSONObject_eq.
    replace ((k ++ 34 :: w1 ++ 58 :: w2 ++ l ++ w3) ++ 125 :: r)
      with (k ++ 34 :: w1 ++ 58 :: w2 ++ l ++ w3 ++ 125 :: r) by assoc.
    rewrite (scanstring_complete k key Hk). cbv beta iota delta [obind].
    rewrite skip_ws_mark; [|exact Hw1|unfold ws_char; lia].
    change (58 =? 58) with true. cbv iota.
    destruct (jvalue_start l v Hv) as (c & l1 & E & Hc).
    rewrite (skip_ws_value w2 l (w3 ++ 125 :: r) c l1 Hw2 E Hc).
    rewrite Hn by lia. cbv beta iota zeta delta [obind].
    rewrite skip_ws_mark; [|exact Hw3|unfold ws_char; lia].
    reflexivity.
  - intros k key w1 w2 l v w3 w4 l' ms Hk Hw1 Hw2 Hv IH Hw3 Hw4 Hms (l0 & -> & IH').
    eexists. split; [reflexivity|]. intros r pairs.
    destruct (IH (w3 ++ 44 :: w4 ++ 34 :: l0 ++ 125 :: r)) as (n & Hn);
      [apply value_stop_mark; [exact Hw3|tauto]|].
    destruct (IH' r (dict_set pairs key v)) as (n' & Hn').
    exists (S (n + n')). intros [|fuel] Hf; [lia|].
    rewrite JSONObject_eq.
    replace ((k ++ 34 :: w1 ++ 58 :: w2 ++ l ++ w3 ++ 44 :: w4 ++ 34 :: l0)
               ++ 125 :: r)
      with (k ++ 34 :: w1 ++ 58 :: w2 ++ l ++ w3 ++ 44 :: w4 ++ 34 :: l0
              ++ 125 :: r) by assoc.
    rewrite (scanstring_complete k key Hk). cbv beta iota delta [obind].
    rewrite skip_ws_mark; [|exact Hw1|unfold ws_char; lia].
    change (58 =? 58) with true. cbv iota.
    destruct (jvalue_start l v Hv) as (c & l1 & E & Hc).
    rewrite (skip_ws_value w2 l _ c l1 Hw2 E Hc).
    rewrite Hn by lia. cbv beta iota zeta delta [obind].
    rewrite skip_ws_mark; [|exact Hw3|unfold ws_char; lia].
    change (44 =? 125) with false. change (44 =? 44) with true. cbv iota.
    rewrite skip_ws_mark; [|exact Hw4|unfold ws_char; lia].
    change (34 =? 34) with true. cbv iota.
    rewrite Hn' by lia. reflexivity.
Qed.
(** ** The decoder of a token against what it must accept *)

Lemma value_stop_ws (w : str) : ws w -> value_stop w.
Proof. intros [|c w' Hc _]; cbn [value_stop]; tauto. Qed.

(** [json.loads] succeeds exactly on the documents of the grammar, and
    returns what they read as. *)
Lemma json_loads_iff (text : str) (j : json) :
  json_loads text = Some j <-> json_document text j.
Proof.
  unfold json_document. split.
  - unfold json_loads, loads_with. intros H.
    destruct (skip_ws_sound text) as (w & Ew & Hw).
    destruct (scan_once _ (skip_ws text)) as [[v r]|] eqn:Es;
      cbv beta iota delta [obind] in H; [|discriminate].
    apply (proj1 (scanner_sound _)) in Es as (l & El & Hl).
    destruct (skip_ws_sound r) as (w' & Ew' & Hw').
    destruct (skip_ws r); [|discriminate].
    apply some_eq in H. subst v. rewrite app_nil_r in Ew'. subst r.
    exists w, l, w'. rewrite <- El. tauto.
  - intros (w & l & w' & -> & Hw & Hl & Hw').
    destruct (proj1 scanner_complete l j Hl w' (value_stop_ws w' Hw')) as (n & Hn).
    rewrite <- (json_loads_fuel _ (n + S (2 * List.length (w ++ l ++ w')))) by lia.
    unfold loads_with.
    destruct (jvalue_start l j Hl) as (c & l' & E & Hc).
    rewrite (skip_ws_value w l w' c l' Hw E Hc), Hn by lia.
    cbv beta iota delta [obind].
    rewrite <- (app_nil_r w') at 1. rewrite skip_ws_complete; [reflexivity|exact Hw'|exact I].
Qed.

(** C8. Decoding fails exactly when the text is not a validly wrapped
    envelope (a base64 text of the UTF-8 bytes of some text), or the text
    inside the envelope is not a JSON document, or the document does not have
    the five text fields and the boolean field, or has another field. *)
Theorem decode_fails_exactly_when :
  forall s : str,
    decode s = None <->
    ((forall text, ~ envelope_of s text)
     \/ (exists text,
           envelope_of s text /\ forall j, ~ json_document text j)
     \/ (exists text j,
           envelope_of s text /\ json_document text j /\ ~ has_token_fields j)).
Proof.
  intros s. unfold decode. split.
  - intros H. destruct (unwrap s) as [text|] eqn:Eu.
    2:{ left. intros text He. apply unwrap_iff in He. congruence. }
    right. apply unwrap_iff in Eu. cbv beta iota delta [obind] in H.
    destruct (json_loads text) as [j|] eqn:Ej.
    2:{ left. exists text. split; [exact Eu|].
        intros j Hj. apply json_loads_iff in Hj. congruence. }
    right. apply json_loads_iff in Ej. exists text, j.
    split; [exact Eu|]. split; [exact Ej|].
    intros Hf. apply token_of_json_fields in Hf as (t & Ht).
    cbv beta iota delta [obind] in H. congruence.
  - intros [H|[(text & He & H)|(text & j & He & Hj & H)]].
    + destruct (unwrap s) as [text|] eqn:Eu; [|reflexivity].
      apply unwrap_iff in Eu. now elim (H text).
    + apply unwrap_iff in He. rewrite He. cbv beta iota delta [obind].
      destruct (json_loads text) as [j|] eqn:Ej; [|reflexivity].
      apply json_loads_iff in Ej. now elim (H j).
    + apply unwrap_iff in He. apply json_loads_iff in Hj. rewrite He.
      cbv beta iota delta [obind]. rewrite Hj. cbv beta iota delta [obind].
      destruct (token_of_json j) as [t|] eqn:Et; [|reflexivity].
      elim H. apply token_of_json_fields. eauto.
Qed.

(** * Properties of the handlers *)

Local Open Scope Z_scope.

Section HandlerProperties.

Context {World YamlObj PlacementSpec : Type}.
Variable env : Env World YamlObj PlacementSpec.

(** Unfolds the monad of the handlers. *)
Ltac run :=
  unfold _cmd_rgw_realm_bootstrap, _cmd_rgw_zone_create, check_orchestrator,
    realm_bootstrap_func, zone_create_func, passthrough, update_zone_info,
    list_realm_tokens, bind, try_RGWAM, ret, raise, pure_call.

Lemma parse_keeps_world (inbuf : str) (w : World) :
  fst (_parse_rgw_specs env inbuf w) = w.
Proof.
  unfold _parse_rgw_specs, bind, pure_call.
  destruct (yaml_safe_load_all env inbuf); reflexivity.
Qed.

Lemma parse_loop_acc (docs : list YamlObj) (acc specs : list (RGWSpec PlacementSpec)) :
  parse_loop env docs acc = Ret specs <->
  exists tl, specs = acc ++ tl /\
    Forall2 (fun d s => RGWSpec_from_json env d = Ret s
                        /\ exists x, RGWSpec_validate env s = Ret x) docs tl.
Proof.
  revert acc specs. induction docs as [|d docs IH]; intros acc specs; simpl.
  - split.
    + intros [= <-]. exists []. rewrite app_nil_r. split; [reflexivity|constructor].
    + intros (tl & -> & HF). inversion HF. now rewrite app_nil_r.
  - split.
    + destruct (RGWSpec_from_json env d) as [s|e] eqn:Hj; [|discriminate].
      destruct (RGWSpec_validate env s) as [x|e] eqn:Hv; [|discriminate].
      intros H. apply IH in H as (tl & -> & HF).
      exists (s :: tl). rewrite <- app_assoc. split; [reflexivity|].
      constructor; [split; [assumption|now exists x]|assumption].
    + intros (tl & -> & HF). inversion HF as [|? s ? tl' [Hj [x Hv]] HF']; subst.
      rewrite Hj, Hv. apply IH. exists tl'. rewrite <- app_assoc. now split.
Qed.

Lemma not_none_filter {A} (l : list (option A)) :
  map Some (not_none l)
  = filter (fun o => match o with Some _ => true | None => false end) l.
Proof.
  induction l as [|[a|] l IH]; simpl; [reflexivity|now rewrite IH|assumption].
Qed.

Lemma for_each_completes (op : RGWSpec PlacementSpec -> M World triple) pre rest w w1 :
  completes op (fun _ => true) pre w w1 ->
  for_each (pre ++ rest) (fun spec => bind (op spec) (fun _ => ret tt)) w
  = for_each rest (fun spec => bind (op spec) (fun _ => ret tt)) w1.
Proof.
  induction 1 as [|spec specs w w1 w2 r Hop _ _ IH]; [reflexivity|].
  simpl. unfold bind at 1. unfold bind at 1. rewrite Hop. unfold ret at 1. exact IH.
Qed.

Lemma zone_create_loop_completes pre rest start last w w1 :
  completes (fun spec => zone_create env spec start)
            (fun r => fst (fst r) =? 0) pre w w1 ->
  exists last',
    zone_create_loop env (pre ++ rest) start last w
    = zone_create_loop env rest start last' w1
    /\ (pre = [] -> last' = last)
    /\ (pre <> [] -> exists r, last' = Some r /\ fst (fst r) = 0).
Proof.
  intros H. revert last.
  induction H as [|spec specs w w1 w2 r Hop Hok _ IH]; intros last.
  - exists last. split; [reflexivity|]. split; [reflexivity|congruence].
  - destruct (IH (Some r)) as (last' & Heq & Hnil & Hcons).
    exists last'. split; [|split; [discriminate|]].
    + simpl. unfold bind at 1. rewrite Hop, Hok. exact Heq.
    + intros _. destruct specs as [|s specs].
      * rewrite Hnil by reflexivity. exists r. split; [reflexivity|].
        now apply Z.eqb_eq.
      * apply Hcons. discriminate.
Qed.



Lemma status_keeps_world (w : World) : fst (status env w) = w.
Proof.
  unfold status. destruct (available env w) as [[st m]|[]]; reflexivity.
Qed.

Lemma status_passes_answer (w : World) (st : bool) (m : str) :
  available env w = Ret (st, m) -> status env w = (w, Ret (st, m)).
Proof. intros H. unfold status. now rewrite H. Qed.

(** C9. [OrchestratorAPI.status] does not let a RuntimeError, an
    OrchestratorError or an ImportError of the availability query escape: it
    answers [available = False] with the message
    [Orchestrator is unavailable: e], in an unchanged world.  A command behind
    [check_orchestrator] then returns its unavailability error instead of
    raising. *)
Theorem status_catches_unavailability :
  forall (w : World) (func : M World HandleCommandResult) (e : exn) (m : str),
    available env w = Raise e ->
    caught_by_status e = Some m ->
    status env w = (w, Ret (false, u "Orchestrator is unavailable: " ++ m))
    /\ check_orchestrator env func w = (w, Ret cephadm_unavailable).
Proof.
  intros w func e m H Hc.
  assert (Hs : status env w
               = (w, Ret (false, u "Orchestrator is unavailable: " ++ m))).
  { unfold status. rewrite H. destruct e; inversion Hc; subst; reflexivity. }
  split; [exact Hs|].
  unfold check_orchestrator, bind. now rewrite Hs.
Qed.

(** C1. When the orchestrator reports itself unavailable, realm bootstrap and
    zone create (whatever [start_radosgw] is, true included) return the
    unavailability error, whose return code is not zero, and leave the world
    as it was: no call of the engine or of the admin tool is made. *)
Theorem unavailable_orchestrator_aborts :
  forall (w : World) (msg : str)
         (realm_name zonegroup_name zone_name realm_token : option str)
         (port : option Z) (placement : option str)
         (start_radosgw : option bool) (inbuf : option str),
    status env w = (w, Ret (false, msg)) ->
    _cmd_rgw_realm_bootstrap env realm_name zonegroup_name zone_name port
      placement start_radosgw inbuf w = (w, Ret cephadm_unavailable)
    /\ _cmd_rgw_zone_create env zone_name realm_token port placement
         start_radosgw inbuf w = (w, Ret cephadm_unavailable)
    /\ retval cephadm_unavailable <> 0.
Proof.
  intros w msg rn zg zn tok port pl start inbuf Hs.
  unfold _cmd_rgw_realm_bootstrap, _cmd_rgw_zone_create, check_orchestrator, bind.
  rewrite Hs. simpl. repeat split; try reflexivity. discriminate.
Qed.


(** C6. [_parse_rgw_specs] leaves the world untouched; the null documents of
    the buffer are dropped and the others kept in their order; and it returns
    a list of specs exactly when that list holds, position by position, the
    validated spec of each remaining document. *)
Theorem parse_rgw_specs_keeps_order :
  forall (inbuf : str) (w : World) (docs : list (option YamlObj)),
    yaml_safe_load_all env inbuf = Ret docs ->
    fst (_parse_rgw_specs env inbuf w) = w
    /\ map Some (not_none docs)
       = filter (fun o => match o with Some _ => true | None => false end) docs
    /\ (forall specs,
          snd (_parse_rgw_specs env inbuf w) = Ret specs <->
          Forall2 (fun d s => RGWSpec_from_json env d = Ret s
                              /\ RGWSpec_validate env s = Ret tt)
                  (not_none docs) specs).
Proof.
  intros inbuf w docs Hy. split; [apply parse_keeps_world|].
  split; [apply not_none_filter|].
  intros specs. unfold _parse_rgw_specs, bind, pure_call. rewrite Hy. simpl.
  rewrite parse_loop_acc. simpl. split.
  - intros (tl & -> & HF). eapply Forall2_impl; [|exact HF].
    intros d s [Hj [[] Hv]]. now split.
  - intros HF. exists specs. split; [reflexivity|].
    eapply Forall2_impl; [|exact HF]. intros d s [Hj Hv]. split; [exact Hj|].
    now exists tt.
Qed.

(** C7. Without an input buffer, realm bootstrap needs the three names
    together.  When one of them is missing or empty it returns the
    invalid-arguments error, with a non-zero code, in an unchanged world;
    when the three are given it hands the spec built from them to the engine
    and reports what the engine did. *)
Theorem bootstrap_needs_three_names :
  forall (w : World) (msg : str) (realm_name zonegroup_name zone_name : option str)
         (port : option Z) (placement : option str)
         (start_radosgw : option bool) (inbuf : option str),
    status env w = (w, Ret (true, msg)) ->
    opt_truthy inbuf = false ->
    (opt_truthy realm_name && opt_truthy zonegroup_name && opt_truthy zone_name
       = false ->
     _cmd_rgw_realm_bootstrap env realm_name zonegroup_name zone_name port
       placement start_radosgw inbuf w = (w, Ret invalid_arguments)
     /\ retval invalid_arguments <> 0)
    /\ (opt_truthy realm_name && opt_truthy zonegroup_name && opt_truthy zone_name
          = true ->
        forall ps, placement_of env placement w = (w, Ret ps) ->
        _cmd_rgw_realm_bootstrap env realm_name zonegroup_name zone_name port
          placement start_radosgw inbuf w
        = match realm_bootstrap env
                  {| rgw_realm := realm_name; rgw_zonegroup := zonegroup_name;
                     rgw_zone := zone_name; rgw_realm_token := None;
                     rgw_frontend_port := port; placement := ps |}
                  start_radosgw w with
          | (w', Ret _) => (w', Ret realm_created)
          | (w', Raise (RGWAMException retcode message err)) =>
              (w', Ret (mkresult retcode message err))
          | (w', Raise e) => (w', Raise e)
          end).
Proof.
  intros w msg rn zg zn port pl start inbuf Hs Hin.
  assert (Hbuf : forall A (x : str -> A) (y : A),
             match inbuf with Some ((_ :: _) as b) => x b | _ => y end = y).
  { intros A x y. destruct inbuf as [[|c b]|]; try reflexivity. discriminate. }
  split.
  - intros Hn. split; [|discriminate].
    run. rewrite Hs. simpl. rewrite Hbuf, Hn. reflexivity.
  - intros Hn ps Hpl. run. rewrite Hs. simpl. rewrite Hbuf, Hn.
    unfold bind, ret in Hpl. rewrite Hpl. simpl. unfold bind, ret.
    destruct (realm_bootstrap env _ start w) as [w' [r|e]]; [reflexivity|].
    destruct e; reflexivity.
Qed.

(** C10. When the buffer given to zone create holds no document but null
    ones, the loop over the specs never assigns [retval], [out] and [err],
    and the final [return] raises UnboundLocalError: the handler returns no
    result. *)
Theorem zone_create_empty_batch_unbound :
  forall (w : World) (msg : str) (zone_name realm_token : option str)
         (port : option Z) (placement : option str) (start_radosgw : option bool)
         (c : N) (buf : str) (docs : list (option YamlObj)),
    status env w = (w, Ret (true, msg)) ->
    yaml_safe_load_all env (c :: buf) = Ret docs ->
    not_none docs = [] ->
    _cmd_rgw_zone_create env zone_name realm_token port placement start_radosgw
      (Some (c :: buf)) w = (w, Raise (UnboundLocalError (u "retval"))).
Proof.
  intros w msg zn tok port pl start c buf docs Hs Hy Hn.
  run. rewrite Hs. simpl. unfold _parse_rgw_specs, bind, pure_call.
  rewrite Hy, Hn. reflexivity.
Qed.


Lemma realm_token_entry_spec (realm_info : RealmInfo.t) :
  exists entry,
    realm_token_entry realm_info = Ret entry /\ entry_spec realm_info entry.
Proof.
  unfold realm_token_entry, entry_spec. cbv zeta. rewrite encode_total.
  destruct (truthy (RealmInfo.master_zone_id realm_info));
    destruct (truthy (RealmInfo.endpoint realm_info));
    destruct (truthy (RealmInfo.access_key realm_info));
    destruct (truthy (RealmInfo.secret realm_info)); cbn [negb andb];
    (eexists; split; [reflexivity|]; eexists; split; [reflexivity|]);
    repeat split; intros;
    try congruence;
    match goal with
    | H : _ \/ _ |- _ => destruct H; discriminate
    end.
Qed.

Lemma realm_token_entries_spec (infos : list RealmInfo.t) :
  forall realms_info,
  exists entries,
    realm_token_entries infos realms_info = Ret (realms_info ++ entries)
    /\ Forall2 entry_spec infos entries.
Proof.
  induction infos as [|realm_info infos IH]; intros acc.
  - exists []. rewrite app_nil_r. split; [reflexivity|constructor].
  - destruct (realm_token_entry_spec realm_info) as (entry & He & Hspec).
    destruct (IH (acc ++ [entry])) as (entries & Hes & HF).
    exists (entry :: entries). cbn [realm_token_entries]. rewrite He, Hes.
    rewrite <- app_assoc. split; [reflexivity|]. now constructor.
Qed.

Lemma realm_token_entry_listed (realm_info : RealmInfo.t) :
  exists entry,
    realm_token_entry realm_info = Ret entry /\ listed_entry realm_info entry.
Proof.
  unfold realm_token_entry, listed_entry, fully_populated. cbv zeta.
  rewrite encode_total.
  assert (Hname : match RealmInfo.realm_name realm_info with
                  | PyNone => json_of_pyval (RealmInfo.realm_name realm_info) = JNull
                  | PyBool b => json_of_pyval (RealmInfo.realm_name realm_info) = JBool b
                  | PyStr s => json_of_pyval (RealmInfo.realm_name realm_info) = JStr s
                  end)
    by (destruct (RealmInfo.realm_name realm_info); reflexivity).
  pose proof (utf8_encode_ascii _ (is_ascii_to_json (realm_token_of realm_info)))
    as Henc.
  unfold realm_token_of in *.
  destruct (truthy (RealmInfo.master_zone_id realm_info));
    [destruct (truthy (RealmInfo.endpoint realm_info));
     [destruct (truthy (RealmInfo.access_key realm_info));
      [destruct (truthy (RealmInfo.secret realm_info))|]|]|];
    cbn [negb andb];
    (eexists; split; [reflexivity|];
     eexists; eexists; split; [reflexivity|]; split; [exact Hname|]).
  all: repeat split; intros; try discriminate; try reflexivity.
  - destruct H1; discriminate.
  - eexists. split; [exact Henc|reflexivity].
Qed.

Lemma realm_token_entries_listed (infos : list RealmInfo.t) :
  forall realms_info,
  exists entries,
    realm_token_entries infos realms_info = Ret (realms_info ++ entries)
    /\ Forall2 listed_entry infos entries.
Proof.
  induction infos as [|realm_info infos IH]; intros acc.
  - exists []. rewrite app_nil_r. split; [reflexivity|constructor].
  - destruct (realm_token_entry_listed realm_info) as (entry & He & Hspec).
    destruct (IH (acc ++ [entry])) as (entries & Hes & HF).
    exists (entry :: entries). cbn [realm_token_entries]. rewrite He, Hes.
    rewrite <- app_assoc. split; [reflexivity|]. now constructor.
Qed.

(** C5. The listing has one entry for every realm that the engine
    enumerates, in the same order, and the handler returns them with the
    return code 0, whatever is missing.  Each entry is the dict of the realm's
    name and a token: the text [realm has no master zone], [master zone has
    no endpoint] or [master zone has no access/secret keys] for the first
    missing piece, and only for a fully populated realm the base64 envelope
    of the JSON of its six fields; a marker does not open as an envelope. *)
Theorem list_realm_tokens_one_entry_per_realm :
  forall (w w' : World) (infos : list RealmInfo.t),
    get_realms_info env w = (w', Ret infos) ->
    exists entries,
      list_realm_tokens env w
      = (w', Ret {| retval := 0;
                    stdout := json_dumps (JArr entries);
                    stderr := u "" |})
      /\ Forall2 listed_entry infos entries.
Proof.
  intros w w' infos Hg.
  destruct (realm_token_entries_listed infos []) as (entries & He & HF).
  exists entries. split; [|exact HF].
  run. rewrite Hg, He. reflexivity.
Qed.

End HandlerProperties.

(** ** The handlers on the small cluster *)

(** C4. Zone create, given a buffer whose only document is null, returns no
    result at all but raises UnboundLocalError; and zone update pairs the
    non-zero code that the engine returned with its message of success. *)
Theorem zone_commands_break_result_contract :
  _cmd_rgw_zone_create (Cluster.env Cluster.up [None] []) None None None None
    (Some true) (Some (u "---")) []
  = ([], Raise (UnboundLocalError (u "retval")))
  /\ update_zone_info (Cluster.env Cluster.up [] []) (u "r") (u "zg") (u "nz")
       (u "token") [] []
     = ([u "nz"], Ret (mkresult 1 (u "Zone updated successfully") (u ""))).
Proof. split; reflexivity. Qed.

Lemma status_catches_unavailability_witness :
  let env := Cluster.env (Raise (RuntimeError (u "no backend"))) [] [] in
  available env [] = Raise (RuntimeError (u "no backend"))
  /\ caught_by_status (RuntimeError (u "no backend")) = Some (u "no backend")
  /\ status env []
     = ([], Ret (false, u "Orchestrator is unavailable: no backend"))
  /\ check_orchestrator env (_cmd_rgw_admin env []) []
     = ([], Ret cephadm_unavailable).
Proof.
  intros env. split; [reflexivity|]. split; [reflexivity|].
  apply (status_catches_unavailability env [] (_cmd_rgw_admin env [])
           (RuntimeError (u "no backend")) (u "no backend"));
    reflexivity.
Defined.

Lemma unavailable_orchestrator_aborts_witness :
  let env := Cluster.env Cluster.down [Some (u "z1")] [] in
  status env [] = ([], Ret (false, u "no orchestrator configured"))
  /\ _cmd_rgw_realm_bootstrap env None None None None None (Some true)
       (Some (u "---")) [] = ([], Ret cephadm_unavailable)
  /\ _cmd_rgw_zone_create env (Some (u "z1")) (Some (u "token")) None None
       (Some true) None [] = ([], Ret cephadm_unavailable)
  /\ retval cephadm_unavailable <> 0.
Proof.
  intros env. split; [reflexivity|].
  destruct (unavailable_orchestrator_aborts env [] (u "no orchestrator configured")
              None None None None None None (Some true) (Some (u "---"))
              eq_refl) as (Hb & _ & Hr).
  destruct (unavailable_orchestrator_aborts env [] (u "no orchestrator configured")
              None None (Some (u "z1")) (Some (u "token")) None None (Some true)
              None eq_refl) as (_ & Hz & _).
  split; [exact Hb|]. split; [exact Hz|exact Hr].
Defined.

Lemma decode_encode_roundtrip_witness :
  let t := realm_token_of Cluster.realm_r1 in
  wf_token t /\ exists s, encode t = Some s /\ decode s = Some t.
Proof.
  intros t.
  assert (Hwf : wf_token t).
  { unfold wf_token, wf_text. cbn.
    repeat split; eexists; try split; reflexivity. }
  split; [exact Hwf|apply (decode_encode_roundtrip t Hwf)].
Defined.

(** Documents that the decoder refuses: a seventh field, a missing field, a
    field of the wrong type, an envelope that is not base64, an object
    without fields, a text that is not JSON. *)
Example decode_rejects_extra_field :
  obind (utf8_encode
           (json_dumps
              (JObj [(u "realm_name", JStr (u "r1")); (u "realm_id", JStr (u "0a1b"));
                     (u "is_primary", JBool true); (u "endpoint", JStr (u "e"));
                     (u "access_key", JStr (u "AK")); (u "secret", JStr (u "SK"));
                     (u "zone", JStr (u "z1"))])))
        (fun b => obind (utf8_decode (b64encode b)) decode) = None.
Proof. vm_compute. reflexivity. Qed.

Example decode_rejects_missing_field :
  obind (utf8_encode
           (json_dumps
              (JObj [(u "realm_name", JStr (u "r1")); (u "realm_id", JStr (u "0a1b"));
                     (u "is_primary", JBool true); (u "endpoint", JStr (u "e"));
                     (u "access_key", JStr (u "AK"))])))
        (fun b => obind (utf8_decode (b64encode b)) decode) = None.
Proof. vm_compute. reflexivity. Qed.

Example decode_rejects_wrong_type :
  obind (utf8_encode
           (json_dumps
              (JObj [(u "realm_name", JStr (u "r1")); (u "realm_id", JStr (u "0a1b"));
                     (u "is_primary", JStr (u "yes")); (u "endpoint", JStr (u "e"));
                     (u "access_key", JStr (u "AK")); (u "secret", JStr (u "SK"))])))
        (fun b => obind (utf8_decode (b64encode b)) decode) = None.
Proof. vm_compute. reflexivity. Qed.

Example decode_rejects_bad_envelope : decode (u "e30") = None.
Proof. vm_compute. reflexivity. Qed.

Example decode_rejects_empty_object : decode (u "e30=") = None.
Proof. vm_compute. reflexivity. Qed.

Example decode_rejects_bad_json : decode (u "ew==") = None.
Proof. vm_compute. reflexivity. Qed.

(** The three ways of failing, on samples: a text that is no envelope, an
    envelope around a text that is no JSON document, and an envelope around
    a document that does not have the fields. *)
Example not_an_envelope : forall text, ~ envelope_of (u "e30") text.
Proof. intros text H. apply unwrap_iff in H. vm_compute in H. discriminate. Qed.

Example envelope_of_no_document :
  envelope_of (u "ew==") [123%N] /\ forall j, ~ json_document [123%N] j.
Proof.
  split; [apply unwrap_iff; vm_compute; reflexivity|].
  intros j H. apply json_loads_iff in H. vm_compute in H. discriminate.
Qed.

Example envelope_of_no_fields :
  envelope_of (u "e30=") (u "{}")
  /\ json_document (u "{}") (JObj [])
  /\ ~ has_token_fields (JObj []).
Proof.
  split; [apply unwrap_iff; vm_compute; reflexivity|].
  split; [apply json_loads_iff; vm_compute; reflexivity|].
  intros H. apply token_of_json_fields in H as (t & Ht). discriminate.
Qed.

(** The bits that the padding leaves over are not looked at: two texts can
    be envelopes of the same payload. *)
Example envelope_spare_bits : envelope_of (u "e31=") (u "{}").
Proof. apply unwrap_iff. vm_compute. reflexivity. Qed.

(** A document with white space, numbers and an escaped surrogate pair. *)
Example json_document_sample :
  json_document
    (u " [1, -2.5e3, null, " ++ dq ++ [92%N] ++ u "ud83d" ++ [92%N] ++ u "ude00"
       ++ dq ++ u "] ")
    (JArr [JInt 1; JFloat (u "-2.5e3"); JNull; JStr [128512%N]]).
Proof. apply json_loads_iff. vm_compute. reflexivity. Qed.


Lemma list_realm_tokens_one_entry_per_realm_witness :
  let env := Cluster.env Cluster.up [] [Cluster.realm_r1; Cluster.realm_r2] in
  get_realms_info env [] = ([], Ret [Cluster.realm_r1; Cluster.realm_r2])
  /\ exists entries,
       list_realm_tokens env []
       = ([], Ret {| retval := 0;
                     stdout := json_dumps (JArr entries);
                     stderr := u "" |})
       /\ Forall2 listed_entry [Cluster.realm_r1; Cluster.realm_r2] entries.
Proof.
  intros env. split; [reflexivity|].
  apply (list_realm_tokens_one_entry_per_realm env [] []
           [Cluster.realm_r1; Cluster.realm_r2] eq_refl).
Defined.

(** The listing of the two realms of the cluster, as the handler prints it:
    the realm without an endpoint is listed with its marker. *)
Example list_realm_tokens_two_realms :
  list_realm_tokens
    (Cluster.env Cluster.up [] [Cluster.realm_r1; Cluster.realm_r2]) []
  = ([], Ret {| retval := 0; stdout := listing_r1_r2; stderr := [] |}).
Proof. vm_compute. reflexivity. Qed.

Lemma parse_rgw_specs_keeps_order_witness :
  let env := Cluster.env Cluster.up [Some (u "z1"); None; Some (u "z3")] [] in
  yaml_safe_load_all env (u "---") = Ret [Some (u "z1"); None; Some (u "z3")]
  /\ fst (_parse_rgw_specs env (u "---") [u "earlier"]) = [u "earlier"]
  /\ snd (_parse_rgw_specs env (u "---") [u "earlier"])
     = Ret [Cluster.spec_of_doc (u "z1"); Cluster.spec_of_doc (u "z3")].
Proof.
  intros env. split; [reflexivity|].
  destruct (parse_rgw_specs_keeps_order env (u "---") [u "earlier"]
              [Some (u "z1"); None; Some (u "z3")] eq_refl)
    as (Hw & _ & Hspecs).
  split; [exact Hw|]. apply Hspecs.
  repeat constructor.
Defined.

Lemma bootstrap_needs_three_names_witness :
  let env := Cluster.env Cluster.up [] [] in
  status env [] = ([], Ret (true, u ""))
  /\ _cmd_rgw_realm_bootstrap env (Some (u "r1")) None (Some (u "z1")) None None
       (Some true) None [] = ([], Ret invalid_arguments)
  /\ _cmd_rgw_realm_bootstrap env (Some (u "r1")) (Some (u "zg1")) (Some (u "z1"))
       (Some 8080) None (Some true) None []
     = ([u "z1"], Ret realm_created).
Proof.
  intros env. split; [reflexivity|].
  destruct (bootstrap_needs_three_names env [] (u "") (Some (u "r1")) None
              (Some (u "z1")) None None (Some true) None eq_refl eq_refl)
    as (Hno & _).
  destruct (bootstrap_needs_three_names env [] (u "") (Some (u "r1"))
              (Some (u "zg1")) (Some (u "z1")) (Some 8080) None (Some true) None
              eq_refl eq_refl)
    as (_ & Hyes).
  split; [exact (proj1 (Hno eq_refl))|exact (Hyes eq_refl None eq_refl)].
Defined.

Lemma zone_create_empty_batch_unbound_witness :
  let env := Cluster.env Cluster.up [None; None] [] in
  status env [] = ([], Ret (true, u ""))
  /\ yaml_safe_load_all env (u "---") = Ret [None; None]
  /\ not_none [@None str; None] = []
  /\ _cmd_rgw_zone_create env None None None None (Some true) (Some (u "---")) []
     = ([], Raise (UnboundLocalError (u "retval"))).
Proof.
  intros env. repeat (split; [reflexivity|]).
  apply (zone_create_empty_batch_unbound env [] (u "") None None None None
           (Some true) 45%N (u "--") [None; None] eq_refl eq_refl eq_refl).
Defined.

(** Realm bootstrap, given the same buffer, reports success. *)
Example bootstrap_empty_batch :
  _cmd_rgw_realm_bootstrap (Cluster.env Cluster.up [None; None] []) None None None
    None None (Some true) (Some (u "---")) []
  = ([], Ret realm_created).
Proof. reflexivity. Qed.

(** * Further properties of the handlers *)

Section MoreHandlerProperties.

Context {World YamlObj PlacementSpec : Type}.
Variable env : Env World YamlObj PlacementSpec.

Ltac run :=
  unfold _cmd_rgw_realm_bootstrap, _cmd_rgw_zone_create, check_orchestrator,
    realm_bootstrap_func, zone_create_func, passthrough, update_zone_info,
    list_realm_tokens, bind, try_RGWAM, ret, raise, pure_call.

(** X1. Realm bootstrap looks only at exceptions: when the engine returns
    for every spec of the batch, whatever return code it gives, the handler
    reports that the realms were created, with the code 0, in the world
    reached by the last call. *)
Theorem bootstrap_reports_success :
  forall (w w' : World) (msg : str) (c : N) (buf : str)
         (specs : list (RGWSpec PlacementSpec))
         (a1 a2 a3 : option str) (port : option Z) (placement : option str)
         (start_radosgw : option bool),
    status env w = (w, Ret (true, msg)) ->
    _parse_rgw_specs env (c :: buf) w = (w, Ret specs) ->
    completes (fun s => realm_bootstrap env s start_radosgw)
              (fun _ => true) specs w w' ->
    _cmd_rgw_realm_bootstrap env a1 a2 a3 port placement start_radosgw
      (Some (c :: buf)) w = (w', Ret realm_created).
Proof.
  intros w w' msg c buf specs a1 a2 a3 port pl start Hs Hp Hc.
  run. rewrite Hs. simpl. rewrite Hp.
  pose proof (for_each_completes _ specs [] w w' Hc) as Hf.
  rewrite app_nil_r in Hf. unfold bind, ret in Hf. rewrite Hf. reflexivity.
Qed.

(** X2. Zone create returns what the engine returned for the last spec it
    ran: when the specs before the last one return the code 0, the result is
    the triple of the last one, and the output of the earlier ones is
    lost. *)
Theorem zone_create_returns_last :
  forall (w w1 w2 : World) (msg : str) (c : N) (buf : str)
         (pre : list (RGWSpec PlacementSpec)) (last : RGWSpec PlacementSpec)
         (r : triple)
         (a1 a2 : option str) (port : option Z) (placement : option str)
         (start_radosgw : option bool),
    status env w = (w, Ret (true, msg)) ->
    _parse_rgw_specs env (c :: buf) w = (w, Ret (pre ++ [last])) ->
    completes (fun s => zone_create env s start_radosgw)
              (fun r => fst (fst r) =? 0) pre w w1 ->
    zone_create env last start_radosgw w1 = (w2, Ret r) ->
    _cmd_rgw_zone_create env a1 a2 port placement start_radosgw
      (Some (c :: buf)) w = (w2, Ret (of_triple r)).
Proof.
  intros w w1 w2 msg c buf pre last r a1 a2 port pl start Hs Hp Hpre Hop.
  run. rewrite Hs. simpl. rewrite Hp.
  destruct (zone_create_loop_completes env pre [last] start None w w1 Hpre)
    as (last' & Heq & _). rewrite Heq. simpl. unfold bind. rewrite Hop.
  destruct (negb (fst (fst r) =? 0)); reflexivity.
Qed.

(** X3. Without an input buffer, zone create needs the zone name and the
    realm token together.  When one is missing or empty it returns the
    invalid-arguments error in an unchanged world; with both it hands the
    spec built from them to the engine and returns the engine's triple, or
    the triple of its RGWAMException. *)
Theorem zone_create_needs_zone_and_token :
  forall (w : World) (msg : str) (zone_name realm_token : option str)
         (port : option Z) (placement : option str)
         (start_radosgw : option bool) (inbuf : option str),
    status env w = (w, Ret (true, msg)) ->
    opt_truthy inbuf = false ->
    (opt_truthy zone_name && opt_truthy realm_token = false ->
     _cmd_rgw_zone_create env zone_name realm_token port placement
       start_radosgw inbuf w = (w, Ret invalid_arguments))
    /\ (opt_truthy zone_name && opt_truthy realm_token = true ->
        forall ps, placement_of env placement w = (w, Ret ps) ->
        _cmd_rgw_zone_create env zone_name realm_token port placement
          start_radosgw inbuf w
        = match zone_create env
                  {| rgw_realm := None; rgw_zonegroup := None;
                     rgw_zone := zone_name; rgw_realm_token := realm_token;
                     rgw_frontend_port := port; placement := ps |}
                  start_radosgw w with
          | (w', Ret r) => (w', Ret (of_triple r))
          | (w', Raise e) => (w', handled e)
          end).
Proof.
  intros w msg zn tok port pl start inbuf Hs Hin.
  assert (Hbuf : forall A (x : str -> A) (y : A),
             match inbuf with Some ((_ :: _) as b) => x b | _ => y end = y).
  { intros A x y. destruct inbuf as [[|c b]|]; try reflexivity. discriminate. }
  split.
  - intros Hn. run. rewrite Hs. simpl. rewrite Hbuf, Hn. reflexivity.
  - intros Hn ps Hpl. run. rewrite Hs. simpl. rewrite Hbuf, Hn.
    unfold bind, ret in Hpl. rewrite Hpl. simpl. unfold bind, ret.
    destruct (zone_create env _ start w) as [w' [r|e]].
    + destruct (negb (fst (fst r) =? 0)); reflexivity.
    + destruct e; reflexivity.
Qed.

(** X4. An input buffer takes the place of the other arguments: with a
    non-empty buffer, realm bootstrap and zone create do the same whatever
    names, token, port and placement are given beside it. *)
Theorem input_buffer_overrides_arguments :
  forall (w : World) (c : N) (buf : str) (start_radosgw : option bool)
         (a1 a2 a3 b1 b2 b3 : option str) (port port' : option Z)
         (placement placement' : option str),
    _cmd_rgw_realm_bootstrap env a1 a2 a3 port placement start_radosgw
      (Some (c :: buf)) w
    = _cmd_rgw_realm_bootstrap env b1 b2 b3 port' placement' start_radosgw
        (Some (c :: buf)) w
    /\ _cmd_rgw_zone_create env a1 a2 port placement start_radosgw
         (Some (c :: buf)) w
       = _cmd_rgw_zone_create env b1 b2 port' placement' start_radosgw
           (Some (c :: buf)) w.
Proof. intros. split; reflexivity. Qed.


(** X5. A placement that [PlacementSpec.from_string] refuses stops the
    command before the engine is called, in an unchanged world: the error
    is returned as a triple when it is an RGWAMException and raised
    otherwise.  An empty placement text is not parsed at all. *)
Theorem placement_error_stops_command :
  forall (w : World) (msg : str) (a1 a2 a3 : option str) (port : option Z)
         (c : N) (p : str) (start_radosgw : option bool) (inbuf : option str)
         (e : exn),
    status env w = (w, Ret (true, msg)) ->
    opt_truthy inbuf = false ->
    PlacementSpec_from_string env (c :: p) = Raise e ->
    (opt_truthy a1 && opt_truthy a2 && opt_truthy a3 = true ->
     _cmd_rgw_realm_bootstrap env a1 a2 a3 port (Some (c :: p)) start_radosgw
       inbuf w = (w, handled e))
    /\ (opt_truthy a1 && opt_truthy a2 = true ->
        _cmd_rgw_zone_create env a1 a2 port (Some (c :: p)) start_radosgw
          inbuf w = (w, handled e))
    /\ placement_of env (Some []) w = (w, Ret None).
Proof.
  intros w msg a1 a2 a3 port c p start inbuf e Hs Hin Hp.
  assert (Hbuf : forall A (x : str -> A) (y : A),
             match inbuf with Some ((_ :: _) as b) => x b | _ => y end = y).
  { intros A x y. destruct inbuf as [[|c' b]|]; try reflexivity. discriminate. }
  split; [|split; [|reflexivity]].
  - intros Hn. run. rewrite Hs. simpl. rewrite Hbuf, Hn.
    unfold placement_of, bind, pure_call. rewrite Hp. destruct e; reflexivity.
  - intros Hn. run. rewrite Hs. simpl. rewrite Hbuf, Hn.
    unfold placement_of, bind, pure_call. rewrite Hp. destruct e; reflexivity.
Qed.

(** X6. The whole buffer is parsed and validated before the engine sees any
    spec: when [_parse_rgw_specs] raises (a YAML error, a document that
    cannot be converted, a spec that does not validate), realm bootstrap
    and zone create stop in an unchanged world, returning the error as a
    triple when it is an RGWAMException and raising it otherwise. *)
Theorem parse_error_stops_batch :
  forall (w : World) (msg : str) (c : N) (buf : str) (e : exn)
         (a1 a2 a3 : option str) (port : option Z) (placement : option str)
         (start_radosgw : option bool),
    status env w = (w, Ret (true, msg)) ->
    snd (_parse_rgw_specs env (c :: buf) w) = Raise e ->
    _cmd_rgw_realm_bootstrap env a1 a2 a3 port placement start_radosgw
      (Some (c :: buf)) w = (w, handled e)
    /\ _cmd_rgw_zone_create env a1 a2 port placement start_radosgw
         (Some (c :: buf)) w = (w, handled e).
Proof.
  intros w msg c buf e a1 a2 a3 port pl start Hs Hp.
  pose proof (parse_keeps_world env (c :: buf) w) as Hw.
  destruct (_parse_rgw_specs env (c :: buf) w) as [w0 r] eqn:Hparse.
  cbn [fst snd] in *. subst w0 r.
  split; run; rewrite Hs; simpl; rewrite Hparse; destruct e; reflexivity.
Qed.

Lemma parse_loop_first_error (pre post : list YamlObj) (d : YamlObj)
    (acc : list (RGWSpec PlacementSpec)) (e : exn) :
  Forall (fun d => exists s, RGWSpec_from_json env d = Ret s
                             /\ RGWSpec_validate env s = Ret tt) pre ->
  (RGWSpec_from_json env d = Raise e
   \/ exists s, RGWSpec_from_json env d = Ret s
                /\ RGWSpec_validate env s = Raise e) ->
  parse_loop env (pre ++ d :: post) acc = Raise e.
Proof.
  intros Hpre Hd. revert acc.
  induction Hpre as [|x pre (s & Hj & Hv) _ IH]; intros acc; cbn [app parse_loop].
  - destruct Hd as [Hd|(s & Hj & Hv)]; [now rewrite Hd|now rewrite Hj, Hv].
  - rewrite Hj, Hv. apply IH.
Qed.

(** X7. [_parse_rgw_specs] raises the error of the first document that
    cannot be converted or does not validate; the documents after it, valid
    or not, play no part, and null documents in between are skipped. *)
Theorem parse_rgw_specs_first_error :
  forall (inbuf : str) (w : World) (docs : list (option YamlObj))
         (pre post : list YamlObj) (d : YamlObj) (e : exn),
    yaml_safe_load_all env inbuf = Ret docs ->
    not_none docs = pre ++ d :: post ->
    Forall (fun d => exists s, RGWSpec_from_json env d = Ret s
                               /\ RGWSpec_validate env s = Ret tt) pre ->
    (RGWSpec_from_json env d = Raise e
     \/ exists s, RGWSpec_from_json env d = Ret s
                  /\ RGWSpec_validate env s = Raise e) ->
    _parse_rgw_specs env inbuf w = (w, Raise e).
Proof.
  intros inbuf w docs pre post d e Hy Hn Hpre Hd.
  unfold _parse_rgw_specs, bind, pure_call. rewrite Hy, Hn.
  now rewrite (parse_loop_first_error pre post d [] e Hpre Hd).
Qed.

(** X8. Realm bootstrap on a buffer that holds nothing but null documents
    calls the engine for no spec and still reports that the realms were
    created. *)
Theorem bootstrap_empty_batch_reports_success :
  forall (w : World) (msg : str) (a1 a2 a3 : option str)
         (port : option Z) (placement : option str) (start_radosgw : option bool)
         (c : N) (buf : str) (docs : list (option YamlObj)),
    status env w = (w, Ret (true, msg)) ->
    yaml_safe_load_all env (c :: buf) = Ret docs ->
    not_none docs = [] ->
    _cmd_rgw_realm_bootstrap env a1 a2 a3 port placement start_radosgw
      (Some (c :: buf)) w = (w, Ret realm_created).
Proof.
  intros w msg a1 a2 a3 port pl start c buf docs Hs Hy Hn.
  run. rewrite Hs. simpl. unfold _parse_rgw_specs, bind, pure_call.
  rewrite Hy, Hn. reflexivity.
Qed.

Lemma try_RGWAM_catches {A} (body : M World A)
    (handler : Z -> str -> str -> M World A) (w : World)
    (retcode : Z) (message err : str) :
  (forall a b c w0,
     snd (handler a b c w0) <> Raise (RGWAMException retcode message err)) ->
  snd (try_RGWAM body handler w) <> Raise (RGWAMException retcode message err).
Proof.
  intros Hh. unfold try_RGWAM.
  destruct (body w) as [w' [a|e]]; [discriminate|].
  destruct e; try apply Hh; cbn; congruence.
Qed.

(** X10. No RGWAMException leaves a handler that has a [try] block: the
    bodies of realm bootstrap and zone create, zone update, and the four
    handlers that pass the engine's triple on never raise it, whatever the
    engine, the loader and the spec constructors do. *)
Theorem rgwam_exception_never_escapes :
  forall (w : World) (retcode : Z) (message err : str)
         (a1 a2 a3 : option str) (port : option Z) (placement : option str)
         (flag : option bool) (inbuf : option str)
         (n1 n2 n3 n4 : str) (endpoints : list str),
    let raised := Raise (RGWAMException retcode message err) in
    snd (realm_bootstrap_func env a1 a2 a3 port placement flag inbuf w) <> raised
    /\ snd (zone_create_func env a1 a2 port placement flag inbuf w) <> raised
    /\ snd (update_zone_info env n1 n2 n3 n4 endpoints w) <> raised
    /\ snd (_cmd_rgw_realm_new_zone_creds env a1 a2 a3 w) <> raised
    /\ snd (_cmd_rgw_realm_rm_zone_creds env a1 w) <> raised
    /\ snd (_cmd_rgw_zonegroup_create env a1 a2 a3 flag w) <> raised
    /\ snd (_cmd_rgw_realm_reconcile env a1 a2 a3 flag w) <> raised.
Proof.
  intros w rc m err a1 a2 a3 port pl flag inbuf n1 n2 n3 n4 eps raised.
  assert (Hpass : forall op : M World triple, snd (passthrough op w) <> raised).
  { intros op. unfold passthrough, try_RGWAM, bind, ret.
    destruct (op w) as [w' [r|e]]; [discriminate|].
    destruct e; cbn; subst raised; congruence. }
  repeat split; try apply Hpass.
  - unfold realm_bootstrap_func. unfold bind at 1.
    match goal with
    | |- snd (match try_RGWAM ?b ?h w with _ => _ end) <> _ =>
        pose proof (try_RGWAM_catches b h w rc m err
                      (fun _ _ _ _ => ltac:(discriminate))) as Hc;
        destruct (try_RGWAM b h w) as [w' [[r|]|e]]
    end; try discriminate.
    subst raised. cbn [snd] in *. intros He. apply Hc.
    injection He as ->. reflexivity.
  - unfold zone_create_func. unfold bind at 1.
    match goal with
    | |- snd (match try_RGWAM ?b ?h w with _ => _ end) <> _ =>
        pose proof (try_RGWAM_catches b h w rc m err
                      (fun _ _ _ _ => ltac:(discriminate))) as Hc;
        destruct (try_RGWAM b h w) as [w' [[r|[r|]]|e]]
    end; try discriminate.
    subst raised. cbn [snd] in *. intros He. apply Hc.
    injection He as ->. reflexivity.
  - unfold update_zone_info, try_RGWAM, bind, ret.
    destruct (zone_modify env n1 n2 n3 eps n4 w) as [w' [[[rv out] er]|e]];
      [discriminate|].
    destruct e; cbn; subst raised; congruence.
Qed.

(** X11. The listing of realm tokens has no [try] block: whatever
    [get_realms_info] raises, an RGWAMException included, is raised by the
    handler, in the world the engine left. *)
Theorem list_realm_tokens_raises_engine_error :
  forall (w w' : World) (e : exn),
    get_realms_info env w = (w', Raise e) ->
    list_realm_tokens env w = (w', Raise e).
Proof. intros w w' e H. run. now rewrite H. Qed.

(** X12. [rgw admin] runs the manager's tool once, on the command line made
    of [radosgw-admin] followed by the parameters, and returns the exit
    code, output and error text of the tool as they are, a non-zero exit
    code included; an exception of the tool is raised by the handler. *)
Theorem rgw_admin_runs_radosgw_admin :
  forall (mgr_tool_exec : list str -> M World triple) (params : list str)
         (w w' : World),
    (forall prog args,
       tool_exec env prog args = RGWAMOrchMgr_tool_exec mgr_tool_exec prog args) ->
    (forall rc out err,
       mgr_tool_exec (u "radosgw-admin" :: params) w = (w', Ret (rc, out, err)) ->
       _cmd_rgw_admin env params w = (w', Ret (mkresult rc out err)))
    /\ (forall e,
          mgr_tool_exec (u "radosgw-admin" :: params) w = (w', Raise e) ->
          _cmd_rgw_admin env params w = (w', Raise e)).
Proof.
  intros mgr params w w' Henv.
  split; intros; unfold _cmd_rgw_admin, bind; rewrite Henv;
    unfold RGWAMOrchMgr_tool_exec, bind; rewrite H; reflexivity.
Qed.

(** X13. The handlers for zone credentials, zonegroup creation and
    reconciliation return the engine's triple unchanged, whatever its return
    code, turn its RGWAMException into the triple of its code, message and
    error text, and raise any other exception, always in the world the
    engine left. *)
Theorem engine_triple_is_passed_on :
  forall (w : World) (a1 a2 a3 : option str) (flag : option bool),
    let outcome (r : World * res triple) : World * res HandleCommandResult :=
      match r with
      | (w', Ret t) => (w', Ret (of_triple t))
      | (w', Raise e) => (w', handled e)
      end in
    _cmd_rgw_realm_new_zone_creds env a1 a2 a3 w
      = outcome (realm_new_zone_creds env a1 a2 a3 w)
    /\ _cmd_rgw_realm_rm_zone_creds env a1 w
       = outcome (realm_rm_zone_creds env a1 w)
    /\ _cmd_rgw_zonegroup_create env a1 a2 a3 flag w
       = outcome (zonegroup_create env a1 a2 a3 flag w)
    /\ _cmd_rgw_realm_reconcile env a1 a2 a3 flag w
       = outcome (realm_reconcile env a1 a2 a3 flag w).
Proof.
  intros w a1 a2 a3 flag outcome.
  assert (Hpass : forall op : M World triple, passthrough op w = outcome (op w)).
  { intros op. unfold passthrough, try_RGWAM, bind, ret, outcome.
    destruct (op w) as [w' [t|e]]; [reflexivity|]. destruct e; reflexivity. }
  repeat split; apply Hpass.
Qed.

End MoreHandlerProperties.

(** ** The further properties on the small clusters *)

Lemma bootstrap_reports_success_witness :
  let z := Cluster.spec_of_doc in
  let env := Cluster.env Cluster.up [Some (u "z1"); Some (u "nz")] [] in
  _parse_rgw_specs env (u "---") [] = ([], Ret [z (u "z1"); z (u "nz")])
  /\ realm_bootstrap env (z (u "nz")) (Some true) [u "z1"]
     = ([u "z1"; u "nz"], Ret (1, u "", u "non-zero exit"))
  /\ _cmd_rgw_realm_bootstrap env None None None None None (Some true)
       (Some (u "---")) [] = ([u "z1"; u "nz"], Ret realm_created).
Proof.
  intros z env. split; [reflexivity|]. split; [reflexivity|].
  apply (bootstrap_reports_success env [] [u "z1"; u "nz"] (u "") 45%N (u "--")
           [z (u "z1"); z (u "nz")] None None None None None (Some true)
           eq_refl eq_refl).
  apply (completes_cons _ _ _ _ [] [u "z1"] _ (0, u "done", u ""));
    [reflexivity|reflexivity|].
  apply (completes_cons _ _ _ _ [u "z1"] [u "z1"; u "nz"] _
           (1, u "", u "non-zero exit")); [reflexivity|reflexivity|].
  apply completes_nil.
Defined.

Lemma zone_create_returns_last_witness :
  let z := Cluster.spec_of_doc in
  let env := Cluster.env Cluster.up [Some (u "z1"); Some (u "z2")] [] in
  _parse_rgw_specs env (u "---") [] = ([], Ret ([z (u "z1")] ++ [z (u "z2")]))
  /\ _cmd_rgw_zone_create env None None None None (Some true) (Some (u "---")) []
     = ([u "z1"; u "z2"], Ret (mkresult 0 (u "done") (u ""))).
Proof.
  intros z env. split; [reflexivity|].
  apply (zone_create_returns_last env [] [u "z1"] [u "z1"; u "z2"] (u "") 45%N
           (u "--") [z (u "z1")] (z (u "z2")) (0, u "done", u "")
           None None None None (Some true) eq_refl eq_refl);
    [|reflexivity].
  apply (completes_cons _ _ _ _ [] [u "z1"] _ (0, u "done", u ""));
    [reflexivity|reflexivity|apply completes_nil].
Defined.

Lemma zone_create_needs_zone_and_token_witness :
  let env := Cluster.env Cluster.up [] [] in
  status env [] = ([], Ret (true, u ""))
  /\ _cmd_rgw_zone_create env (Some (u "z2")) None None None (Some true) None []
     = ([], Ret invalid_arguments)
  /\ _cmd_rgw_zone_create env (Some (u "z2")) (Some (u "token")) (Some 8080) None
       (Some true) None []
     = ([u "z2"], Ret (mkresult 0 (u "done") (u ""))).
Proof.
  intros env. split; [reflexivity|].
  destruct (zone_create_needs_zone_and_token env [] (u "") (Some (u "z2")) None
              None None (Some true) None eq_refl eq_refl) as (Hno & _).
  destruct (zone_create_needs_zone_and_token env [] (u "") (Some (u "z2"))
              (Some (u "token")) (Some 8080) None (Some true) None
              eq_refl eq_refl) as (_ & Hyes).
  split; [exact (Hno eq_refl)|exact (Hyes eq_refl None eq_refl)].
Defined.

Lemma placement_error_stops_command_witness :
  let e := OtherError (u "SpecValidationError") (u "count:x") in
  PlacementSpec_from_string Faulty.env (u "count:x") = Raise e
  /\ _cmd_rgw_realm_bootstrap Faulty.env (Some (u "r1")) (Some (u "zg1"))
       (Some (u "z1")) None (Some (u "count:x")) (Some true) None []
     = ([], Raise e)
  /\ _cmd_rgw_zone_create Faulty.env (Some (u "z2")) (Some (u "token")) None
       (Some (u "count:x")) (Some true) None []
     = ([], Raise e).
Proof.
  intros e. split; [reflexivity|].
  destruct (placement_error_stops_command Faulty.env [] (u "") (Some (u "r1"))
              (Some (u "zg1")) (Some (u "z1")) None 99%N (u "ount:x") (Some true)
              None e eq_refl eq_refl eq_refl) as (Hb & _ & _).
  destruct (placement_error_stops_command Faulty.env [] (u "") (Some (u "z2"))
              (Some (u "token")) None None 99%N (u "ount:x") (Some true)
              None e eq_refl eq_refl eq_refl) as (_ & Hz & _).
  split; [exact (Hb eq_refl)|exact (Hz eq_refl)].
Defined.

Lemma parse_error_stops_batch_witness :
  let e := OtherError (u "SpecValidationError") (u "bad") in
  snd (_parse_rgw_specs Faulty.env (u "---") []) = Raise e
  /\ _cmd_rgw_realm_bootstrap Faulty.env None None None None None (Some true)
       (Some (u "---")) [] = ([], Raise e)
  /\ _cmd_rgw_zone_create Faulty.env None None None None (Some true)
       (Some (u "---")) [] = ([], Raise e).
Proof.
  intros e. split; [reflexivity|].
  apply (parse_error_stops_batch Faulty.env [] (u "") 45%N (u "--") e
           None None None None None (Some true) eq_refl eq_refl).
Defined.

Lemma parse_rgw_specs_first_error_witness :
  let e := OtherError (u "SpecValidationError") (u "bad") in
  yaml_safe_load_all Faulty.env (u "---")
    = Ret [Some (u "z1"); None; Some (u "bad"); Some (u "z3")]
  /\ _parse_rgw_specs Faulty.env (u "---") [u "earlier"]
     = ([u "earlier"], Raise e).
Proof.
  intros e. split; [reflexivity|].
  apply (parse_rgw_specs_first_error Faulty.env (u "---") [u "earlier"]
           [Some (u "z1"); None; Some (u "bad"); Some (u "z3")]
           [u "z1"] [u "z3"] (u "bad") e eq_refl eq_refl).
  - constructor; [|constructor]. eexists. split; reflexivity.
  - left. reflexivity.
Defined.

Lemma bootstrap_empty_batch_reports_success_witness :
  let env := Cluster.env Cluster.up [None; None] [] in
  yaml_safe_load_all env (u "---") = Ret [None; None]
  /\ _cmd_rgw_realm_bootstrap env None None None None None (Some true)
       (Some (u "---")) [] = ([], Ret realm_created).
Proof.
  intros env. split; [reflexivity|].
  apply (bootstrap_empty_batch_reports_success env [] (u "") None None None None
           None (Some true) 45%N (u "--") [None; None] eq_refl eq_refl eq_refl).
Defined.

Lemma list_realm_tokens_raises_engine_error_witness :
  let e := RGWAMException 2 (u "no realm") (u "ENOENT") in
  get_realms_info Faulty.env [] = ([u "realms"], Raise e)
  /\ list_realm_tokens Faulty.env [] = ([u "realms"], Raise e).
Proof.
  intros e. split; [reflexivity|].
  apply (list_realm_tokens_raises_engine_error Faulty.env [] [u "realms"] e
           eq_refl).
Defined.

Lemma rgw_admin_runs_radosgw_admin_witness :
  recording_tool [u "radosgw-admin"; u "realm"; u "list"] []
    = ([u "radosgw-admin"], Ret (0, u "", u ""))
  /\ _cmd_rgw_admin Faulty.env [u "realm"; u "list"] []
     = ([u "radosgw-admin"], Ret (mkresult 0 (u "") (u ""))).
Proof.
  split; [reflexivity|].
  destruct (rgw_admin_runs_radosgw_admin Faulty.env recording_tool
              [u "realm"; u "list"] [] [u "radosgw-admin"]
              (fun _ _ => eq_refl)) as (Hret & _).
  apply (Hret 0 (u "") (u "") eq_refl).
Defined.

(** * Further properties of the encodings *)

Local Open Scope N_scope.

(** ** Lists of flat objects *)

Lemma dump_items_text (x : json) (l : list json) (rest : str) :
  dump_items json_dumps (x :: l) ++ 93 :: rest = items_text (x :: l) rest.
Proof.
  revert x. induction l as [|y l IH]; intros x.
  - reflexivity.
  - change (dump_items json_dumps (x :: y :: l))
      with (json_dumps x ++ u ", " ++ dump_items json_dumps (y :: l)).
    change (items_text (x :: y :: l) rest)
      with (json_dumps x ++ 44 :: 32 :: items_text (y :: l) rest).
    rewrite <- !app_assoc, IH. reflexivity.
Qed.

Lemma JSONArray_eq (fuel : nat) (s : str) (values : list json) :
  JSONArray (S fuel) s values
  = ('(value, r) <-? scan_once fuel s ;;
     let values' := values ++ [value] in
     match skip_ws r with
     | c :: r1 =>
         if c =? 93 then Some (JArr values', r1)
         else if c =? 44 then JSONArray fuel (skip_ws r1) values'
         else None
     | [] => None
     end).
Proof. reflexivity. Qed.

Lemma scan_once_flat_object (fuel bound : nat) (j : json) (rest : str) :
  flat_object bound j -> (3 + bound <= fuel)%nat ->
  scan_once fuel (json_dumps j ++ rest) = Some (as_loaded j, rest).
Proof.
  intros (k & v & ms & -> & Hb & HF) Hfuel.
  cbn [json_dumps as_loaded].
  change ((123 :: dump_members json_dumps ((k, v) :: ms) ++ [125]) ++ rest)
    with (123 :: (dump_members json_dumps ((k, v) :: ms) ++ [125]) ++ rest).
  rewrite <- app_assoc. cbn [app]. rewrite dump_members_text.
  replace fuel
    with (S (S (S (List.length ms + (fuel - 3 - List.length ms)))))%nat by lia.
  rewrite scan_once_object. now rewrite JSONObject_members.
Qed.

Lemma flat_object_text (bound : nat) (j : json) :
  flat_object bound j -> exists t, json_dumps j = 123 :: t.
Proof. intros (k & v & ms & -> & _). cbn [json_dumps]. eauto. Qed.

Lemma JSONArray_flat_objects (bound : nat) (l : list json) :
  forall (x : json) (fuel : nat) (values : list json) (rest : str),
    Forall (flat_object bound) (x :: l) ->
    (List.length l + bound + 4 <= fuel)%nat ->
    JSONArray fuel (items_text (x :: l) rest) values
    = Some (JArr (values ++ map as_loaded (x :: l)), rest).
Proof.
  induction l as [|y l IH]; intros x fuel values rest HF Hfuel;
    inversion HF as [|? ? Hx HF']; subst;
    (destruct fuel as [|fuel]; [cbn [List.length] in Hfuel; lia|]);
    cbn [List.length] in Hfuel; rewrite JSONArray_eq.
  - cbn [items_text].
    rewrite (scan_once_flat_object fuel bound x _ Hx) by lia.
    reflexivity.
  - change (items_text (x :: y :: l) rest)
      with (json_dumps x ++ 44 :: 32 :: items_text (y :: l) rest).
    rewrite (scan_once_flat_object fuel bound x _ Hx) by lia.
    cbv beta iota zeta delta [obind].
    rewrite (skip_ws_stop 44) by reflexivity.
    change (44 =? 93) with false. change (44 =? 44) with true. cbv iota.
    rewrite skip_ws_space.
    assert (Hy : flat_object bound y) by (inversion HF'; assumption).
    destruct (flat_object_text bound y Hy) as (t & Ht).
    assert (Hstop : skip_ws (items_text (y :: l) rest) = items_text (y :: l) rest).
    { cbn [items_text]. rewrite Ht. reflexivity. }
    rewrite Hstop, (IH y fuel (values ++ [as_loaded x]) rest HF') by lia.
    cbn [map]. rewrite <- app_assoc. reflexivity.
Qed.

(** [json.loads] reads back a list of flat objects written by [json.dumps]. *)
Lemma json_loads_flat_objects (bound : nat) (items : list json) :
  Forall (flat_object bound) items ->
  json_loads (json_dumps (JArr items)) = Some (JArr (map as_loaded items)).
Proof.
  intros HF. destruct items as [|x l]; [reflexivity|].
  set (text := json_dumps (JArr (x :: l))).
  rewrite <- (json_loads_fuel text
                (S (2 * List.length text) + (List.length l + bound + 5)))
    by lia.
  assert (Htext : text = 91 :: items_text (x :: l) []).
  { unfold text. cbn [json_dumps]. f_equal. apply dump_items_text. }
  assert (Hx : flat_object bound x) by (inversion HF; assumption).
  destruct (flat_object_text bound x Hx) as (t & Ht).
  unfold loads_with. rewrite Htext at 2.
  rewrite (skip_ws_stop 91) by reflexivity.
  cbn [Nat.add scan_once].
  change (91 =? 34) with false. change (91 =? 123) with false.
  change (91 =? 91) with true. cbv iota.
  assert (Hshape : exists t', items_text (x :: l) [] = 123 :: t').
  { cbn [items_text]. rewrite Ht. cbn [app]. eauto. }
  destruct Hshape as (t' & Hshape).
  rewrite Hshape, (skip_ws_stop 123) by reflexivity.
  change (123 =? 93) with false. cbv iota. rewrite <- Hshape.
  rewrite (JSONArray_flat_objects bound l x _ [] [] HF) by lia.
  reflexivity.
Qed.

Lemma is_scalar_of_ascii (s : str) : is_ascii s = true -> forallb is_scalar s = true.
Proof.
  unfold is_ascii. rewrite !forallb_forall. intros H c Hc.
  specialize (H c Hc). apply N.ltb_lt in H.
  unfold is_scalar, is_surrogate. apply andb_true_iff. split.
  - apply N.ltb_lt. lia.
  - apply negb_true_iff, andb_false_iff. left. apply N.leb_gt. lia.
Qed.

Lemma is_ascii_of_bytes (bs : bytes) :
  Forall (fun b => N_of_ascii b < 128) bs -> is_ascii (map N_of_ascii bs) = true.
Proof.
  induction 1 as [|b bs Hb _ IH]; [reflexivity|].
  unfold is_ascii in *. cbn [map forallb]. rewrite IH, andb_true_r.
  now apply N.ltb_lt.
Qed.

Lemma encode_is_ascii (t : RealmToken) (s : str) :
  encode t = Some s -> is_ascii s = true.
Proof.
  rewrite encode_total. intros [= <-]. apply is_ascii_of_bytes, b64encode_ascii.
Qed.

(** The entry of a realm whose name is a text is a flat object that
    [json.loads] leaves as it is. *)
Lemma realm_token_entry_flat (realm_info : RealmInfo.t) :
  wf_text (RealmInfo.realm_name realm_info) ->
  exists entry,
    realm_token_entry realm_info = Ret entry
    /\ entry_spec realm_info entry
    /\ flat_object 1 entry /\ as_loaded entry = entry.
Proof.
  intros Hname.
  destruct (realm_token_entry_spec realm_info) as (entry & He & Hspec).
  exists entry. split; [exact He|]. split; [exact Hspec|].
  assert (Htok : exists token,
             entry = realm_entry (RealmInfo.realm_name realm_info) token
             /\ forallb is_scalar token = true).
  { destruct Hspec as (token & -> & H1 & H2 & H3 & H4). exists token.
    split; [reflexivity|].
    destruct (truthy (RealmInfo.master_zone_id realm_info));
      [|rewrite H1 by reflexivity; reflexivity].
    destruct (truthy (RealmInfo.endpoint realm_info));
      [|rewrite H2 by reflexivity; reflexivity].
    destruct (truthy (RealmInfo.access_key realm_info));
      [|rewrite H3 by (try reflexivity; now left); reflexivity].
    destruct (truthy (RealmInfo.secret realm_info));
      [|rewrite H3 by (try reflexivity; now right); reflexivity].
    apply is_scalar_of_ascii, (encode_is_ascii (realm_token_of realm_info)).
    now apply H4. }
  destruct Htok as (token & -> & Htok).
  destruct Hname as (n & Hn & Hscalar). rewrite Hn.
  split; [|reflexivity].
  exists (u "realm"), (JStr n), [(u "token", JStr token)].
  split; [reflexivity|]. split; [cbn; lia|].
  repeat (apply Forall_cons; [split; [reflexivity|cbn [snd]]|]);
    try apply Forall_nil; left; eauto.
Qed.

Lemma realm_token_entries_flat (infos : list RealmInfo.t) :
  Forall (fun ri => wf_text (RealmInfo.realm_name ri)) infos ->
  forall realms_info,
  exists entries,
    realm_token_entries infos realms_info = Ret (realms_info ++ entries)
    /\ Forall2 entry_spec infos entries
    /\ Forall (flat_object 1) entries /\ map as_loaded entries = entries.
Proof.
  induction 1 as [|realm_info infos Hn _ IH]; intros acc.
  - exists []. rewrite app_nil_r. repeat split; constructor.
  - destruct (realm_token_entry_flat realm_info Hn)
      as (entry & He & Hspec & Hflat & Hload).
    destruct (IH (acc ++ [entry])) as (entries & Hes & HF & Hflats & Hloads).
    exists (entry :: entries). cbn [realm_token_entries]. rewrite He, Hes.
    rewrite <- app_assoc. split; [reflexivity|]. split; [now constructor|].
    split; [now constructor|]. cbn [map]. now rewrite Hload, Hloads.
Qed.

(** ** The listing of realm tokens as a text *)

Lemma is_ascii_dump_items (items : list json) :
  Forall (fun x => is_ascii (json_dumps x) = true) items ->
  is_ascii (dump_items json_dumps items) = true.
Proof.
  induction 1 as [|x l Hx HF IH]; [reflexivity|].
  destruct l as [|y l]; [exact Hx|].
  change (dump_items json_dumps (x :: y :: l))
    with (json_dumps x ++ u ", " ++ dump_items json_dumps (y :: l)).
  now rewrite !is_ascii_app, Hx, IH.
Qed.

Lemma is_ascii_realm_entry (name : pyval) (token : str) :
  is_ascii (json_dumps (realm_entry name token)) = true.
Proof.
  unfold realm_entry. cbn [json_dumps].
  change (is_ascii ([123] ++ dump_members json_dumps
            [(u "realm", json_of_pyval name); (u "token", JStr token)]
            ++ [125]) = true).
  rewrite !is_ascii_app, is_ascii_dump_members; [reflexivity|].
  repeat constructor; cbn [snd];
    [apply is_ascii_pyval|apply is_ascii_basestring].
Qed.

Section ListingProperties.

Context {World YamlObj PlacementSpec : Type}.
Variable env : Env World YamlObj PlacementSpec.

(** X14. The text printed by the listing of realm tokens is JSON that
    [json.loads] reads back: when the names of the realms are texts of
    Unicode scalar values, loading the output gives the list of entries,
    one per realm, that the handler built. *)
Theorem listing_parses_back :
  forall (w w' : World) (infos : list RealmInfo.t),
    get_realms_info env w = (w', Ret infos) ->
    Forall (fun ri => wf_text (RealmInfo.realm_name ri)) infos ->
    exists out entries,
      list_realm_tokens env w = (w', Ret (mkresult 0%Z out (u "")))
      /\ json_loads out = Some (JArr entries)
      /\ Forall2 entry_spec infos entries.
Proof.
  intros w w' infos Hg Hn.
  destruct (realm_token_entries_flat infos Hn [])
    as (entries & He & HF & Hflat & Hload).
  exists (json_dumps (JArr entries)), entries. split; [|split; [|exact HF]].
  - unfold list_realm_tokens, bind, pure_call, ret. now rewrite Hg, He.
  - rewrite (json_loads_flat_objects 1 entries Hflat). now rewrite Hload.
Qed.

(** X15. The text printed by the listing of realm tokens holds ASCII
    characters only, whatever the names of the realms and their fields
    hold: [json.dumps] escapes every other character. *)
Theorem listing_is_ascii :
  forall (w w' : World) (infos : list RealmInfo.t),
    get_realms_info env w = (w', Ret infos) ->
    exists out,
      list_realm_tokens env w = (w', Ret (mkresult 0%Z out (u "")))
      /\ is_ascii out = true.
Proof.
  intros w w' infos Hg.
  destruct (realm_token_entries_spec infos []) as (entries & He & HF).
  exists (json_dumps (JArr entries)). split.
  - unfold list_realm_tokens, bind, pure_call, ret. now rewrite Hg, He.
  - cbn [json_dumps].
    change (is_ascii ([91] ++ dump_items json_dumps entries ++ [93]) = true).
    rewrite !is_ascii_app, is_ascii_dump_items; [reflexivity|].
    clear He Hg. induction HF as [|ri e infos' entries' Hspec _ IH];
      [constructor|].
    destruct Hspec as (token & -> & _).
    constructor; [apply is_ascii_realm_entry|exact IH].
Qed.

End ListingProperties.

(** ** The envelope of a token *)

Lemma b64_chr_in (n : N) : In (b64_chr n) (b64_alphabet ++ [b64_pad]).
Proof.
  unfold b64_chr. destruct (Nat.ltb_spec (N.to_nat n) (List.length b64_alphabet)).
  - apply in_or_app. left. now apply nth_In.
  - rewrite nth_overflow by assumption. apply in_or_app. right. now left.
Qed.

Lemma b64_pad_in : In b64_pad (b64_alphabet ++ [b64_pad]).
Proof. apply in_or_app. right. now left. Qed.

Lemma b64encode_chars (bs : bytes) :
  Forall (fun c => In c (b64_alphabet ++ [b64_pad])) (b64encode bs).
Proof.
  induction bs as [|a|a b|a b c l IH] using list_ind3.
  - constructor.
  - destruct a. cbn [b64encode].
    repeat (constructor; [first [apply b64_chr_in|apply b64_pad_in]|]).
    constructor.
  - destruct a, b. cbn [b64encode].
    repeat (constructor; [first [apply b64_chr_in|apply b64_pad_in]|]).
    constructor.
  - destruct a, b, c. cbn [b64encode].
    repeat (constructor; [apply b64_chr_in|]). exact IH.
Qed.

Lemma b64encode_length (bs : bytes) :
  List.length (b64encode bs) = (4 * ((List.length bs + 2) / 3))%nat.
Proof.
  induction bs as [|a|a b|a b c l IH] using list_ind3.
  - reflexivity.
  - destruct a. reflexivity.
  - destruct a, b. reflexivity.
  - destruct a, b, c. cbn [b64encode List.length]. rewrite IH.
    replace (S (S (S (List.length l))) + 2)%nat
      with (1 * 3 + (List.length l + 2))%nat by lia.
    rewrite Nat.div_add_l by discriminate. lia.
Qed.

(** X16. The envelope of a token is text-safe: it is always produced, it
    holds only the sixty-four characters of the base64 alphabet and the
    padding character, and it has four characters for every three
    characters, or part of three, of the JSON text it wraps. *)
Theorem token_envelope_is_text_safe :
  forall t : RealmToken,
    exists s,
      encode t = Some s
      /\ Forall (fun c => In c b64_chars) s
      /\ List.length s = (4 * ((List.length (to_json t) + 2) / 3))%nat.
Proof.
  intros t. eexists. split; [apply encode_total|]. split.
  - unfold b64_chars. apply Forall_forall. intros c Hc.
    apply in_map_iff in Hc as (b & <- & Hb). apply in_map.
    pose proof (b64encode_chars (map ascii_of_N (to_json t))) as HF.
    rewrite Forall_forall in HF. now apply HF.
  - now rewrite length_map, b64encode_length, length_map.
Qed.

Lemma decode_of_envelope (t : RealmToken) :
  wf_token t ->
  decode (map N_of_ascii (b64encode (map ascii_of_N (to_json t)))) = Some t.
Proof.
  intros Hwf. unfold decode.
  rewrite unwrap_envelope by apply is_ascii_to_json.
  cbv beta iota delta [obind].
  destruct Hwf as (Hn & Hi & (b & Hp) & He & Ha & Hs).
  unfold to_json. rewrite json_loads_flat_object.
  - destruct t as [n i p e a s]. cbn [realm_name realm_id is_primary endpoint
                                       access_key secret] in *.
    destruct Hn as (sn & -> & _), Hi as (si & -> & _), He as (se & -> & _),
             Ha as (sa & -> & _), Hs as (ss & -> & _). subst p.
    reflexivity.
  - repeat (apply Forall_cons; [split; [reflexivity|cbn [snd]]|]);
      try apply Forall_nil; try (apply plain_of_wf_text; assumption).
    right. rewrite Hp. now exists b.
Qed.

(** X17. Two well-formed tokens that differ have different envelopes. *)
Theorem distinct_tokens_have_distinct_envelopes :
  forall t1 t2 : RealmToken,
    wf_token t1 -> wf_token t2 -> t1 <> t2 -> encode t1 <> encode t2.
Proof.
  intros t1 t2 H1 H2 Hne Heq. apply Hne.
  rewrite !encode_total in Heq.
  pose proof (decode_of_envelope t1 H1) as D1.
  pose proof (decode_of_envelope t2 H2) as D2.
  set (e1 := map N_of_ascii (b64encode (map ascii_of_N (to_json t1)))) in *.
  set (e2 := map N_of_ascii (b64encode (map ascii_of_N (to_json t2)))) in *.
  assert (E : e1 = e2) by congruence.
  rewrite E in D1. congruence.
Qed.

(** ** Module options *)

Local Open Scope Z_scope.



Section ConfigProperties.

Variable get_module_option : str -> pyval.
Variable get_ceph_option : str -> pyval.





End ConfigProperties.

(** ** The further properties on samples *)

Lemma listing_parses_back_witness :
  let env := Cluster.env Cluster.up [] [Cluster.realm_r1; Cluster.realm_r2] in
  get_realms_info env [] = ([], Ret [Cluster.realm_r1; Cluster.realm_r2])
  /\ exists out entries,
       list_realm_tokens env [] = ([], Ret (mkresult 0 out (u "")))
       /\ json_loads out = Some (JArr entries)
       /\ Forall2 entry_spec [Cluster.realm_r1; Cluster.realm_r2] entries.
Proof.
  intros env. split; [reflexivity|].
  apply (listing_parses_back env [] [] [Cluster.realm_r1; Cluster.realm_r2]
           eq_refl).
  repeat constructor; eexists; split; reflexivity.
Defined.

Lemma listing_is_ascii_witness :
  let odd := {| RealmInfo.realm_name := PyStr [233%N; 128512%N];
                RealmInfo.realm_id := PyNone;
                RealmInfo.is_primary := PyNone;
                RealmInfo.master_zone_id := PyNone;
                RealmInfo.endpoint := PyNone;
                RealmInfo.access_key := PyNone;
                RealmInfo.secret := PyNone |} in
  let env := Cluster.env Cluster.up [] [odd; Cluster.realm_r1] in
  get_realms_info env [] = ([], Ret [odd; Cluster.realm_r1])
  /\ exists out,
       list_realm_tokens env [] = ([], Ret (mkresult 0 out (u "")))
       /\ is_ascii out = true.
Proof.
  intros odd env. split; [reflexivity|].
  apply (listing_is_ascii env [] [] [odd; Cluster.realm_r1] eq_refl).
Defined.

Lemma distinct_tokens_have_distinct_envelopes_witness :
  wf_token token_r1 /\ wf_token token_r1_rotated
  /\ token_r1 <> token_r1_rotated
  /\ encode token_r1 <> encode token_r1_rotated.
Proof.
  assert (H1 : wf_token token_r1).
  { unfold wf_token, wf_text. cbn.
    repeat split; eexists; try split; reflexivity. }
  assert (H2 : wf_token token_r1_rotated).
  { unfold wf_token, wf_text. cbn.
    repeat split; eexists; try split; reflexivity. }
  assert (Hne : token_r1 <> token_r1_rotated) by discriminate.
  split; [exact H1|]. split; [exact H2|]. split; [exact Hne|].
  apply (distinct_tokens_have_distinct_envelopes _ _ H1 H2 Hne).
Defined.



(** This module declares no option: [config_notify] leaves the instance as
    it is. *)
Example config_notify_of_this_module :
  forall self,
    config_notify sample_module_option sample_ceph_option MODULE_OPTIONS
      NATIVE_OPTIONS self = (self, Ret tt).
Proof. reflexivity. Qed.
